(** * fserve: the template lexer and document parser of [jinja_parse.py]

    A shallow embedding of [src/fserve/jinja_parse.py]: the character
    classes, the token model, the stateful lexer [JinjaStatementLexer]
    (written as explicit state passing over its mutable attributes) and the
    parser [JinjaStatementParser], followed by the properties of the
    specification checked against them. *)

From Stdlib Require Import String Ascii NArith ZArith List Bool Lia.
Import ListNotations.

(** ** Characters and text

    A Python [str] is a sequence of Unicode code points; a character is
    modelled by its code point ([ord]).  The cursor reports the end of the
    text with the integer [-1], which is not a character: a value read from
    the cursor is an [option char], [None] standing for [-1]. *)

Definition char := N.
Definition cursor_char := option char.

Definition ord (a : ascii) : char := N_of_ascii a.

(** The text of a Rocq string literal, as a Python [str]. *)
Definition str (s : string) : list char := map ord (list_ascii_of_string s).

(** [c == 'x'] for a character [c] and a one-character literal. *)
Definition eqc (c : char) (a : ascii) : bool := N.eqb c (ord a).

(** [ch == 'x'] for a value read from the cursor. *)
Definition is_ch (ch : cursor_char) (a : ascii) : bool :=
  match ch with
  | Some c => eqc c a
  | None => false
  end.

Definition cursor_eqb (a b : cursor_char) : bool :=
  match a, b with
  | Some x, Some y => N.eqb x y
  | None, None => true
  | _, _ => false
  end.

(** ['a' <= ch <= 'b'] *)
Definition between (lo : ascii) (c : char) (hi : ascii) : bool :=
  N.leb (ord lo) c && N.leb c (ord hi).

Definition nonempty {A : Type} (l : list A) : bool :=
  match l with
  | [] => false
  | _ :: _ => true
  end.

(** ** Exceptions and results *)

Inductive TokenType :=
  | STATEMENT_START | STATEMENT_END | INLINE_START | INLINE_END
  | COMMENT_START | COMMENT_END | LINE_STATEMENT_PREFIX | LINE_COMMENT_PREFIX
  | COMMENT_DATA | TEMPLATE_DATA | WS | NAME_OR_KEYWORD | STR_LIT | NUM_LIT
  | L_BRACKET | R_BRACKET | L_PAREN | R_PAREN | L_BRACE | R_BRACE
  | PIPE | EQ | COMMA | DOT | MATH_OP_OR_STAR_ARGS | COMPARE_OP | COLON | EOF.

Definition TokenType_eq_dec (a b : TokenType) : {a = b} + {a <> b}.
Proof. decide equality. Defined.

Definition tt_eqb (a b : TokenType) : bool :=
  if TokenType_eq_dec a b then true else false.

Definition tt_in (a : TokenType) (l : list TokenType) : bool :=
  existsb (tt_eqb a) l.

(** The decoded payload of a token: a [str], an [int], or a [float].  The
    numeric value of a float is not modelled; [VFloat] carries the literal
    handed to [float()]. *)
Inductive value :=
  | VStr (s : list char)
  | VInt (z : Z)
  | VFloat (lit : list char).

Definition value_eqb (a b : value) : bool :=
  match a, b with
  | VStr x, VStr y => if list_eq_dec N.eq_dec x y then true else false
  | VInt x, VInt y => Z.eqb x y
  | VFloat x, VFloat y => if list_eq_dec N.eq_dec x y then true else false
  | _, _ => false
  end.

Record Token := mkToken {
  tok_type : TokenType;
  text : list char;
  offset : nat;
  tok_value : value
}.

(** [Token.__init__]: [value if value is not None else text]. *)
Definition new_Token (t : TokenType) (txt : list char) (off : nat)
    (v : option value) : Token :=
  mkToken t txt off (match v with Some x => x | None => VStr txt end).

Inductive exn :=
  | InvalidSyntaxError (message : list char) (position : nat)
  | UnexpectedTokenError (tok : Token) (expected : list TokenType)
  | ValueError (message : string)
  | NameError (name : string)
  | TypeError (message : string)
  | IndexError
  | AttributeError
  | UnboundLocalError.

(** The outcome of a call: a value, a raised exception, or no outcome
    within the given number of loop iterations. *)
Inductive result (A : Type) :=
  | Ok (a : A)
  | Raise (e : exn)
  | OutOfFuel.

Arguments Ok {A} a.
Arguments Raise {A} e.
Arguments OutOfFuel {A}.

Definition bind {A B : Type} (r : result A) (k : A -> result B) : result B :=
  match r with
  | Ok a => k a
  | Raise e => Raise e
  | OutOfFuel => OutOfFuel
  end.

Notation "'do' x <- r ; k" := (bind r (fun x => k))
  (at level 10, x pattern, r at level 100, k at level 200).

(** ** Character classes *)

(** [is_digit(ch, radix)]: the test for [-1] comes before the [match], so the
    end of the text is no digit in any radix; a radix other than 10, 16 and 8
    raises [ValueError]. *)
Definition is_digit (ch : cursor_char) (radix : Z) : result bool :=
  match ch with
  | None => Ok false
  | Some c =>
      if Z.eqb radix 10 then Ok (between "0" c "9")
      else if Z.eqb radix 16 then
        Ok (between "0" c "9" || between "a" c "f" || between "A" c "F")
      else if Z.eqb radix 8 then Ok (between "0" c "7")
      else Raise (ValueError "Bad radix:")
  end.

(** [is_digit(ch)] with the default radix, which cannot raise. *)
Definition is_digit10 (ch : cursor_char) : bool :=
  match ch with
  | None => false
  | Some c => between "0" c "9"
  end.

Definition is_alpha (ch : cursor_char) : bool :=
  match ch with
  | None => false
  | Some c => between "a" c "z" || between "A" c "Z" || eqc c "_"
  end.

Definition is_alphanum (ch : cursor_char) : bool :=
  match ch with
  | None => false
  | Some c =>
      between "a" c "z" || between "A" c "Z" || between "0" c "9" || eqc c "_"
  end.

Definition is_ws (ch : cursor_char) : bool :=
  match ch with
  | None => false
  | Some cp =>
      if N.eqb cp 32 || (N.leb 9 cp && N.leb cp 13)
         || (N.leb 8192 cp && N.leb cp 8202)
      then true
      else existsb (N.eqb cp) [133; 160; 5670; 8232; 8233; 8239; 8287; 12288]
  end%N.

(** ** Numeric conversions

    [int(value, radix)] and [float(value)] on the strings the lexer hands
    them: an optional sign, digits, a radix prefix, [.], [e]/[E], or the empty
    string.  Both raise [ValueError] on a malformed literal. *)

Definition digit_value (c : char) : option Z :=
  if between "0" c "9" then Some (Z.of_N c - 48)%Z
  else if between "a" c "z" then Some (Z.of_N c - 87)%Z
  else if between "A" c "Z" then Some (Z.of_N c - 55)%Z
  else None.

Fixpoint digits_value (radix acc : Z) (s : list char) : option Z :=
  match s with
  | [] => Some acc
  | c :: s' =>
      match digit_value c with
      | Some d =>
          if (d <? radix)%Z then digits_value radix (acc * radix + d)%Z s'
          else None
      | None => None
      end
  end.

Definition strip_sign (s : list char) : Z * list char :=
  match s with
  | c :: s' =>
      if eqc c "-" then ((-1)%Z, s')
      else if eqc c "+" then (1%Z, s')
      else (1%Z, s)
  | [] => (1%Z, s)
  end.

Definition strip_radix_prefix (radix : Z) (s : list char) : list char :=
  match s with
  | z :: p :: rest =>
      if eqc z "0"
         && ((Z.eqb radix 16 && (eqc p "x" || eqc p "X"))
             || (Z.eqb radix 8 && (eqc p "o" || eqc p "O"))
             || (Z.eqb radix 2 && (eqc p "b" || eqc p "B")))
      then rest
      else s
  | _ => s
  end.

Definition py_int (s : list char) (radix : Z) : result Z :=
  let (sign, s1) := strip_sign s in
  match strip_radix_prefix radix s1 with
  | [] => Raise (ValueError "invalid literal for int()")
  | body =>
      match digits_value radix 0 body with
      | Some z => Ok (sign * z)%Z
      | None => Raise (ValueError "invalid literal for int()")
      end
  end.

Fixpoint span_digits (s : list char) : list char * list char :=
  match s with
  | c :: s' =>
      if between "0" c "9"
      then let (d, r) := span_digits s' in (c :: d, r)
      else ([], s)
  | [] => ([], [])
  end.

(** The grammar accepted by [float()]: digits with an optional fraction, or a
    fraction alone, then an optional exponent with at least one digit. *)
Definition float_literal_ok (s : list char) : bool :=
  let (_, s1) := strip_sign s in
  let (int_part, s2) := span_digits s1 in
  let (frac_part, s3) :=
    match s2 with
    | c :: r => if eqc c "." then span_digits r else ([], s2)
    | [] => ([], s2)
    end in
  (nonempty int_part || nonempty frac_part)
  && match s3 with
     | [] => true
     | c :: r =>
         (eqc c "e" || eqc c "E")
         && (let (_, r1) := strip_sign r in
             let (exp_part, r2) := span_digits r1 in
             nonempty exp_part && negb (nonempty r2))
     end.

Definition py_float (s : list char) : result value :=
  if float_literal_ok s then Ok (VFloat s)
  else Raise (ValueError "could not convert string to float").

(** ** The lexer

    The constructor arguments of [JinjaStatementLexer] never change after
    [__init__]; they form [LexerConfig].  A delimiter is a [str] or [None]. *)

Record LexerConfig := mkConfig {
  template_text : list char;
  block_start : option (list char);
  block_end : option (list char);
  inline_start : option (list char);
  inline_end : option (list char);
  comment_start : option (list char);
  comment_end : option (list char);
  line_statement_prefix : option (list char);
  line_comment_prefix : option (list char);
  ignore_tokens : list TokenType
}.

(** The attributes the lexer mutates.  [buf = None] is Python's [None];
    [ch_buf] holds the characters read ahead, [-1] included. *)
Record Lexer := mkLexer {
  buf_tok : option Token;
  buf_state : option nat;
  template_pos : nat;
  ch_buf : list cursor_char;
  la_buf : list Token;
  state : nat;
  buf : option (list char)
}.

(** The mutable attributes as [__init__] leaves them. *)
Definition new_lexer : Lexer :=
  mkLexer None None 0 [] [] 0 None.

Definition set_buf_tok (lx : Lexer) (v : option Token) : Lexer :=
  mkLexer v (buf_state lx) (template_pos lx) (ch_buf lx) (la_buf lx)
          (state lx) (buf lx).
Definition set_buf_state (lx : Lexer) (v : option nat) : Lexer :=
  mkLexer (buf_tok lx) v (template_pos lx) (ch_buf lx) (la_buf lx)
          (state lx) (buf lx).
Definition set_template_pos (lx : Lexer) (v : nat) : Lexer :=
  mkLexer (buf_tok lx) (buf_state lx) v (ch_buf lx) (la_buf lx)
          (state lx) (buf lx).
Definition set_ch_buf (lx : Lexer) (v : list cursor_char) : Lexer :=
  mkLexer (buf_tok lx) (buf_state lx) (template_pos lx) v (la_buf lx)
          (state lx) (buf lx).
Definition set_la_buf (lx : Lexer) (v : list Token) : Lexer :=
  mkLexer (buf_tok lx) (buf_state lx) (template_pos lx) (ch_buf lx) v
          (state lx) (buf lx).
Definition set_state (lx : Lexer) (v : nat) : Lexer :=
  mkLexer (buf_tok lx) (buf_state lx) (template_pos lx) (ch_buf lx) (la_buf lx)
          v (buf lx).
Definition set_buf (lx : Lexer) (v : option (list char)) : Lexer :=
  mkLexer (buf_tok lx) (buf_state lx) (template_pos lx) (ch_buf lx) (la_buf lx)
          (state lx) v.

(** Truth value of [self.buf]: a non-empty list. *)
Definition buf_truthy (lx : Lexer) : bool :=
  match buf lx with
  | Some (_ :: _) => true
  | _ => false
  end.

Definition LF : char := 10%N.
Definition CR : char := 13%N.
Definition DQUOTE : char := 34%N.

Section LexerMethods.

Variable cfg : LexerConfig.

Definition ignored (t : TokenType) : bool := tt_in t (ignore_tokens cfg).

Definition _start_buf (buf_token : TokenType) (ch : option char) (lx : Lexer)
    : Lexer :=
  if negb (ignored buf_token) then
    set_buf lx (Some match ch with Some c => [c] | None => [] end)
  else lx.

Definition _clear_buf (lx : Lexer) : list char * Lexer :=
  (match buf lx with Some b => b | None => [] end, set_buf lx None).

Definition _do_next (lx : Lexer) : cursor_char * Lexer :=
  match ch_buf lx with
  | rv :: rest => (rv, set_ch_buf lx rest)
  | [] =>
      match nth_error (template_text cfg) (template_pos lx) with
      | Some c => (Some c, set_template_pos lx (S (template_pos lx)))
      | None => (None, lx)
      end
  end.

Definition _next (lx : Lexer) : cursor_char * Lexer :=
  let (rv, lx1) := _do_next lx in
  match rv with
  | Some c =>
      if buf_truthy lx1
      then (rv, set_buf lx1 (Some (match buf lx1 with
                                   | Some b => b ++ [c]
                                   | None => [c]
                                   end)))
      else (rv, lx1)
  | None => (rv, lx1)
  end.

(** The second loop of [_la]: [k - i] calls of [_do_next], each result
    appended to [ch_buf].  [_do_next] itself takes from [ch_buf] when it is
    not empty. *)
Fixpoint _la_read (n : nat) (la : cursor_char) (lx : Lexer)
    : cursor_char * Lexer :=
  match n with
  | O => (la, lx)
  | S n' =>
      let (c, lx1) := _do_next lx in
      _la_read n' c (set_ch_buf lx1 (ch_buf lx1 ++ [c]))
  end.

(** [_la(k)]; every call site passes [k >= 1].  For [k = 0] the code returns
    the last buffered character (and has nothing to return on an empty
    buffer, which is rendered here as [None]). *)
Definition _la (k : nat) (lx : Lexer) : cursor_char * Lexer :=
  match k with
  | O => (last (ch_buf lx) None, lx)
  | S k' =>
      match nth_error (ch_buf lx) k' with
      | Some la => (la, lx)
      | None => _la_read (k - length (ch_buf lx)) (last (ch_buf lx) None) lx
      end
  end.

(** [while self.ch_buf: self._next()] *)
Fixpoint _clear_la_loop (n : nat) (lx : Lexer) : Lexer :=
  match n with
  | O => lx
  | S n' =>
      match ch_buf lx with
      | [] => lx
      | _ :: _ => _clear_la_loop n' (snd (_next lx))
      end
  end.

Definition _clear_la (lx : Lexer) : Lexer :=
  _clear_la_loop (length (ch_buf lx)) lx.

(** The delimiter probe, [i = 1; while i < len(d): if self._la(i) != d[i]:
    break; i += 1; else: ...]: [rest] is [d[i:]], the result tells whether
    the [else] branch is taken. *)
Fixpoint match_rest (rest : list char) (i : nat) (lx : Lexer) : bool * Lexer :=
  match rest with
  | [] => (true, lx)
  | c :: rest' =>
      let (la, lx1) := _la i lx in
      if cursor_eqb la (Some c) then match_rest rest' (S i) lx1
      else (false, lx1)
  end.

(** An upper bound on the iterations of a loop that consumes a character
    each time round: what is buffered plus what is left of the text. *)
Definition cursor_fuel (lx : Lexer) : nat :=
  S (S (length (ch_buf lx) + (length (template_text cfg) - template_pos lx))).

(** [Token(TokenType.EOF, '', self.template_pos)] *)
Definition eof_token (lx : Lexer) : Token :=
  new_Token EOF [] (template_pos lx) None.

(** *** Numeric literals *)

(** [while True: la = self._la(); if not is_digit(la, radix): break;
    self._next()] *)
Fixpoint num_digits (fuel : nat) (radix : Z) (lx : Lexer) : result Lexer :=
  match fuel with
  | O => OutOfFuel
  | S f =>
      let (la, lx1) := _la 1 lx in
      do d <- is_digit la radix;
      if d then num_digits f radix (snd (_next lx1)) else Ok lx1
  end.

(** [_do_num] from [if ch == '.'] on. *)
Definition _do_num_body (start_pos : nat) (ch : char) (lx : Lexer)
    : result (Token * Lexer) :=
  if eqc ch "." then
    do lx1 <- num_digits (cursor_fuel lx) 10 lx;
    let (v, lx2) := _clear_buf lx1 in
    do fl <- py_float v;
    Ok (new_Token NUM_LIT v start_pos (Some fl), lx2)
  else
    let (radix, lx1) :=
      if eqc ch "0" then
        let (la, lxa) := _la 1 lx in
        if is_ch la "x" || is_ch la "X" then (16%Z, snd (_next lxa))
        else if is_ch la "b" || is_ch la "B" then (2%Z, snd (_next lxa))
        else if is_ch la "o" || is_ch la "O" then (8%Z, snd (_next lxa))
        else (10%Z, lxa)
      else (10%Z, lx) in
    do lx2 <- num_digits (cursor_fuel lx1) radix lx1;
    if negb (Z.eqb radix 10) then
      let (v, lx3) := _clear_buf lx2 in
      do z <- py_int v radix;
      Ok (new_Token NUM_LIT v start_pos (Some (VInt z)), lx3)
    else
      let (la, lx3) := _la 1 lx2 in
      do fr <- (if is_ch la "."
                then do l <- num_digits (cursor_fuel lx3) 10 (snd (_next lx3));
                     Ok (true, l)
                else Ok (false, lx3));
      let (is_float1, lx4) := fr in
      let (la', lx5) := _la 1 lx4 in
      do ex <- (if is_ch la' "e" || is_ch la' "E"
                then do l <- num_digits (cursor_fuel lx5) 10 (snd (_next lx5));
                     Ok (true, l)
                else Ok (is_float1, lx5));
      let (is_float, lx6) := ex in
      let (v, lx7) := _clear_buf lx6 in
      do n <- (if is_float then py_float v
               else do z <- py_int v 10; Ok (VInt z));
      Ok (new_Token NUM_LIT v start_pos (Some n), lx7).

Definition _do_num (start_pos : nat) (ch : char) (lx : Lexer)
    : result (Token * Lexer) :=
  let lx0 := _start_buf NUM_LIT (Some ch) lx in
  if eqc ch "-" || eqc ch "+" then
    let (c, lx1) := _next lx0 in
    match c with
    | None => Ok (eof_token lx1, lx1)
    | Some c' => _do_num_body start_pos c' lx1
    end
  else _do_num_body start_pos ch lx0.

(** *** String literals

    The escape chain is [if ch == 'n' ... elif ch == 'r' ... elif ch == '\n'
    | '\r' ...].  The third test evaluates ['\n' | '\r'] before comparing, and
    [str] has no [|]: every escape other than [n] and [r] raises [TypeError]
    there, so the branches written after it ([\r], [t], [x], octal, [N],
    [u], [U], [a], [b], [f], [v] and the default) are never entered. *)
Fixpoint _do_str_loop (fuel : nat) (start_pos : nat) (opening_qchar : char)
    (value_buf : list char) (lx : Lexer) : result (Token * Lexer) :=
  match fuel with
  | O => OutOfFuel
  | S f =>
      let (ch, lx1) := _next lx in
      match ch with
      | None => Ok (eof_token lx1, lx1)
      | Some c =>
          if N.eqb c opening_qchar then
            let (t, lx2) := _clear_buf lx1 in
            Ok (new_Token STR_LIT t start_pos (Some (VStr value_buf)), lx2)
          else if eqc c "\" then
            let (ch', lx2) := _next lx1 in
            match ch' with
            | None => Ok (eof_token lx2, lx2)
            | Some e =>
                if eqc e "n" then
                  _do_str_loop f start_pos opening_qchar (value_buf ++ [LF]) lx2
                else if eqc e "r" then
                  _do_str_loop f start_pos opening_qchar (value_buf ++ [CR]) lx2
                else
                  Raise (TypeError "unsupported operand type(s) for |: 'str' and 'str'")
            end
          else _do_str_loop f start_pos opening_qchar (value_buf ++ [c]) lx1
      end
  end.

Definition _do_str (start_pos : nat) (ch : char) (lx : Lexer)
    : result (Token * Lexer) :=
  let lx0 := _start_buf STR_LIT (Some ch) lx in
  _do_str_loop (cursor_fuel lx0) start_pos ch [] lx0.

(** *** Comments *)

(** The end-of-comment check of one iteration: the token [rv], if any. *)
Definition comment_end_check (single_line : bool) (start_pos : nat) (c : char)
    (lx : Lexer) : result (option Token * Lexer) :=
  if single_line then
    if N.eqb c CR then
      let (la, lx1) := _la 1 lx in
      let lx2 := if cursor_eqb la (Some LF) then snd (_next lx1) else lx1 in
      let (t, lx3) := _clear_buf lx2 in
      Ok (Some (new_Token COMMENT_END t start_pos None), lx3)
    else if N.eqb c LF then
      let (t, lx1) := _clear_buf lx in
      Ok (Some (new_Token COMMENT_END t start_pos None), lx1)
    else Ok (None, lx)
  else
    match comment_end cfg with
    | None => Raise (TypeError "'NoneType' object is not subscriptable")
    | Some [] => Raise IndexError
    | Some (e0 :: rest) =>
        if N.eqb c e0 then
          let (matched, lx1) := match_rest rest 1 lx in
          if matched then
            let (t, lx2) := _clear_buf (_clear_la lx1) in
            Ok (Some (new_Token COMMENT_END t start_pos None), lx2)
          else Ok (None, lx1)
        else Ok (None, lx)
    end.

Fixpoint _do_comment_loop (fuel : nat) (single_line : bool) (start_pos : nat)
    (lx : Lexer) : result (Token * Lexer) :=
  match fuel with
  | O => OutOfFuel
  | S f =>
      let (ch, lx1) := _next lx in
      match ch with
      | None => Ok (eof_token lx1, lx1)
      | Some c =>
          do r <- comment_end_check single_line start_pos c lx1;
          let (rv, lx2) := r in
          match rv with
          | Some tok =>
              if buf_truthy lx2 then
                let lx3 := set_la_buf lx2 (la_buf lx2 ++ [tok]) in
                let (t, lx4) := _clear_buf lx3 in
                Ok (new_Token COMMENT_DATA t start_pos None, lx4)
              else Ok (tok, lx2)
          | None => _do_comment_loop f single_line start_pos lx2
          end
      end
  end.

Definition _do_comment (single_line : bool) (lx : Lexer)
    : result (Token * Lexer) :=
  let start_pos := template_pos lx in
  let lx0 := _start_buf COMMENT_DATA None lx in
  _do_comment_loop (cursor_fuel lx0) single_line start_pos lx0.

(** *** Statements and inline expressions *)

Definition ends_with_newline (v : list char) : bool :=
  match rev v with
  | c :: _ => N.eqb c LF || N.eqb c CR
  | [] => false
  end.

(** The whitespace run: [while True: if not is_ws(self._la()): ...;
    self._next()]. *)
Fixpoint ws_loop (fuel : nat) (end_tok_type : TokenType) (single_line : bool)
    (start_pos : nat) (lx : Lexer) : result (Token * Lexer) :=
  match fuel with
  | O => OutOfFuel
  | S f =>
      let (la, lx1) := _la 1 lx in
      if negb (is_ws la) then
        let (v, lx2) := _clear_buf lx1 in
        if single_line && ends_with_newline v
        then Ok (new_Token end_tok_type v start_pos None, lx2)
        else Ok (new_Token WS v start_pos None, lx2)
      else ws_loop f end_tok_type single_line start_pos (snd (_next lx1))
  end.

(** The identifier run. *)
Fixpoint name_loop (fuel : nat) (start_pos : nat) (lx : Lexer)
    : result (Token * Lexer) :=
  match fuel with
  | O => OutOfFuel
  | S f =>
      let (la, lx1) := _la 1 lx in
      if negb (is_alphanum la) then
        let (t, lx2) := _clear_buf lx1 in
        Ok (new_Token NAME_OR_KEYWORD t start_pos None, lx2)
      else name_loop f start_pos (snd (_next lx1))
  end.

(** The end-of-statement check of [_do_statement]: whether the terminator
    matches at the character just read. *)
Definition terminator_check (terminator : option (list char)) (c : char)
    (lx : Lexer) : bool * Lexer :=
  match terminator with
  | Some (t0 :: rest) =>
      if N.eqb c t0 then match_rest rest 1 lx else (false, lx)
  | _ => (false, lx)
  end.

(** [_do_statement] from the comment [# Otherwise, regular lexicon] on. *)
Definition regular_lexicon (end_tok_type : TokenType) (single_line : bool)
    (start_pos : nat) (c : char) (lx : Lexer) : result (Token * Lexer) :=
  let single t := Ok (new_Token t [c] start_pos None, lx) in
  if eqc c "(" then single L_PAREN
  else if eqc c ")" then single R_PAREN
  else if eqc c "[" then single L_BRACKET
  else if eqc c "]" then single R_BRACKET
  else if eqc c "{" then single L_BRACE
  else if eqc c "}" then single R_BRACE
  else if eqc c "," then single COMMA
  else if eqc c "|" then single PIPE
  else if eqc c ":" then single COLON
  else if eqc c "." then
    let (la, lx1) := _la 1 lx in
    if is_digit10 la then _do_num start_pos c lx1
    else Ok (new_Token DOT [c] start_pos None, lx1)
  else if eqc c "+" || eqc c "-" then
    let (la, lx1) := _la 1 lx in
    if is_digit10 la then Raise (NameError "_do_num")
    else Ok (new_Token MATH_OP_OR_STAR_ARGS [c] start_pos None, lx1)
  else if eqc c "*" || eqc c "/" then
    let (la, lx1) := _la 1 lx in
    if cursor_eqb la (Some c) then
      let (n, lx2) := _next lx1 in
      Ok (new_Token MATH_OP_OR_STAR_ARGS
            (c :: match n with Some x => [x] | None => str "-1" end)
            start_pos None, lx2)
    else Ok (new_Token MATH_OP_OR_STAR_ARGS [c] start_pos None, lx1)
  else if eqc c ">" || eqc c "<" then
    let (la, lx1) := _la 1 lx in
    if is_ch la "=" then
      let (n, lx2) := _next lx1 in
      Ok (new_Token COMPARE_OP
            (c :: match n with Some x => [x] | None => str "-1" end)
            start_pos None, lx2)
    else Ok (new_Token MATH_OP_OR_STAR_ARGS [c] start_pos None, lx1)
  else if eqc c "=" then
    let (la, lx1) := _la 1 lx in
    if is_ch la "=" then
      Ok (new_Token COMPARE_OP (str "==") start_pos None, snd (_next lx1))
    else Ok (new_Token EQ (str "=") start_pos None, lx1)
  else if N.eqb c DQUOTE || eqc c "'" then _do_str start_pos c lx
  else if is_digit10 (Some c) then _do_num start_pos c lx
  else if is_ws (Some c) then
    let lx1 := _start_buf WS (Some c) lx in
    ws_loop (cursor_fuel lx1) end_tok_type single_line start_pos lx1
  else if is_alpha (Some c) then
    let lx1 := _start_buf NAME_OR_KEYWORD (Some c) lx in
    name_loop (cursor_fuel lx1) start_pos lx1
  else Raise (InvalidSyntaxError (str "Invalid token: " ++ [c]) start_pos).

Definition _do_statement (terminator : option (list char))
    (end_tok_type : TokenType) (single_line : bool) (lx : Lexer)
    : result (Token * Lexer) :=
  let start_pos := template_pos lx in
  let (ch, lx1) := _next lx in
  match ch with
  | None => Ok (eof_token lx1, lx1)
  | Some c =>
      let (matched, lx2) := terminator_check terminator c lx1 in
      if matched then
        let (t, lx3) := _clear_buf (_clear_la lx2) in
        Ok (new_Token end_tok_type t start_pos None, lx3)
      else regular_lexicon end_tok_type single_line start_pos c lx2
  end.

(** *** Template text (state 0) *)

(** The [match tok_type] that selects the state after a start delimiter. *)
Definition state_after (tok_type : TokenType) (lx : Lexer) : Lexer :=
  match tok_type with
  | STATEMENT_START => set_state lx 1
  | COMMENT_START => set_state lx 2
  | INLINE_START => set_state lx 5
  | LINE_STATEMENT_PREFIX => set_state lx 3
  | LINE_COMMENT_PREFIX => set_state lx 4
  | _ => lx
  end.

(** The [for match_token, tok_type in (...)] loop at the character [ch]:
    [inl] is a [return] from [_next_token], [inr] falls through to
    [buf.append(ch)]. *)
Fixpoint probe (delims : list (option (list char) * TokenType)) (ch : char)
    (pending : list char) (start_pos : nat) (lx : Lexer)
    : (Token * Lexer) + Lexer :=
  match delims with
  | [] => inr lx
  | (match_token, tok_type) :: delims' =>
      match match_token with
      | Some (m0 :: rest) =>
          if N.eqb ch m0 then
            let match_pos := template_pos lx in
            let (matched, lx1) := match_rest rest 1 lx in
            if matched then
              let lx2 := _clear_la lx1 in
              let tok := new_Token tok_type (m0 :: rest) match_pos None in
              let lx3 := state_after tok_type lx2 in
              if nonempty pending then
                let lx4 := set_buf_state (set_buf_tok lx3 (Some tok))
                                         (Some (state lx3)) in
                inl (new_Token TEMPLATE_DATA pending start_pos None,
                     set_state lx4 6)
              else inl (tok, lx3)
            else probe delims' ch pending start_pos lx1
          else probe delims' ch pending start_pos lx
      | _ => probe delims' ch pending start_pos lx
      end
  end.

Definition start_delimiters : list (option (list char) * TokenType) :=
  [ (block_start cfg, STATEMENT_START);
    (inline_start cfg, INLINE_START);
    (comment_start cfg, COMMENT_START);
    (line_statement_prefix cfg, LINE_STATEMENT_PREFIX);
    (line_comment_prefix cfg, LINE_COMMENT_PREFIX) ].

(** The inner [while True] of state 0; [pending] is the local [buf]. *)
Fixpoint template_loop (fuel : nat) (pending : list char) (start_pos : nat)
    (lx : Lexer) : result (Token * Lexer) :=
  match fuel with
  | O => OutOfFuel
  | S f =>
      let (ch, lx1) := _next lx in
      match ch with
      | None =>
          Ok (if nonempty pending
              then new_Token TEMPLATE_DATA pending start_pos None
              else eof_token lx1, lx1)
      | Some c =>
          match probe start_delimiters c pending start_pos lx1 with
          | inl r => Ok r
          | inr lx2 => template_loop f (pending ++ [c]) start_pos lx2
          end
      end
  end.

(** [_next_token].  The local [state] is read once; a value outside 0..6
    leaves the outer [while True] with no branch to take, and the call never
    returns.  In state 6 [buf_tok] and [buf_state] were both set when the
    state was entered (lines 202-204); a missing [buf_tok] is the [None] the
    callers fail on, a missing [buf_state] is written as the state 7. *)
Definition _next_token (lx : Lexer) : result (Token * Lexer) :=
  let st := state lx in
  if Nat.eqb st 0 then template_loop (cursor_fuel lx) [] (template_pos lx) lx
  else if Nat.eqb st 1 || Nat.eqb st 3 || Nat.eqb st 5 then
    let (terminator, end_tok_type) :=
      if Nat.eqb st 1 then (block_end cfg, STATEMENT_END)
      else if Nat.eqb st 3 then (None, STATEMENT_END)
      else (inline_end cfg, INLINE_END) in
    do r <- _do_statement terminator end_tok_type (Nat.eqb st 3) lx;
    let (rv, lx1) := r in
    Ok (rv, if tt_eqb (tok_type rv) end_tok_type then set_state lx1 0 else lx1)
  else if Nat.eqb st 2 || Nat.eqb st 4 then
    do r <- _do_comment (Nat.eqb st 4) lx;
    let (rv, lx1) := r in
    Ok (rv, if tt_eqb (tok_type rv) COMMENT_END then set_state lx1 0 else lx1)
  else if Nat.eqb st 6 then
    match buf_tok lx with
    | Some tok =>
        Ok (tok, set_buf_state
                   (set_state (set_buf_tok lx None)
                      (match buf_state lx with Some s => s | None => 7 end))
                   None)
    | None => Raise AttributeError
    end
  else OutOfFuel.

(** *** The client interface: [next_token] and [la] *)

Fixpoint next_token (fuel : nat) (lx : Lexer) : result (Token * Lexer) :=
  match fuel with
  | O => OutOfFuel
  | S f =>
      match la_buf lx with
      | tok :: rest => Ok (tok, set_la_buf lx rest)
      | [] =>
          do r <- _next_token lx;
          let (tok, lx1) := r in
          if ignored (tok_type tok) then next_token f lx1 else Ok (tok, lx1)
      end
  end.

(** The [while j < length] loop of [la], with [remaining = length - j >= 1]. *)
Fixpoint la_fill (fuel : nat) (remaining : nat) (lx : Lexer)
    : result (Token * Lexer) :=
  match fuel with
  | O => OutOfFuel
  | S f =>
      do r <- _next_token lx;
      let (tok, lx1) := r in
      if ignored (tok_type tok) then la_fill f remaining lx1
      else
        let lx2 := set_la_buf lx1 (la_buf lx1 ++ [tok]) in
        if Nat.leb remaining 1 then Ok (tok, lx2)
        else la_fill f (remaining - 1) lx2
  end.

(** [la(k)].  With [k = 0] the first loop runs to its end and the code
    returns the last buffered token, or fails on the unassigned local when
    the buffer is empty. *)
Definition la (fuel : nat) (k : nat) (lx : Lexer) : result (Token * Lexer) :=
  match k with
  | O =>
      match la_buf lx with
      | [] => Raise UnboundLocalError
      | t :: r => Ok (last r t, lx)
      end
  | S k' =>
      match nth_error (la_buf lx) k' with
      | Some tok => Ok (tok, lx)
      | None => la_fill fuel (k - length (la_buf lx)) lx
      end
  end.

(** ** The parser *)

Inductive Element :=
  | TemplateText (text : value)
  | TemplateStatement (l_ws_control : option value) (command : value)
      (tokens : list Token) (r_ws_control : option value)
  | TemplateInline (tokens : list Token).

Record TemplateDocument := mkDocument { elements : list Element }.

(** [raise UnexpectedTokenError(tok, ...)].  The message formats the token
    with [Token.__str__], whose ["; " + self.value] is evaluated when the
    value differs from the text: for a token carrying a number the
    concatenation raises [TypeError] before the exception is built. *)
Definition raise_unexpected {A : Type} (tok : Token)
    (expected : list TokenType) : result A :=
  match tok_value tok with
  | VStr _ => Raise (UnexpectedTokenError tok expected)
  | _ => Raise (TypeError "can only concatenate str to str")
  end.

Definition check_tok (tok : Token) (expected : list TokenType) : result Token :=
  if tt_in (tok_type tok) expected then Ok tok
  else raise_unexpected tok expected.

(** [value in ('+', '-')] *)
Definition is_ws_control (v : value) : bool :=
  value_eqb v (VStr (str "+")) || value_eqb v (VStr (str "-")).

(** The [while True] loop of [statement]. *)
Fixpoint statement_loop (fuel : nat) (is_block : bool) (tokens : list Token)
    (r_ws_control : option value) (lx : Lexer)
    : result (list Token * option value * Lexer) :=
  match fuel with
  | O => OutOfFuel
  | S f =>
      do r <- next_token f lx;
      let (tok, lx1) := r in
      if tt_eqb (tok_type tok) STATEMENT_END then Ok (tokens, r_ws_control, lx1)
      else if is_block && is_ws_control (tok_value tok) then
        do r' <- la f 1 lx1;
        let (la_tok, lx2) := r' in
        if tt_eqb (tok_type la_tok) STATEMENT_END
        then statement_loop f is_block tokens (Some (tok_value tok)) lx2
        else statement_loop f is_block (tokens ++ [tok]) r_ws_control lx2
      else statement_loop f is_block (tokens ++ [tok]) r_ws_control lx1
  end.

Definition statement (fuel : nat) (lx : Lexer) : result (Element * Lexer) :=
  do r <- next_token fuel lx;
  let (tok, lx1) := r in
  do _ <- check_tok tok [STATEMENT_START; LINE_STATEMENT_PREFIX];
  let is_block := tt_eqb (tok_type tok) STATEMENT_START in
  do r1 <- (if is_block then
              do r' <- la fuel 1 lx1;
              let (la_tok, lx2) := r' in
              if is_ws_control (tok_value la_tok) then
                do r'' <- next_token fuel lx2;
                let (m, lx3) := r'' in
                Ok (Some (tok_value m), lx3)
              else Ok (None, lx2)
            else Ok (None, lx1));
  let (l_ws_control, lx4) := r1 in
  do r2 <- next_token fuel lx4;
  let (ctok, lx5) := r2 in
  do ctok' <- check_tok ctok [NAME_OR_KEYWORD];
  let command := tok_value ctok' in
  do r3 <- statement_loop fuel is_block [] None lx5;
  let '(tokens, r_ws_control, lx6) := r3 in
  Ok (TemplateStatement l_ws_control command tokens r_ws_control, lx6).

(** The [while True] loop of [inline]. *)
Fixpoint inline_loop (fuel : nat) (tokens : list Token) (lx : Lexer)
    : result (list Token * Lexer) :=
  match fuel with
  | O => OutOfFuel
  | S f =>
      do r <- next_token f lx;
      let (tok, lx1) := r in
      if tt_eqb (tok_type tok) INLINE_END then Ok (tokens, lx1)
      else inline_loop f (tokens ++ [tok]) lx1
  end.

Definition inline (fuel : nat) (lx : Lexer) : result (Element * Lexer) :=
  do r <- next_token fuel lx;
  let (tok, lx1) := r in
  do _ <- check_tok tok [INLINE_START];
  do r1 <- inline_loop fuel [] lx1;
  let (tokens, lx2) := r1 in
  Ok (TemplateInline tokens, lx2).

(** The [while True] loop of [document]. *)
Fixpoint document_loop (fuel : nat) (elems : list Element) (lx : Lexer)
    : result (TemplateDocument * Lexer) :=
  match fuel with
  | O => OutOfFuel
  | S f =>
      do r <- la f 1 lx;
      let (la_tok, lx1) := r in
      match tok_type la_tok with
      | TEMPLATE_DATA =>
          do r' <- next_token f lx1;
          let (tok, lx2) := r' in
          document_loop f (elems ++ [TemplateText (tok_value tok)]) lx2
      | STATEMENT_START | LINE_STATEMENT_PREFIX =>
          do r' <- statement f lx1;
          let (el, lx2) := r' in
          document_loop f (elems ++ [el]) lx2
      | INLINE_START =>
          do r' <- inline f lx1;
          let (el, lx2) := r' in
          document_loop f (elems ++ [el]) lx2
      | EOF => Ok (mkDocument elems, lx1)
      | _ =>
          raise_unexpected la_tok
            [TEMPLATE_DATA; STATEMENT_START; INLINE_START;
             LINE_STATEMENT_PREFIX]
      end
  end.

Definition document (fuel : nat) (lx : Lexer)
    : result (TemplateDocument * Lexer) :=
  document_loop fuel [] lx.

End LexerMethods.

(** [statement_parse(text)]: the default delimiters, no line prefixes, and
    whitespace and comment tokens ignored. *)
Definition default_config (text : list char) : LexerConfig :=
  mkConfig text
    (Some (str "{%")) (Some (str "%}"))
    (Some (str "{{")) (Some (str "}}"))
    (Some (str "{#")) (Some (str "#}"))
    None None
    [WS; COMMENT_START; COMMENT_DATA; COMMENT_END; LINE_COMMENT_PREFIX].

Definition statement_parse (fuel : nat) (text : list char)
    : result TemplateDocument :=
  do r <- document (default_config text) fuel new_lexer;
  Ok (fst r).

(** The raw token stream of a lexer, up to and including the first
    end-of-input token: [n] bounds the calls of [_next_token]. *)
Fixpoint raw_tokens (cfg : LexerConfig) (n : nat) (lx : Lexer)
    : result (list Token) :=
  match n with
  | O => OutOfFuel
  | S n' =>
      do r <- _next_token cfg lx;
      let (tok, lx1) := r in
      if tt_eqb (tok_type tok) EOF then Ok [tok]
      else do rest <- raw_tokens cfg n' lx1; Ok (tok :: rest)
  end.

(** [text[off : off + n]] *)
Definition source_slice (src : list char) (off n : nat) : list char :=
  firstn n (skipn off src).

(** ** Definitions for the statements *)

(** A token with the given text and no separate value. *)
Definition tok (t : TokenType) (txt : string) (off : nat) : Token :=
  new_Token t (str txt) off None.

(** The whitespace code points as the specification lists them. *)
Definition spec_whitespace (cp : N) : Prop :=
  (cp = 32 \/ (9 <= cp <= 13) \/ cp = 160 \/ cp = 5760
   \/ (8192 <= cp <= 8202) \/ cp = 8232 \/ cp = 8233 \/ cp = 8239
   \/ cp = 8287 \/ cp = 12288)%N.

(** The whitespace code points of [is_ws], the entry 5670 left aside. *)
Definition code_whitespace (cp : N) : Prop :=
  (cp = 32 \/ (9 <= cp <= 13) \/ cp = 133 \/ cp = 160
   \/ (8192 <= cp <= 8202) \/ cp = 8232 \/ cp = 8233 \/ cp = 8239
   \/ cp = 8287 \/ cp = 12288)%N.

(** The source text [{{ "a\tb\x41" }}]: the backslashes are characters of
    the text. *)
Definition escaped_literal_source : list char :=
  str "{{ " ++ [DQUOTE] ++ str "a\tb\x41" ++ [DQUOTE] ++ str " }}".

(** The lexer of [{% if x] once the text is used up: state 1, nothing
    buffered. *)
Definition exhausted_lexer : Lexer := mkLexer None None 7 [] [] 1 None.

(** The lexer of [{% if x] after the statement-start token has been read
    ahead by [document]. *)
Definition opened_lexer : Lexer :=
  mkLexer None None 2 [] [tok STATEMENT_START "{%" 1] 1 None.

(** Whether the terminator of the current state starts with [c]. *)
Definition begins_with (terminator : option (list char)) (c : char) : bool :=
  match terminator with
  | Some (t0 :: _) => N.eqb c t0
  | _ => false
  end.

(** [n] successive calls of [next_token]. *)
Fixpoint next_tokens (cfg : LexerConfig) (fuel n : nat) (lx : Lexer)
    : result (list Token * Lexer) :=
  match n with
  | O => Ok ([], lx)
  | S n' =>
      do r <- next_token cfg fuel lx;
      let (t, lx1) := r in
      do r' <- next_tokens cfg fuel n' lx1;
      let (ts, lx2) := r' in
      Ok (t :: ts, lx2)
  end.

Definition not_ignored (cfg : LexerConfig) (t : Token) : Prop :=
  ignored cfg (tok_type t) = false.

(** The lexer instances: a fresh lexer, and what calls of [next_token] and
    [la] make of one. *)
Inductive reachable (cfg : LexerConfig) : Lexer -> Prop :=
  | reach_new : reachable cfg new_lexer
  | reach_next_token (fuel : nat) (lx lx' : Lexer) (t : Token) :
      reachable cfg lx -> next_token cfg fuel lx = Ok (t, lx') ->
      reachable cfg lx'
  | reach_la (fuel k : nat) (lx lx' : Lexer) (t : Token) :
      reachable cfg lx -> la cfg fuel k lx = Ok (t, lx') ->
      reachable cfg lx'.

(** The lookahead buffer holds no token of an ignored kind. *)
Definition clean (cfg : LexerConfig) (lx : Lexer) : Prop :=
  Forall (not_ignored cfg) (la_buf lx).

(** The characters the cursor can still deliver: those read ahead and
    those left in the text. *)
Definition is_some {A : Type} (o : option A) : bool :=
  match o with
  | Some _ => true
  | None => false
  end.

Definition remaining (cfg : LexerConfig) (lx : Lexer) : nat :=
  length (filter is_some (ch_buf lx))
  + (length (template_text cfg) - template_pos lx).

(** *** Text without directives *)

Fixpoint starts_with (d s : list char) : bool :=
  match d, s with
  | [], _ => true
  | x :: d', y :: s' => N.eqb x y && starts_with d' s'
  | _ :: _, [] => false
  end.

(** [d in s] *)
Fixpoint occurs (d s : list char) : bool :=
  starts_with d s
  || match s with
     | [] => false
     | _ :: s' => occurs d s'
     end.

(** Whether one of the start delimiters of [statement_parse] occurs. *)
Definition has_directive (s : list char) : bool :=
  occurs (str "{%") s || occurs (str "{{") s || occurs (str "{#") s.

(** The lexer [base] with the cursor at position [p], the characters [cb]
    read ahead and no token text being collected. *)
Definition at_cursor (base : Lexer) (p : nat) (cb : list cursor_char) : Lexer :=
  mkLexer (buf_tok base) (buf_state base) p cb (la_buf base) (state base) None.

(** The characters still to come, for a cursor that has read at most one
    character ahead. *)
Inductive upcoming (text : list char)
    : nat -> list cursor_char -> list char -> Prop :=
  | up_direct (p : nat) : upcoming text p [] (skipn p text)
  | up_buffered (p : nat) (c : char) :
      upcoming text p [Some c] (c :: skipn p text)
  | up_end (p : nat) : skipn p text = [] -> upcoming text p [None] [].

(** ** Definitions for the properties of the cursor, lexer and parser *)

(** What a call leaves alone when it only moves the cursor and the token
    text: the lookahead buffer, the state and the deferred token. *)
Definition frame (lx lx' : Lexer) : Prop :=
  la_buf lx' = la_buf lx /\ state lx' = state lx
  /\ buf_tok lx' = buf_tok lx /\ buf_state lx' = buf_state lx.

(** The characters the cursor of [lx] will deliver, in order, when it has
    read at most one character ahead. *)
Definition ahead (cfg : LexerConfig) (lx : Lexer) (s : list char) : Prop :=
  upcoming (template_text cfg) (template_pos lx) (ch_buf lx) s.

(** The lexer stands at the end of the text inside a statement or an inline
    expression, with nothing read ahead. *)
Definition at_end (cfg : LexerConfig) (lx : Lexer) : Prop :=
  ch_buf lx = [] /\ la_buf lx = []
  /\ length (template_text cfg) <= template_pos lx
  /\ (state lx = 1 \/ state lx = 3 \/ state lx = 5).





(** [buf] after [_next] has delivered the character [c]: the character
    is added when a token text is being collected. *)
Definition collect (b : option (list char)) (c : char) : option (list char) :=
  match b with
  | Some (x :: r) => Some ((x :: r) ++ [c])
  | _ => b
  end.

(** The attributes, other than the lookahead buffer, that only
    [_next_token] itself writes. *)
Definition rest_of (lx : Lexer) : nat * option Token * option nat :=
  (state lx, buf_tok lx, buf_state lx).

(** The token kind and the lexer state that the second character of a
    start delimiter of [statement_parse] selects: [{%], [{{], [{#]. *)
Definition directive_start (d1 : char) : option (TokenType * nat) :=
  if eqc d1 "%" then Some (STATEMENT_START, 1)
  else if eqc d1 "{" then Some (INLINE_START, 5)
  else if eqc d1 "#" then Some (COMMENT_START, 2)
  else None.

(** The number a digit stands for, and the number a string of digits
    denotes in a radix: what a reader of the literal expects, written
    without reference to [int()]. *)
Definition digit_of (c : char) : Z :=
  if N.leb c (ord "9") then Z.of_N c - 48
  else if N.leb c (ord "F") then Z.of_N c - 55
  else Z.of_N c - 87.

Definition numeral (radix : Z) (s : list char) : Z :=
  fold_left (fun acc c => (acc * radix + digit_of c)%Z) s 0%Z.

(** The radix that the letter after a leading [0] selects, for the radices
    [is_digit] knows. *)
Definition radix_of_prefix (p : char) : option Z :=
  if eqc p "x" || eqc p "X" then Some 16%Z
  else if eqc p "o" || eqc p "O" then Some 8%Z
  else None.

(** The whitespace-control markers of a block statement, read off the
    tokens between its delimiters: [lm] is what stands between the start
    delimiter and the command, [mid] what stands between the command and the
    end delimiter.  A marker at the end of [mid] is taken out of the
    argument tokens. *)
Definition leading_marker (lm : list Token) : option value :=
  match lm with
  | [m] => Some (tok_value m)
  | _ => None
  end.

Fixpoint trailing_marker (mid : list Token) : list Token * option value :=
  match mid with
  | [] => ([], None)
  | b :: rest =>
      match rest with
      | [] => if is_ws_control (tok_value b) then ([], Some (tok_value b))
              else ([b], None)
      | _ :: _ => let (ts, r) := trailing_marker rest in (b :: ts, r)
      end
  end.

(** * Properties *)

(** ** Character classes *)

(** C4, as stated, fails: code point 133 (NEL) is whitespace for [is_ws]
    and is not in the set the specification lists. *)
Lemma is_ws_133_not_in_spec_set :
  is_ws (Some 133%N) = true /\ ~ spec_whitespace 133.
Proof.
  split; [reflexivity|].
  unfold spec_whitespace. lia.
Qed.

(** C4, amended: away from the two code points 5670 and 5760, a character
    is whitespace for [is_ws] exactly when its code point is 32, in 9..13,
    133, 160, in 8192..8202, or one of 8232, 8233, 8239, 8287, 12288. *)
Theorem is_ws_code_points (cp : N) :
  cp <> 5670%N -> cp <> 5760%N ->
  (is_ws (Some cp) = true <-> code_whitespace cp).
Proof.
  intros H1 H2. unfold is_ws, code_whitespace. cbn [existsb].
  repeat rewrite ?orb_true_iff, ?andb_true_iff, ?N.eqb_eq, ?N.leb_le.
  destruct (_ || _ || _) eqn:E.
  - repeat rewrite ?orb_true_iff, ?andb_true_iff, ?N.eqb_eq, ?N.leb_le in E.
    split; [intros _|reflexivity]. lia.
  - repeat rewrite ?orb_false_iff, ?andb_false_iff, ?N.eqb_neq, ?N.leb_gt in E.
    repeat rewrite ?orb_true_iff, ?N.eqb_eq.
    split; intros H; [|lia].
    intuition (try discriminate; try lia).
Qed.

Lemma is_ws_code_points_witness :
  is_ws (Some 160%N) = true <-> code_whitespace 160.
Proof.
  apply (is_ws_code_points 160); discriminate.
Defined.

(** ** Parsing concrete sources *)

(** C7: [{%- set y = 1 -%}] parses to a document with the single statement
    whose left and right whitespace-control markers are [-], whose command
    is [set] and whose argument tokens are exactly [y], [=], [1] in that
    order: no whitespace token and neither marker among them. *)
Theorem whitespace_control_extraction :
  statement_parse 50 (str "{%- set y = 1 -%}")
  = Ok (mkDocument
          [TemplateStatement (Some (VStr (str "-"))) (VStr (str "set"))
             [ tok NAME_OR_KEYWORD "y" 9;
               tok EQ "=" 11;
               new_Token NUM_LIT (str "1") 13 (Some (VInt 1)) ]
             (Some (VStr (str "-")))]).
Proof. vm_compute. reflexivity. Qed.

(** A hexadecimal and an octal literal decode to the integer their digits
    denote. *)
Example hex_and_octal_literals :
  statement_parse 50 (str "{{ 0x1F 0o17 }}")
  = Ok (mkDocument
          [TemplateInline
             [ new_Token NUM_LIT (str "0x1F") 4 (Some (VInt 31));
               new_Token NUM_LIT (str "0o17") 9 (Some (VInt 15)) ]]).
Proof. vm_compute. reflexivity. Qed.

(** C5 fails on the code: a binary literal selects radix 2, and the digit
    loop then calls [is_digit(la, 2)], which knows the radices 10, 16 and 8
    only and raises [ValueError]; no token is produced for [0b1]. *)
Theorem binary_literal_raises :
  statement_parse 50 (str "{{ 0b1 }}") = Raise (ValueError "Bad radix:").
Proof. vm_compute. reflexivity. Qed.

(** C6 fails on the code: after a sign followed by a digit the lexer calls
    the bare name [_do_num], which is not defined ([self._do_num] is), and
    the parse of [{{ -1 }}] ends in [NameError]; a sign not followed by a
    digit does yield an operator token. *)
Theorem signed_literal_raises :
  statement_parse 50 (str "{{ -1 }}") = Raise (NameError "_do_num")
  /\ statement_parse 50 (str "{{ - x }}")
     = Ok (mkDocument
             [TemplateInline
                [ tok MATH_OP_OR_STAR_ARGS "-" 4;
                  tok NAME_OR_KEYWORD "x" 6 ]]).
Proof. split; vm_compute; reflexivity. Qed.

(** C2 fails on the code: lexing the literal ["a\tb\x41"] raises
    [TypeError] at the escape [\t], where the test [ch == '\n' | '\r']
    evaluates ['\n' | '\r']; only the escapes [\n] and [\r], tested before
    it, decode. *)
Theorem string_escape_raises :
  statement_parse 50 escaped_literal_source
  = Raise (TypeError "unsupported operand type(s) for |: 'str' and 'str'")
  /\ statement_parse 50
       (str "{{ " ++ [DQUOTE] ++ str "a\nb\r" ++ [DQUOTE] ++ str " }}")
     = Ok (mkDocument
             [TemplateInline
                [ new_Token STR_LIT ([DQUOTE] ++ str "a\nb\r" ++ [DQUOTE]) 4
                    (Some (VStr (str "a" ++ [LF] ++ str "b" ++ [CR]))) ]]).
Proof. split; vm_compute; reflexivity. Qed.

(** C3 fails on the code.  In [{% if x %}] the statement-start token has
    the text [{%] and the offset 1, where the source reads [% ]; the name
    [x], which stands at position 6, gets the offset 7 ([start_pos] is read
    from [template_pos] while a character read ahead is still buffered);
    and the statement-end token, lexed from [%}], has the empty text. *)
Theorem token_offsets_off_source :
  let src := str "{% if x %}" in
  raw_tokens (default_config src) 50 new_lexer
  = Ok [ tok STATEMENT_START "{%" 1; tok WS "" 2;
         tok NAME_OR_KEYWORD "if" 4; tok WS "" 6;
         tok NAME_OR_KEYWORD "x" 7; tok WS "" 8;
         tok STATEMENT_END "" 9; tok EOF "" 10 ]
  /\ source_slice src 1 2 = str "% "
  /\ source_slice src 7 1 = str " "
  /\ source_slice src 6 1 = str "x"
  /\ source_slice src 8 2 = str "%}"
  /\ statement_parse 50 src
     = Ok (mkDocument
             [TemplateStatement None (VStr (str "if"))
                [tok NAME_OR_KEYWORD "x" 7] None]).
Proof. repeat split; vm_compute; reflexivity. Qed.

(** ** Fuel

    A call that has an outcome with some fuel has the same outcome with
    more. *)

Section FuelFacts.

Variable cfg : LexerConfig.

Lemma next_token_mono (f : nat) :
  forall lx f', next_token cfg f lx <> OutOfFuel -> f <= f' ->
  next_token cfg f' lx = next_token cfg f lx.
Proof.
  induction f as [|f IH]; intros lx f' Hd Hle.
  - exfalso. apply Hd. reflexivity.
  - destruct f' as [|f']; [lia|].
    cbn [next_token] in *.
    destruct (la_buf lx); [|reflexivity].
    destruct (_next_token cfg lx) as [[t lx1]| |]; cbn [bind] in *;
      try reflexivity.
    destruct (ignored cfg (tok_type t)); [|reflexivity].
    apply IH; [assumption|lia].
Qed.

Lemma la_fill_mono (f : nat) :
  forall n lx f', la_fill cfg f n lx <> OutOfFuel -> f <= f' ->
  la_fill cfg f' n lx = la_fill cfg f n lx.
Proof.
  induction f as [|f IH]; intros n lx f' Hd Hle.
  - exfalso. apply Hd. reflexivity.
  - destruct f' as [|f']; [lia|].
    cbn [la_fill] in *.
    destruct (_next_token cfg lx) as [[t lx1]| |]; cbn [bind] in *;
      try reflexivity.
    destruct (ignored cfg (tok_type t)).
    + apply IH; [assumption|lia].
    + destruct (Nat.leb n 1); [reflexivity|].
      apply IH; [assumption|lia].
Qed.

Lemma la_mono (f f' k : nat) (lx : Lexer) :
  la cfg f k lx <> OutOfFuel -> f <= f' -> la cfg f' k lx = la cfg f k lx.
Proof.
  unfold la. destruct k as [|k]; [reflexivity|].
  destruct (nth_error (la_buf lx) k); [reflexivity|].
  apply la_fill_mono.
Qed.

(** With any fuel a call either runs out or agrees with a run that had
    enough. *)
Lemma next_token_at (f n : nat) (lx : Lexer) :
  next_token cfg n lx <> OutOfFuel ->
  next_token cfg f lx = OutOfFuel
  \/ next_token cfg f lx = next_token cfg n lx.
Proof.
  intros Hn. destruct (Nat.le_ge_cases f n) as [H|H].
  - destruct (next_token cfg f lx) eqn:E; [right|right|left; reflexivity];
      rewrite <- E; symmetry; apply next_token_mono; try assumption;
      rewrite E; discriminate.
  - right. apply next_token_mono; assumption.
Qed.

Lemma la_at (f n k : nat) (lx : Lexer) :
  la cfg n k lx <> OutOfFuel ->
  la cfg f k lx = OutOfFuel \/ la cfg f k lx = la cfg n k lx.
Proof.
  intros Hn. destruct (Nat.le_ge_cases f n) as [H|H].
  - destruct (la cfg f k lx) eqn:E; [right|right|left; reflexivity];
      rewrite <- E; symmetry; apply la_mono; try assumption;
      rewrite E; discriminate.
  - right. apply la_mono; assumption.
Qed.

End FuelFacts.

(** ** An unterminated statement *)

Lemma exhausted_next_token (f : nat) :
  let cfg := default_config (str "{% if x") in
  next_token cfg f exhausted_lexer = OutOfFuel
  \/ next_token cfg f exhausted_lexer = Ok (tok EOF "" 7, exhausted_lexer).
Proof.
  destruct f as [|f]; [left; reflexivity|right; reflexivity].
Qed.

(** Once the text is used up the loop of [statement] receives the
    end-of-input token at every iteration, appends it to the argument
    tokens and goes round again. *)
Lemma statement_loop_exhausted (f : nat) :
  forall tokens r_ws_control,
  statement_loop (default_config (str "{% if x")) f true tokens r_ws_control
    exhausted_lexer = OutOfFuel.
Proof.
  induction f as [|f IH]; intros tokens r_ws_control; [reflexivity|].
  cbn [statement_loop].
  destruct (exhausted_next_token f) as [E|E]; rewrite E; [reflexivity|].
  cbn [bind]. apply IH.
Qed.

Local Arguments la : simpl never.

(** One call of the client interface on a known lexer, with any fuel: the
    call runs out, which ends the goal, or it has the outcome computed with
    fuel 50. *)
Ltac step_next_token :=
  match goal with
  | |- context [next_token ?cfg ?f ?lx] =>
      let E := fresh "E" in
      destruct (next_token_at cfg f 50 lx ltac:(vm_compute; discriminate))
        as [E|E];
      rewrite E; [reflexivity|]; clear E;
      let v := eval vm_compute in (next_token cfg 50 lx) in
      change (next_token cfg 50 lx) with v; simpl
  end.

Ltac step_la :=
  match goal with
  | |- context [la ?cfg ?f ?k ?lx] =>
      let E := fresh "E" in
      destruct (la_at cfg f 50 k lx ltac:(vm_compute; discriminate))
        as [E|E];
      rewrite E; [reflexivity|]; clear E;
      let v := eval vm_compute in (la cfg 50 k lx) in
      change (la cfg 50 k lx) with v; simpl
  end.

Lemma statement_unterminated (f : nat) :
  statement (default_config (str "{% if x")) f opened_lexer = OutOfFuel.
Proof.
  set (cfg := default_config (str "{% if x")).
  unfold statement, opened_lexer.
  step_next_token.
  step_la.
  step_next_token.
  destruct f as [|f]; [reflexivity|]. cbn [statement_loop].
  step_next_token.
  destruct f as [|f]; [reflexivity|]. cbn [statement_loop].
  step_next_token.
  rewrite (statement_loop_exhausted f). reflexivity.
Qed.

(** C1 fails on the code: on [{% if x] the parse neither raises nor
    returns.  [statement] leaves its loop at a statement-end token only; at
    the end of the text the lexer hands it the end-of-input token, which is
    appended to the argument tokens, again and again.  Whatever the number
    of iterations allowed, the parse has no outcome. *)
Theorem unterminated_statement_never_returns :
  forall fuel, statement_parse fuel (str "{% if x") = OutOfFuel.
Proof.
  intros fuel. unfold statement_parse, document.
  set (cfg := default_config (str "{% if x")).
  destruct fuel as [|f]; [reflexivity|].
  cbn [document_loop].
  step_la.
  match goal with
  | |- context [statement ?c f ?lx] =>
      change (statement c f lx)
        with (statement (default_config (str "{% if x")) f opened_lexer)
  end.
  rewrite (statement_unterminated f). reflexivity.
Qed.

(** ** Operator tokens in a statement or inline expression *)

Ltac break_match_hyp H :=
  match type of H with
  | context [match ?x with _ => _ end] => destruct x eqn:?
  end.

Ltac invert_ok H :=
  repeat (break_match_hyp H; try discriminate H);
  try (injection H as <- <-); cbn [tok_type new_Token].

(** Case analysis on a call assumed to return. *)
Ltac crunch :=
  repeat match goal with
    | E : Ok _ = Ok _ |- _ => injection E as E; try subst
    | E : (_, _) = (_, _) |- _ => injection E as ? ?; subst
    | E : Raise _ = Ok _ |- _ => discriminate E
    | E : OutOfFuel = Ok _ |- _ => discriminate E
    | E : context [match ?x with _ => _ end] |- _ => destruct x eqn:?
    end.

Section TokenKinds.

Variable cfg : LexerConfig.

(** What [_next] returns right after [_la()] is the character [_la]
    reported. *)
Lemma next_after_la (lx lx1 : Lexer) (la : cursor_char) :
  _la cfg 1 lx = (la, lx1) -> fst (_next cfg lx1) = la.
Proof.
  destruct lx as [bt bs pos cb lab st b].
  unfold _la, _next, _do_next. cbn.
  destruct cb as [|x r]; cbn.
  - destruct (nth_error (template_text cfg) pos); cbn; intros [= <- <-]; cbn;
      [destruct b as [[|? ?]|]|]; reflexivity.
  - intros [= <- <-]. cbn.
    destruct x; [destruct b as [[|? ?]|]|]; reflexivity.
Qed.

Lemma _do_num_body_kind (start_pos : nat) (ch : char) (lx lx' : Lexer)
    (t : Token) :
  _do_num_body cfg start_pos ch lx = Ok (t, lx') -> tok_type t = NUM_LIT.
Proof.
  unfold _do_num_body, bind. intros H.
  invert_ok H; reflexivity.
Qed.

Lemma _do_num_kind (start_pos : nat) (ch : char) (lx lx' : Lexer) (t : Token) :
  _do_num cfg start_pos ch lx = Ok (t, lx') ->
  tok_type t = NUM_LIT \/ tok_type t = EOF.
Proof.
  unfold _do_num. intros H.
  destruct (eqc ch "-" || eqc ch "+").
  - destruct (_next cfg _) as [[c|] lx1].
    + left. eapply _do_num_body_kind; eassumption.
    + injection H as <- <-. right. reflexivity.
  - left. eapply _do_num_body_kind; eassumption.
Qed.

Lemma _do_str_loop_kind (fuel : nat) :
  forall start_pos q value_buf lx lx' t,
  _do_str_loop cfg fuel start_pos q value_buf lx = Ok (t, lx') ->
  tok_type t = STR_LIT \/ tok_type t = EOF.
Proof.
  induction fuel as [|f IH]; intros start_pos q value_buf lx lx' t H;
    [discriminate|].
  cbn [_do_str_loop] in H.
  repeat (break_match_hyp H; try discriminate H);
    try (injection H as <- <-; cbn; auto; fail);
    eapply IH; eassumption.
Qed.

Lemma ws_loop_kind (fuel : nat) :
  forall end_tok_type single_line start_pos lx lx' t,
  ws_loop cfg fuel end_tok_type single_line start_pos lx = Ok (t, lx') ->
  tok_type t = WS \/ tok_type t = end_tok_type.
Proof.
  induction fuel as [|f IH]; intros e sl start_pos lx lx' t H; [discriminate|].
  cbn [ws_loop] in H.
  repeat (break_match_hyp H; try discriminate H);
    try (injection H as <- <-; cbn; auto; fail);
    eapply IH; eassumption.
Qed.

Lemma name_loop_kind (fuel : nat) :
  forall start_pos lx lx' t,
  name_loop cfg fuel start_pos lx = Ok (t, lx') ->
  tok_type t = NAME_OR_KEYWORD.
Proof.
  induction fuel as [|f IH]; intros start_pos lx lx' t H; [discriminate|].
  cbn [name_loop] in H.
  repeat (break_match_hyp H; try discriminate H);
    try (injection H as <- <-; cbn; auto; fail);
    eapply IH; eassumption.
Qed.

End TokenKinds.

Local Arguments _la : simpl never.
Local Arguments _next : simpl never.

Section Operators.

Variable cfg : LexerConfig.

Lemma eqc_true (c : char) (a : ascii) : eqc c a = true -> c = ord a.
Proof. apply N.eqb_eq. Qed.

Lemma is_ch_true (ch : cursor_char) (a : ascii) :
  is_ch ch a = true <-> ch = Some (ord a).
Proof.
  destruct ch as [c|]; cbn.
  - unfold eqc. rewrite N.eqb_eq. split; congruence.
  - split; discriminate.
Qed.

Lemma is_ch_false (ch : cursor_char) (a : ascii) :
  ch <> Some (ord a) -> is_ch ch a = false.
Proof.
  intros H. destruct (is_ch ch a) eqn:E; [|reflexivity].
  apply is_ch_true in E. contradiction.
Qed.

Lemma _do_statement_lexicon (terminator : option (list char))
    (end_tok_type : TokenType) (single_line : bool) (lx lx1 : Lexer)
    (c : char) :
  _next cfg lx = (Some c, lx1) ->
  begins_with terminator c = false ->
  _do_statement cfg terminator end_tok_type single_line lx
  = regular_lexicon cfg end_tok_type single_line (template_pos lx) c lx1.
Proof.
  intros Hn Hb. unfold _do_statement. rewrite Hn.
  unfold terminator_check.
  destruct terminator as [[|t0 rest]|]; try reflexivity.
  cbn in Hb. rewrite Hb. reflexivity.
Qed.

(** A compare-operator token comes from [>], [<] or [=] followed by [=]
    only. *)
Lemma regular_lexicon_compare (end_tok_type : TokenType) (single_line : bool)
    (start_pos : nat) (c : char) (lx lx' : Lexer) (t : Token) :
  end_tok_type <> COMPARE_OP ->
  regular_lexicon cfg end_tok_type single_line start_pos c lx = Ok (t, lx') ->
  tok_type t = COMPARE_OP ->
  (c = ord ">" \/ c = ord "<" \/ c = ord "=")
  /\ fst (_la cfg 1 lx) = Some (ord "=")
  /\ text t = [c; ord "="].
Proof.
  intros He H Hk. unfold regular_lexicon in H.
  repeat (break_match_hyp H; try discriminate H);
    try (injection H as <- <-; discriminate Hk);
    try (apply _do_num_kind in H; destruct H; congruence);
    try (apply _do_str_loop_kind in H; destruct H; congruence);
    try (apply ws_loop_kind in H; destruct H; congruence);
    try (apply name_loop_kind in H; congruence).
  all: repeat match goal with
       | E : is_ch _ _ = true |- _ => apply is_ch_true in E
       | E : eqc _ _ = true |- _ => apply eqc_true in E
       | E : _ || _ = true |- _ => apply orb_true_iff in E
       | E : _la cfg 1 _ = _, E' : _next cfg _ = _ |- _ =>
           apply next_after_la in E; rewrite E' in E; cbn in E
       end.
  - subst. injection H as <- <-.
    match goal with E : Some _ = Some _ |- _ => injection E as -> end.
    match goal with
    | E : _ \/ _ |- _ => destruct E as [E|E]; apply eqc_true in E
    end; auto.
  - subst. discriminate.
  - subst. injection H as <- <-. cbn. auto.
Qed.

(** C10: in a statement or inline expression, at a character [c] that does
    not start the terminator of the state, [>] or [<] not followed by [=]
    gives a math-operator token, [>=], [<=] and [==] give a compare-operator
    token, a lone [=] gives an equals token, and a compare-operator token
    has no other origin: its text is [c] followed by [=] with [c] one of
    [>], [<], [=]. *)
Theorem compare_operator_tokens (terminator : option (list char))
    (end_tok_type : TokenType) (single_line : bool) (lx lx1 : Lexer)
    (c : char) :
  _next cfg lx = (Some c, lx1) ->
  begins_with terminator c = false ->
  end_tok_type <> COMPARE_OP ->
  let la := fst (_la cfg 1 lx1) in
  let lx2 := snd (_la cfg 1 lx1) in
  let start_pos := template_pos lx in
  let run := _do_statement cfg terminator end_tok_type single_line lx in
  (c = ord ">" \/ c = ord "<" -> la <> Some (ord "=") ->
   run = Ok (new_Token MATH_OP_OR_STAR_ARGS [c] start_pos None, lx2))
  /\ (c = ord ">" \/ c = ord "<" -> la = Some (ord "=") ->
      run = Ok (new_Token COMPARE_OP [c; ord "="] start_pos None,
                snd (_next cfg lx2)))
  /\ (c = ord "=" -> la <> Some (ord "=") ->
      run = Ok (new_Token EQ (str "=") start_pos None, lx2))
  /\ (c = ord "=" -> la = Some (ord "=") ->
      run = Ok (new_Token COMPARE_OP (str "==") start_pos None,
                snd (_next cfg lx2)))
  /\ (forall t lx', run = Ok (t, lx') -> tok_type t = COMPARE_OP ->
      (c = ord ">" \/ c = ord "<" \/ c = ord "=")
      /\ la = Some (ord "=") /\ text t = [c; ord "="]).
Proof.
  intros Hn Hb He la lx2 start_pos run.
  assert (Hrun : run = regular_lexicon cfg end_tok_type single_line
                         start_pos c lx1)
    by (apply _do_statement_lexicon; assumption).
  assert (Hnext : fst (_next cfg lx2) = la)
    by (apply (next_after_la cfg lx1); subst la lx2;
        destruct (_la cfg 1 lx1); reflexivity).
  rewrite Hrun. clear Hrun run Hn Hb.
  repeat split.
  - intros Hc Hla. apply is_ch_false in Hla.
    unfold regular_lexicon. fold la lx2.
    destruct Hc as [-> | ->]; cbn; destruct (_la cfg 1 lx1) as [a l];
      cbn in *; subst la lx2; rewrite Hla; reflexivity.
  - intros Hc Hla. pose proof Hla as Hla'. apply is_ch_true in Hla'.
    unfold regular_lexicon.
    destruct Hc as [-> | ->]; cbn; destruct (_la cfg 1 lx1) as [a l];
      cbn in *; subst la lx2; rewrite Hla';
      destruct (_next cfg l) as [n l']; cbn in *; subst n a; reflexivity.
  - intros -> Hla. apply is_ch_false in Hla.
    unfold regular_lexicon. cbn. destruct (_la cfg 1 lx1) as [a l];
      cbn in *; subst la lx2; rewrite Hla; reflexivity.
  - intros -> Hla. apply is_ch_true in Hla.
    unfold regular_lexicon. cbn. destruct (_la cfg 1 lx1) as [a l];
      cbn in *; subst la lx2; rewrite Hla; reflexivity.
  - eapply regular_lexicon_compare; eassumption.
  - eapply regular_lexicon_compare; eassumption.
  - eapply regular_lexicon_compare; eassumption.
Qed.

End Operators.

Lemma compare_operator_tokens_witness :
  let cfg := default_config (str ">= b") in
  _do_statement cfg (Some (str "}}")) INLINE_END false new_lexer
  = Ok (new_Token COMPARE_OP (str ">=") 0 None,
        mkLexer None None 2 [] [] 0 None).
Proof.
  intros cfg.
  destruct (compare_operator_tokens cfg (Some (str "}}")) INLINE_END false
              new_lexer (mkLexer None None 1 [] [] 0 None) (ord ">"))
    as (_ & H & _).
  - reflexivity.
  - reflexivity.
  - discriminate.
  - apply H; [left|]; reflexivity.
Defined.

(** ** The lookahead buffer

    No method below [_next_token] touches [la_buf]: the one place that
    appends to it, in [_do_comment], is guarded by [self.buf] right after
    [_clear_buf] has set it to [None]. *)

Section LookaheadFrame.

Variable cfg : LexerConfig.

Lemma la_buf_do_next (lx : Lexer) : la_buf (snd (_do_next cfg lx)) = la_buf lx.
Proof.
  unfold _do_next. destruct (ch_buf lx); [|reflexivity].
  destruct (nth_error _ _); reflexivity.
Qed.

Lemma la_buf_next (lx : Lexer) : la_buf (snd (_next cfg lx)) = la_buf lx.
Proof.
  unfold _next. pose proof (la_buf_do_next lx) as H.
  destruct (_do_next cfg lx) as [[c|] lx1]; cbn in *; [|assumption].
  destruct (buf_truthy lx1); assumption.
Qed.

Lemma la_buf_la_read (n : nat) :
  forall la lx, la_buf (snd (_la_read cfg n la lx)) = la_buf lx.
Proof.
  induction n as [|n IH]; intros la lx; [reflexivity|].
  cbn [_la_read]. pose proof (la_buf_do_next lx) as H.
  destruct (_do_next cfg lx) as [c lx1]. rewrite IH. exact H.
Qed.

Lemma la_buf_la (k : nat) (lx : Lexer) :
  la_buf (snd (_la cfg k lx)) = la_buf lx.
Proof.
  unfold _la. destruct k; [reflexivity|].
  destruct (nth_error _ _); [reflexivity|]. apply la_buf_la_read.
Qed.

Lemma la_buf_clear_la_loop (n : nat) :
  forall lx, la_buf (_clear_la_loop cfg n lx) = la_buf lx.
Proof.
  induction n as [|n IH]; intros lx; [reflexivity|].
  cbn [_clear_la_loop]. destruct (ch_buf lx); [reflexivity|].
  rewrite IH. apply la_buf_next.
Qed.

Lemma la_buf_clear_la (lx : Lexer) : la_buf (_clear_la cfg lx) = la_buf lx.
Proof. apply la_buf_clear_la_loop. Qed.

Lemma la_buf_match_rest (rest : list char) :
  forall i lx, la_buf (snd (match_rest cfg rest i lx)) = la_buf lx.
Proof.
  induction rest as [|c rest IH]; intros i lx; [reflexivity|].
  cbn [match_rest]. pose proof (la_buf_la i lx) as H.
  destruct (_la cfg i lx) as [la lx1].
  destruct (cursor_eqb la (Some c)); [rewrite IH|]; exact H.
Qed.

Lemma la_buf_start_buf (t : TokenType) (ch : option char) (lx : Lexer) :
  la_buf (_start_buf cfg t ch lx) = la_buf lx.
Proof. unfold _start_buf. destruct (negb _); reflexivity. Qed.

Lemma la_buf_clear_buf (lx : Lexer) : la_buf (snd (_clear_buf lx)) = la_buf lx.
Proof. reflexivity. Qed.

Lemma la_buf_terminator_check (terminator : option (list char)) (c : char)
    (lx : Lexer) :
  la_buf (snd (terminator_check cfg terminator c lx)) = la_buf lx.
Proof.
  unfold terminator_check. destruct terminator as [[|t0 rest]|]; try reflexivity.
  destruct (N.eqb c t0); [apply la_buf_match_rest|reflexivity].
Qed.

(** Turns the equations left by case analysis on a call into equations
    between lookahead buffers. *)
Ltac frame_eqs :=
  repeat match goal with
    | E : _next cfg ?lx = (_, ?lx') |- _ =>
        apply (f_equal snd) in E; apply (f_equal la_buf) in E;
        rewrite la_buf_next in E; cbn [snd] in E
    | E : _la cfg ?k ?lx = (_, ?lx') |- _ =>
        apply (f_equal snd) in E; apply (f_equal la_buf) in E;
        rewrite la_buf_la in E; cbn [snd] in E
    | E : match_rest cfg ?r ?i ?lx = (_, ?lx') |- _ =>
        apply (f_equal snd) in E; apply (f_equal la_buf) in E;
        rewrite la_buf_match_rest in E; cbn [snd] in E
    | E : terminator_check cfg ?t ?c ?lx = (_, ?lx') |- _ =>
        apply (f_equal snd) in E; apply (f_equal la_buf) in E;
        rewrite la_buf_terminator_check in E; cbn [snd] in E
    | E : _clear_buf ?lx = (_, ?lx') |- _ =>
        apply (f_equal snd) in E; apply (f_equal la_buf) in E;
        rewrite la_buf_clear_buf in E; cbn [snd] in E
    end;
  repeat match goal with
    | |- context [if ?b then _ else _] => destruct b
    end;
  repeat first
    [ rewrite la_buf_next in * | rewrite la_buf_la in *
    | rewrite la_buf_clear_la in * | rewrite la_buf_start_buf in *
    | rewrite la_buf_match_rest in * ].

Lemma la_buf_num_digits (fuel : nat) :
  forall radix lx lx',
  num_digits cfg fuel radix lx = Ok lx' -> la_buf lx' = la_buf lx.
Proof.
  induction fuel as [|f IH]; intros radix lx lx' H; [discriminate|].
  cbn [num_digits] in H. unfold bind in H.
  repeat (break_match_hyp H; try discriminate H).
  - apply IH in H. frame_eqs. congruence.
  - injection H as <-. frame_eqs. congruence.
Qed.

Lemma la_buf_do_num_body (start_pos : nat) (ch : char) (lx lx' : Lexer)
    (t : Token) :
  _do_num_body cfg start_pos ch lx = Ok (t, lx') -> la_buf lx' = la_buf lx.
Proof.
  unfold _do_num_body, bind. intros H. crunch;
    repeat match goal with
      | E : num_digits cfg _ _ _ = Ok _ |- _ => apply la_buf_num_digits in E
      end;
    frame_eqs; cbn in *; congruence.
Qed.

Lemma la_buf_do_num (start_pos : nat) (ch : char) (lx lx' : Lexer) (t : Token) :
  _do_num cfg start_pos ch lx = Ok (t, lx') -> la_buf lx' = la_buf lx.
Proof.
  unfold _do_num. intros H. crunch;
    repeat match goal with
      | E : _do_num_body cfg _ _ _ = Ok _ |- _ => apply la_buf_do_num_body in E
      end;
    frame_eqs; cbn in *; congruence.
Qed.

Lemma la_buf_do_str_loop (fuel : nat) :
  forall start_pos q value_buf lx lx' t,
  _do_str_loop cfg fuel start_pos q value_buf lx = Ok (t, lx') ->
  la_buf lx' = la_buf lx.
Proof.
  induction fuel as [|f IH]; intros start_pos q value_buf lx lx' t H;
    [discriminate|].
  cbn [_do_str_loop] in H. crunch;
    repeat match goal with
      | E : _do_str_loop cfg f _ _ _ _ = Ok _ |- _ => apply IH in E
      end;
    frame_eqs; cbn in *; congruence.
Qed.

Lemma la_buf_ws_loop (fuel : nat) :
  forall e sl start_pos lx lx' t,
  ws_loop cfg fuel e sl start_pos lx = Ok (t, lx') -> la_buf lx' = la_buf lx.
Proof.
  induction fuel as [|f IH]; intros e sl start_pos lx lx' t H; [discriminate|].
  cbn [ws_loop] in H. crunch;
    repeat match goal with
      | E : ws_loop cfg f _ _ _ _ = Ok _ |- _ => apply IH in E
      end;
    frame_eqs; cbn in *; congruence.
Qed.

Lemma la_buf_name_loop (fuel : nat) :
  forall start_pos lx lx' t,
  name_loop cfg fuel start_pos lx = Ok (t, lx') -> la_buf lx' = la_buf lx.
Proof.
  induction fuel as [|f IH]; intros start_pos lx lx' t H; [discriminate|].
  cbn [name_loop] in H. crunch;
    repeat match goal with
      | E : name_loop cfg f _ _ = Ok _ |- _ => apply IH in E
      end;
    frame_eqs; cbn in *; congruence.
Qed.

Lemma la_buf_regular_lexicon (e : TokenType) (sl : bool) (start_pos : nat)
    (c : char) (lx lx' : Lexer) (t : Token) :
  regular_lexicon cfg e sl start_pos c lx = Ok (t, lx') ->
  la_buf lx' = la_buf lx.
Proof.
  unfold regular_lexicon, _do_str. intros H. crunch;
    repeat match goal with
      | E : _do_num cfg _ _ _ = Ok _ |- _ => apply la_buf_do_num in E
      | E : _do_str_loop cfg _ _ _ _ _ = Ok _ |- _ =>
          apply la_buf_do_str_loop in E
      | E : ws_loop cfg _ _ _ _ _ = Ok _ |- _ => apply la_buf_ws_loop in E
      | E : name_loop cfg _ _ _ = Ok _ |- _ => apply la_buf_name_loop in E
      end;
    frame_eqs; cbn in *; congruence.
Qed.

Lemma la_buf_do_statement (terminator : option (list char)) (e : TokenType)
    (sl : bool) (lx lx' : Lexer) (t : Token) :
  _do_statement cfg terminator e sl lx = Ok (t, lx') -> la_buf lx' = la_buf lx.
Proof.
  unfold _do_statement. intros H. crunch;
    repeat match goal with
      | E : regular_lexicon cfg _ _ _ _ _ = Ok _ |- _ =>
          apply la_buf_regular_lexicon in E
      end;
    frame_eqs; cbn in *; congruence.
Qed.

Lemma comment_end_check_frame (sl : bool) (start_pos : nat) (c : char)
    (lx lx' : Lexer) (rv : option Token) :
  comment_end_check cfg sl start_pos c lx = Ok (rv, lx') ->
  la_buf lx' = la_buf lx /\ (rv <> None -> buf lx' = None).
Proof.
  unfold comment_end_check, _clear_buf. intros H. crunch;
    (split; [frame_eqs; cbn in *; frame_eqs; congruence
            | intros; try reflexivity; congruence]).
Qed.

Lemma la_buf_do_comment_loop (fuel : nat) :
  forall sl start_pos lx lx' t,
  _do_comment_loop cfg fuel sl start_pos lx = Ok (t, lx') ->
  la_buf lx' = la_buf lx.
Proof.
  induction fuel as [|f IH]; intros sl start_pos lx lx' t H; [discriminate|].
  cbn [_do_comment_loop] in H. unfold bind in H. crunch;
    repeat match goal with
      | E : _do_comment_loop cfg f _ _ _ = Ok _ |- _ => apply IH in E
      | E : comment_end_check cfg _ _ _ _ = Ok _ |- _ =>
          apply comment_end_check_frame in E; destruct E as [E ?]
      end;
    try match goal with
      | B : buf_truthy ?l = true, N : _ -> buf ?l = None |- _ =>
          unfold buf_truthy in B; rewrite N in B by discriminate;
          discriminate B
      end;
    frame_eqs; cbn in *; congruence.
Qed.

Lemma la_buf_do_comment (sl : bool) (lx lx' : Lexer) (t : Token) :
  _do_comment cfg sl lx = Ok (t, lx') -> la_buf lx' = la_buf lx.
Proof.
  unfold _do_comment. intros H. apply la_buf_do_comment_loop in H.
  frame_eqs. exact H.
Qed.

Lemma la_buf_state_after (t : TokenType) (lx : Lexer) :
  la_buf (state_after t lx) = la_buf lx.
Proof. destruct t; reflexivity. Qed.

Lemma la_buf_probe (delims : list (option (list char) * TokenType)) :
  forall c pending start_pos lx,
  match probe cfg delims c pending start_pos lx with
  | inl (_, lx') => la_buf lx' = la_buf lx
  | inr lx' => la_buf lx' = la_buf lx
  end.
Proof.
  induction delims as [|[m tt] delims IH]; intros c pending start_pos lx;
    [reflexivity|].
  cbn [probe]. destruct m as [[|m0 rest]|]; try apply IH.
  destruct (N.eqb c m0); [|apply IH].
  pose proof (la_buf_match_rest rest 1 lx) as Hm.
  destruct (match_rest cfg rest 1 lx) as [matched lx1]. cbn [snd] in Hm.
  destruct matched.
  - destruct (nonempty pending); cbn;
      rewrite ?la_buf_state_after, ?la_buf_clear_la; exact Hm.
  - specialize (IH c pending start_pos lx1).
    destruct (probe cfg delims c pending start_pos lx1) as [[? ?]|?];
      congruence.
Qed.

Lemma la_buf_template_loop (fuel : nat) :
  forall pending start_pos lx lx' t,
  template_loop cfg fuel pending start_pos lx = Ok (t, lx') ->
  la_buf lx' = la_buf lx.
Proof.
  induction fuel as [|f IH]; intros pending start_pos lx lx' t H;
    [discriminate|].
  cbn [template_loop] in H.
  pose proof (la_buf_next lx) as Hn.
  destruct (_next cfg lx) as [[c|] lx1]; cbn [snd] in Hn.
  - pose proof (la_buf_probe (start_delimiters cfg) c pending start_pos lx1)
      as Hp.
    destruct (probe cfg (start_delimiters cfg) c pending start_pos lx1)
      as [[t' l']|l'].
    + injection H as <- <-. congruence.
    + apply IH in H. congruence.
  - injection H as <- <-. exact Hn.
Qed.

(** [_next_token] leaves the lookahead buffer as it found it. *)
Lemma la_buf_next_token_raw (lx lx' : Lexer) (t : Token) :
  _next_token cfg lx = Ok (t, lx') -> la_buf lx' = la_buf lx.
Proof.
  unfold _next_token, bind. intros H. crunch;
    repeat match goal with
      | E : template_loop cfg _ _ _ _ = Ok _ |- _ =>
          apply la_buf_template_loop in E
      | E : _do_statement cfg _ _ _ _ = Ok _ |- _ =>
          apply la_buf_do_statement in E
      | E : _do_comment cfg _ _ = Ok _ |- _ => apply la_buf_do_comment in E
      end;
    frame_eqs; cbn in *; congruence.
Qed.

End LookaheadFrame.

(** ** The loops of the lexer terminate

    Every loop of the lexer consumes a character each time round, so the
    bound [cursor_fuel] given to it is never used up: [_next_token] has an
    outcome in each of the states 0 to 6. *)

Section LexerTermination.

Variable cfg : LexerConfig.

Lemma remaining_fuel (lx : Lexer) : remaining cfg lx + 2 <= cursor_fuel cfg lx.
Proof.
  unfold remaining, cursor_fuel, cursor_char.
  pose proof (filter_length_le is_some (ch_buf lx)). lia.
Qed.

Lemma do_next_remaining (lx : Lexer) :
  remaining cfg (snd (_do_next cfg lx)) + (if is_some (fst (_do_next cfg lx)) then 1 else 0)
  = remaining cfg lx.
Proof.
  unfold _do_next, remaining.
  destruct (ch_buf lx) as [|[c|] r] eqn:Eb; cbn; rewrite ?Eb; cbn; try lia.
  destruct (nth_error (template_text cfg) (template_pos lx)) eqn:En;
    cbn; rewrite ?Eb; cbn; [|lia].
  assert (template_pos lx < length (template_text cfg))
    by (apply nth_error_Some; congruence).
  lia.
Qed.

Lemma next_remaining (lx : Lexer) :
  remaining cfg (snd (_next cfg lx)) + (if is_some (fst (_next cfg lx)) then 1 else 0)
  = remaining cfg lx.
Proof.
  pose proof (do_next_remaining lx) as H. unfold _next.
  destruct (_do_next cfg lx) as [[c|] lx1]; cbn [fst snd] in *; [|exact H].
  destruct (buf_truthy lx1); exact H.
Qed.

Lemma next_remaining_le (lx : Lexer) :
  remaining cfg (snd (_next cfg lx)) <= remaining cfg lx.
Proof. pose proof (next_remaining lx). lia. Qed.

Lemma la_read_remaining (n : nat) :
  forall la lx, remaining cfg (snd (_la_read cfg n la lx)) = remaining cfg lx.
Proof.
  induction n as [|n IH]; intros la lx; [reflexivity|].
  cbn [_la_read]. pose proof (do_next_remaining lx) as H.
  destruct (_do_next cfg lx) as [c lx1]. cbn [fst snd] in H. rewrite IH.
  rewrite <- H. unfold remaining, cursor_char. cbn.
  rewrite filter_app, length_app. destruct c; cbn; lia.
Qed.

Lemma la_remaining (k : nat) (lx : Lexer) :
  remaining cfg (snd (_la cfg k lx)) = remaining cfg lx.
Proof.
  unfold _la. destruct k; [reflexivity|].
  destruct (nth_error _ _); [reflexivity|]. apply la_read_remaining.
Qed.

Lemma match_rest_remaining (rest : list char) :
  forall i lx, remaining cfg (snd (match_rest cfg rest i lx)) = remaining cfg lx.
Proof.
  induction rest as [|c rest IH]; intros i lx; [reflexivity|].
  cbn [match_rest]. pose proof (la_remaining i lx) as H.
  destruct (_la cfg i lx) as [la lx1]. cbn [snd] in H.
  destruct (cursor_eqb la (Some c)); [rewrite IH|]; exact H.
Qed.

Lemma start_buf_remaining (t : TokenType) (ch : option char) (lx : Lexer) :
  remaining cfg (_start_buf cfg t ch lx) = remaining cfg lx.
Proof. unfold _start_buf. destruct (negb _); reflexivity. Qed.

(** After [_la()] reported a character, [_next] delivers it and one
    character less remains. *)
Lemma next_after_la_remaining (lx lx1 : Lexer) (la : cursor_char) :
  _la cfg 1 lx = (la, lx1) -> is_some la = true ->
  S (remaining cfg (snd (_next cfg lx1))) = remaining cfg lx.
Proof.
  intros E Hs. pose proof (la_remaining 1 lx) as Hl. rewrite E in Hl.
  cbn [snd] in Hl. pose proof (next_after_la cfg lx lx1 la E) as Hn.
  pose proof (next_remaining lx1) as Hr. rewrite Hn, Hs in Hr. lia.
Qed.

Lemma clear_la_loop_remaining (n : nat) :
  forall lx, remaining cfg (_clear_la_loop cfg n lx) <= remaining cfg lx.
Proof.
  induction n as [|n IH]; intros lx; [reflexivity|].
  cbn [_clear_la_loop]. destruct (ch_buf lx); [reflexivity|].
  etransitivity; [apply IH|apply next_remaining_le].
Qed.

Lemma is_digit_returns (ch : cursor_char) (radix : Z) :
  is_digit ch radix <> OutOfFuel.
Proof.
  unfold is_digit. destruct ch; [|discriminate].
  repeat (destruct (Z.eqb _ _); [discriminate|]). discriminate.
Qed.

Lemma is_digit_char (ch : cursor_char) (radix : Z) :
  is_digit ch radix = Ok true -> is_some ch = true.
Proof. destruct ch; [reflexivity|discriminate]. Qed.

Lemma py_int_returns (v : list char) (radix : Z) : py_int v radix <> OutOfFuel.
Proof.
  unfold py_int. destruct (strip_sign v) as [sg s1].
  destruct (strip_radix_prefix radix s1); [discriminate|].
  destruct (digits_value _ _ _); discriminate.
Qed.

Lemma py_float_returns (v : list char) : py_float v <> OutOfFuel.
Proof. unfold py_float. destruct (float_literal_ok v); discriminate. Qed.

Lemma num_digits_returns (fuel : nat) :
  forall radix lx,
  remaining cfg lx < fuel -> num_digits cfg fuel radix lx <> OutOfFuel.
Proof.
  induction fuel as [|f IH]; intros radix lx Hr; [lia|].
  cbn [num_digits]. destruct (_la cfg 1 lx) as [la lx1] eqn:E.
  pose proof (is_digit_returns la radix) as Hd.
  destruct (is_digit la radix) as [[|]| |] eqn:Ed; cbn [bind];
    try discriminate; try contradiction.
  apply IH. apply is_digit_char in Ed.
  pose proof (next_after_la_remaining lx lx1 la E Ed). lia.
Qed.

Lemma is_ws_char (ch : cursor_char) : is_ws ch = true -> is_some ch = true.
Proof. destruct ch; [reflexivity|discriminate]. Qed.

Lemma is_alphanum_char (ch : cursor_char) :
  is_alphanum ch = true -> is_some ch = true.
Proof. destruct ch; [reflexivity|discriminate]. Qed.

Lemma ws_loop_returns (fuel : nat) :
  forall e sl start_pos lx,
  remaining cfg lx < fuel -> ws_loop cfg fuel e sl start_pos lx <> OutOfFuel.
Proof.
  induction fuel as [|f IH]; intros e sl start_pos lx Hr; [lia|].
  cbn [ws_loop]. destruct (_la cfg 1 lx) as [la lx1] eqn:E.
  destruct (is_ws la) eqn:Ew; cbn [negb].
  - apply IH. apply is_ws_char in Ew.
    pose proof (next_after_la_remaining lx lx1 la E Ew). lia.
  - destruct (_clear_buf lx1). destruct (_ && _); discriminate.
Qed.

Lemma name_loop_returns (fuel : nat) :
  forall start_pos lx,
  remaining cfg lx < fuel -> name_loop cfg fuel start_pos lx <> OutOfFuel.
Proof.
  induction fuel as [|f IH]; intros start_pos lx Hr; [lia|].
  cbn [name_loop]. destruct (_la cfg 1 lx) as [la lx1] eqn:E.
  destruct (is_alphanum la) eqn:Ew; cbn [negb].
  - apply IH. apply is_alphanum_char in Ew.
    pose proof (next_after_la_remaining lx lx1 la E Ew). lia.
  - destruct (_clear_buf lx1). discriminate.
Qed.

Lemma _do_str_loop_returns (fuel : nat) :
  forall start_pos q value_buf lx,
  remaining cfg lx < fuel ->
  _do_str_loop cfg fuel start_pos q value_buf lx <> OutOfFuel.
Proof.
  induction fuel as [|f IH]; intros start_pos q value_buf lx Hr; [lia|].
  cbn [_do_str_loop]. pose proof (next_remaining lx) as Hn.
  destruct (_next cfg lx) as [[c|] lx1]; cbn [fst snd is_some] in Hn;
    [|discriminate].
  destruct (N.eqb c q); [destruct (_clear_buf lx1); discriminate|].
  destruct (eqc c "\").
  - pose proof (next_remaining_le lx1) as Hn'.
    destruct (_next cfg lx1) as [[e|] lx2]; cbn [snd] in Hn'; [|discriminate].
    destruct (eqc e "n"); [apply IH; lia|].
    destruct (eqc e "r"); [apply IH; lia|discriminate].
  - apply IH. lia.
Qed.

(** Case analysis on a call assumed to run out of fuel. *)
Ltac crunch_out :=
  repeat match goal with
    | E : Ok _ = OutOfFuel |- _ => discriminate E
    | E : Raise _ = OutOfFuel |- _ => discriminate E
    | E : (_, _) = (_, _) |- _ => injection E as ? ?; subst
    | E : context [match ?x with _ => _ end] |- _ => destruct x eqn:?
    end.

Ltac fuel_enough :=
  match goal with
  | |- remaining cfg ?lx < cursor_fuel cfg ?lx =>
      pose proof (remaining_fuel lx); lia
  | |- remaining cfg (snd (_next cfg ?lx)) < cursor_fuel cfg ?lx =>
      pose proof (remaining_fuel lx); pose proof (next_remaining_le lx); lia
  end.

Ltac no_out :=
  try match goal with
    | E : num_digits cfg _ _ _ = OutOfFuel |- _ =>
        apply num_digits_returns in E; [contradiction|fuel_enough]
    | E : py_float _ = OutOfFuel |- _ => apply py_float_returns in E
    | E : py_int _ _ = OutOfFuel |- _ => apply py_int_returns in E
    | E : is_digit _ _ = OutOfFuel |- _ => apply is_digit_returns in E
    end;
  try contradiction.

Lemma _do_num_body_returns (start_pos : nat) (ch : char) (lx : Lexer) :
  _do_num_body cfg start_pos ch lx <> OutOfFuel.
Proof.
  unfold _do_num_body, bind. intros H. crunch_out; no_out.
Qed.

Lemma _do_num_returns (start_pos : nat) (ch : char) (lx : Lexer) :
  _do_num cfg start_pos ch lx <> OutOfFuel.
Proof.
  unfold _do_num. intros H. crunch_out;
    apply _do_num_body_returns in H; contradiction.
Qed.

Lemma _do_str_returns (start_pos : nat) (ch : char) (lx : Lexer) :
  _do_str cfg start_pos ch lx <> OutOfFuel.
Proof. unfold _do_str. apply _do_str_loop_returns. fuel_enough. Qed.

Lemma regular_lexicon_returns (e : TokenType) (sl : bool) (start_pos : nat)
    (c : char) (lx : Lexer) :
  regular_lexicon cfg e sl start_pos c lx <> OutOfFuel.
Proof.
  unfold regular_lexicon. intros H. crunch_out;
    try (apply _do_num_returns in H; contradiction);
    try (apply _do_str_returns in H; contradiction);
    try (apply ws_loop_returns in H; [contradiction|fuel_enough]);
    try (apply name_loop_returns in H; [contradiction|fuel_enough]).
Qed.

Lemma _do_statement_returns (terminator : option (list char)) (e : TokenType)
    (sl : bool) (lx : Lexer) :
  _do_statement cfg terminator e sl lx <> OutOfFuel.
Proof.
  unfold _do_statement. intros H. crunch_out.
  apply regular_lexicon_returns in H. contradiction.
Qed.

Lemma comment_end_check_remaining (sl : bool) (start_pos : nat) (c : char)
    (lx lx' : Lexer) (rv : option Token) :
  comment_end_check cfg sl start_pos c lx = Ok (rv, lx') ->
  remaining cfg lx' <= remaining cfg lx.
Proof.
  unfold comment_end_check, _clear_buf, _clear_la. intros H. crunch;
    repeat match goal with
      | E : _la cfg ?k ?lx = (_, ?l) |- _ =>
          apply (f_equal snd) in E; apply (f_equal (remaining cfg)) in E;
          rewrite la_remaining in E; cbn [snd] in E
      | E : match_rest cfg ?r ?i ?lx = (_, ?l) |- _ =>
          apply (f_equal snd) in E; apply (f_equal (remaining cfg)) in E;
          rewrite match_rest_remaining in E; cbn [snd] in E
      end;
    change (remaining cfg (set_buf ?l None)) with (remaining cfg l);
    repeat match goal with
      | |- context [if ?b then _ else _] => destruct b
      | |- context [_clear_la_loop cfg ?n ?l] =>
          pose proof (clear_la_loop_remaining n l);
          generalize dependent (_clear_la_loop cfg n l); intros
      | |- context [snd (_next cfg ?l)] =>
          pose proof (next_remaining_le l);
          generalize dependent (snd (_next cfg l)); intros
      end;
    unfold remaining in *; cbn in *; lia.
Qed.

Lemma comment_end_check_returns (sl : bool) (start_pos : nat) (c : char)
    (lx : Lexer) :
  comment_end_check cfg sl start_pos c lx <> OutOfFuel.
Proof. unfold comment_end_check. intros H. crunch_out. Qed.

Lemma _do_comment_loop_returns (fuel : nat) :
  forall sl start_pos lx,
  remaining cfg lx < fuel ->
  _do_comment_loop cfg fuel sl start_pos lx <> OutOfFuel.
Proof.
  induction fuel as [|f IH]; intros sl start_pos lx Hr; [lia|].
  cbn [_do_comment_loop]. pose proof (next_remaining lx) as Hn.
  destruct (_next cfg lx) as [[c|] lx1]; cbn [fst snd is_some] in Hn;
    [|discriminate].
  pose proof (comment_end_check_returns sl start_pos c lx1) as Hc.
  destruct (comment_end_check cfg sl start_pos c lx1) as [[rv lx2]| |] eqn:E;
    cbn [bind]; try discriminate; try contradiction.
  apply comment_end_check_remaining in E.
  destruct rv as [t|].
  - destruct (buf_truthy lx2); [destruct (_clear_buf _)|]; discriminate.
  - apply IH. lia.
Qed.

Lemma _do_comment_returns (sl : bool) (lx : Lexer) :
  _do_comment cfg sl lx <> OutOfFuel.
Proof.
  unfold _do_comment. apply _do_comment_loop_returns.
  pose proof (remaining_fuel (_start_buf cfg COMMENT_DATA None lx)). lia.
Qed.

Lemma probe_remaining (delims : list (option (list char) * TokenType)) :
  forall c pending start_pos lx lx',
  probe cfg delims c pending start_pos lx = inr lx' ->
  remaining cfg lx' = remaining cfg lx.
Proof.
  induction delims as [|[m tt] delims IH]; intros c pending start_pos lx lx' H.
  - injection H as <-. reflexivity.
  - cbn [probe] in H. destruct m as [[|m0 rest]|]; try (eapply IH; eassumption).
    destruct (N.eqb c m0); [|eapply IH; eassumption].
    pose proof (match_rest_remaining rest 1 lx) as Hm.
    destruct (match_rest cfg rest 1 lx) as [[|] lx1]; cbn [snd] in Hm.
    + destruct (nonempty pending); discriminate.
    + apply IH in H. congruence.
Qed.

Lemma template_loop_returns (fuel : nat) :
  forall pending start_pos lx,
  remaining cfg lx < fuel ->
  template_loop cfg fuel pending start_pos lx <> OutOfFuel.
Proof.
  induction fuel as [|f IH]; intros pending start_pos lx Hr; [lia|].
  cbn [template_loop]. pose proof (next_remaining lx) as Hn.
  destruct (_next cfg lx) as [[c|] lx1]; cbn [fst snd is_some] in Hn;
    [|discriminate].
  destruct (probe cfg (start_delimiters cfg) c pending start_pos lx1)
    as [r|lx2] eqn:Ep; [discriminate|].
  apply probe_remaining in Ep. apply IH. lia.
Qed.

(** X1: In each of its seven states [_next_token] returns a token or raises:
    the bounds given to the loops of the lexer are never reached. *)
Lemma _next_token_returns (lx : Lexer) :
  state lx <= 6 -> _next_token cfg lx <> OutOfFuel.
Proof.
  intros Hs. unfold _next_token, bind. intros H. crunch_out;
    try (apply template_loop_returns in H; [contradiction|fuel_enough]);
    repeat match goal with
      | E : _do_statement cfg _ _ _ _ = OutOfFuel |- _ =>
          apply _do_statement_returns in E; contradiction
      | E : _do_comment cfg _ _ = OutOfFuel |- _ =>
          apply _do_comment_returns in E; contradiction
      | E : Nat.eqb _ _ = false |- _ => apply Nat.eqb_neq in E
      | E : _ || _ = false |- _ => apply orb_false_iff in E; destruct E
      end.
  lia.
Qed.

End LexerTermination.

Lemma last_default_or_In {A : Type} (l : list A) (d : A) :
  last l d = d \/ In (last l d) l.
Proof.
  induction l as [|a [|b l] IH]; cbn in *; auto.
  destruct IH as [E|[E|E]]; auto.
Qed.

Section Lookahead.

Variable cfg : LexerConfig.

Lemma next_token_clean (fuel : nat) :
  forall lx lx' t,
  clean cfg lx -> next_token cfg fuel lx = Ok (t, lx') ->
  not_ignored cfg t /\ clean cfg lx'.
Proof.
  induction fuel as [|f IH]; intros lx lx' t Hc H; [discriminate|].
  cbn [next_token] in H. unfold clean in Hc.
  destruct (la_buf lx) as [|t0 rest] eqn:Eb.
  - unfold bind in H.
    destruct (_next_token cfg lx) as [[t1 lx1]| |] eqn:En; try discriminate.
    apply la_buf_next_token_raw in En. rewrite Eb in En.
    destruct (ignored cfg (tok_type t1)) eqn:Ei.
    + apply IH in H; [assumption|]. unfold clean. rewrite En. constructor.
    + injection H as <- <-. split; [exact Ei|].
      unfold clean. rewrite En. constructor.
  - injection H as <- <-. inversion Hc; subst. split; assumption.
Qed.

Lemma la_fill_appends (fuel : nat) :
  forall remaining lx lx' t,
  1 <= remaining -> la_fill cfg fuel remaining lx = Ok (t, lx') ->
  exists new,
    la_buf lx' = la_buf lx ++ new
    /\ length new = remaining
    /\ nth_error new (remaining - 1) = Some t
    /\ Forall (not_ignored cfg) new.
Proof.
  induction fuel as [|f IH]; intros remaining lx lx' t Hr H; [discriminate|].
  cbn [la_fill] in H. unfold bind in H.
  destruct (_next_token cfg lx) as [[t1 lx1]| |] eqn:En; try discriminate.
  apply la_buf_next_token_raw in En.
  destruct (ignored cfg (tok_type t1)) eqn:Ei.
  - apply IH in H; [|assumption]. rewrite En in H. exact H.
  - destruct (Nat.leb remaining 1) eqn:El.
    + apply Nat.leb_le in El. injection H as <- <-.
      exists [t1]. cbn. rewrite En.
      assert (remaining = 1) as -> by lia.
      repeat split. constructor; [exact Ei|constructor].
    + apply Nat.leb_gt in El.
      apply IH in H; [|lia]. destruct H as (new & Hb & Hl & Hn & Hf).
      cbn in Hb. rewrite En in Hb.
      exists (t1 :: new). rewrite Hb, <- app_assoc. cbn.
      repeat split.
      * lia.
      * destruct remaining as [|[|r]]; try lia.
        cbn in *. rewrite Nat.sub_0_r in Hn. exact Hn.
      * constructor; assumption.
Qed.

Lemma la_clean (fuel k : nat) (lx lx' : Lexer) (t : Token) :
  clean cfg lx -> la cfg fuel k lx = Ok (t, lx') ->
  not_ignored cfg t /\ clean cfg lx'.
Proof.
  unfold la, clean. intros Hc H. destruct k as [|k].
  - destruct (la_buf lx) as [|t0 r] eqn:Eb; [discriminate|].
    injection H as <- <-. rewrite Eb. split; [|assumption].
    rewrite Forall_forall in Hc. apply Hc.
    destruct (last_default_or_In r t0) as [E|E]; [left; auto|right; exact E].
  - destruct (nth_error (la_buf lx) k) eqn:En.
    + injection H as <- <-. split; [|assumption].
      rewrite Forall_forall in Hc. apply Hc. eapply nth_error_In; eassumption.
    + apply nth_error_None in En.
      apply la_fill_appends in H; [|lia].
      destruct H as (new & Hb & Hl & Hn & Hf). split.
      * rewrite Forall_forall in Hf. apply Hf. eapply nth_error_In; eassumption.
      * rewrite Hb. apply Forall_app. split; assumption.
Qed.

Lemma reachable_clean (lx : Lexer) : reachable cfg lx -> clean cfg lx.
Proof.
  induction 1 as [|fuel lx lx' t _ IH H|fuel k lx lx' t _ IH H].
  - constructor.
  - eapply next_token_clean; eassumption.
  - eapply la_clean; eassumption.
Qed.

(** Buffered tokens come out of [next_token] first in, first out. *)
Lemma next_tokens_drain (f : nat) (toks : list Token) :
  forall rest lx,
  la_buf lx = toks ++ rest ->
  next_tokens cfg (S f) (length toks) lx = Ok (toks, set_la_buf lx rest).
Proof.
  induction toks as [|t toks IH]; intros rest lx Hb.
  - cbn in *. rewrite <- Hb. destruct lx; reflexivity.
  - cbn [length next_tokens next_token]. rewrite Hb. cbn [app bind].
    rewrite (IH rest (set_la_buf lx (toks ++ rest))) by reflexivity.
    reflexivity.
Qed.

End Lookahead.

(** C9: for a lexer instance and [k >= 1], once [la(k)] has returned, the
    buffer starts with [k] tokens: [la(1)] to [la(k)] report them without
    changing the lexer, [la(k)] being the token just returned, and the [k]
    following calls of [next_token] return them in that order, leaving the
    rest of the buffer.  None of them has an ignored kind, and neither has
    any token that [la] or [next_token] returns on a lexer instance. *)
Theorem lookahead_fifo (cfg : LexerConfig) (fuel k : nat) (lx lx' : Lexer)
    (t : Token) :
  reachable cfg lx -> 1 <= k -> la cfg fuel k lx = Ok (t, lx') ->
  not_ignored cfg t
  /\ (forall f t1 lx1,
        next_token cfg f lx = Ok (t1, lx1) -> not_ignored cfg t1)
  /\ exists toks rest,
       length toks = k
       /\ la_buf lx' = toks ++ rest
       /\ nth_error toks (k - 1) = Some t
       /\ (forall i f, 1 <= i <= k ->
             exists ti, nth_error toks (i - 1) = Some ti
                        /\ la cfg f i lx' = Ok (ti, lx'))
       /\ (forall f,
             next_tokens cfg (S f) k lx' = Ok (toks, set_la_buf lx' rest))
       /\ Forall (not_ignored cfg) toks.
Proof.
  intros Hr Hk H. apply reachable_clean in Hr.
  destruct (la_clean cfg fuel k lx lx' t Hr H) as [Ht Hc'].
  split; [exact Ht|]. split.
  { intros f t1 lx1 H1.
    destruct (next_token_clean cfg f lx lx1 t1 Hr H1) as [Hn _]. exact Hn. }
  assert (Hnth : nth_error (la_buf lx') (k - 1) = Some t).
  { unfold la in H. destruct k as [|k0]; [lia|].
    cbn [Nat.sub]. rewrite Nat.sub_0_r.
    destruct (nth_error (la_buf lx) k0) eqn:En.
    - injection H as <- <-. exact En.
    - apply nth_error_None in En.
      apply la_fill_appends in H; [|lia].
      destruct H as (new & Hb & Hl & Hn & _).
      rewrite Hb, nth_error_app2 by lia.
      rewrite <- Hn. f_equal. lia. }
  assert (Hlen : k <= length (la_buf lx')).
  { assert (k - 1 < length (la_buf lx'))
      by (apply nth_error_Some; congruence). lia. }
  exists (firstn k (la_buf lx')), (skipn k (la_buf lx')).
  assert (Hfl : length (firstn k (la_buf lx')) = k)
    by (apply firstn_length_le; exact Hlen).
  assert (Hsplit : la_buf lx'
                   = firstn k (la_buf lx') ++ skipn k (la_buf lx'))
    by (symmetry; apply firstn_skipn).
  assert (Hpre : forall i, i < k ->
            nth_error (firstn k (la_buf lx')) i = nth_error (la_buf lx') i).
  { intros i Hi. rewrite Hsplit at 2. rewrite nth_error_app1 by lia.
    reflexivity. }
  repeat split.
  - exact Hfl.
  - exact Hsplit.
  - rewrite Hpre by lia. exact Hnth.
  - intros i f Hi. destruct i as [|i0]; [lia|].
    cbn [Nat.sub]. rewrite Nat.sub_0_r.
    destruct (nth_error (firstn k (la_buf lx')) i0) as [ti|] eqn:Ei.
    + exists ti. split; [reflexivity|].
      unfold la. rewrite <- Hpre by lia. rewrite Ei. reflexivity.
    + apply nth_error_None in Ei. lia.
  - intros f. rewrite <- Hfl at 1. apply next_tokens_drain. exact Hsplit.
  - unfold clean in Hc'. rewrite Hsplit in Hc'.
    apply Forall_app in Hc'. apply Hc'.
Qed.

Lemma lookahead_fifo_witness :
  let cfg := default_config (str "{% if x %}") in
  let lx' := mkLexer None None 6 [Some (ord " ")]
               [tok STATEMENT_START "{%" 1; tok NAME_OR_KEYWORD "if" 4]
               1 None in
  not_ignored cfg (tok NAME_OR_KEYWORD "if" 4)
  /\ (forall f t1 lx1,
        next_token cfg f new_lexer = Ok (t1, lx1) -> not_ignored cfg t1)
  /\ exists toks rest,
       length toks = 2
       /\ la_buf lx' = toks ++ rest
       /\ nth_error toks (2 - 1) = Some (tok NAME_OR_KEYWORD "if" 4)
       /\ (forall i f, 1 <= i <= 2 ->
             exists ti, nth_error toks (i - 1) = Some ti
                        /\ la cfg f i lx' = Ok (ti, lx'))
       /\ (forall f,
             next_tokens cfg (S f) 2 lx' = Ok (toks, set_la_buf lx' rest))
       /\ Forall (not_ignored cfg) toks.
Proof.
  intros cfg lx'.
  apply (lookahead_fifo cfg 50 2 new_lexer lx' (tok NAME_OR_KEYWORD "if" 4)).
  - constructor.
  - lia.
  - vm_compute. reflexivity.
Defined.

(** ** Text without directives *)

Lemma skipn_cons_nth {A : Type} (p : nat) :
  forall (l : list A) c s,
  skipn p l = c :: s -> nth_error l p = Some c /\ skipn (S p) l = s.
Proof.
  induction p as [|p IH]; intros l c s H.
  - destruct l; [discriminate|]. injection H as <- <-. split; reflexivity.
  - destruct l; [discriminate|]. cbn [skipn nth_error] in *.
    apply IH in H. exact H.
Qed.

Lemma skipn_nil_nth {A : Type} (p : nat) :
  forall (l : list A), skipn p l = [] -> nth_error l p = None.
Proof.
  induction p as [|p IH]; intros l H.
  - destruct l; [reflexivity|discriminate].
  - destruct l; [reflexivity|]. cbn [skipn nth_error] in *. apply IH, H.
Qed.

Section PlainText.

Variable text : list char.
Variable base : Lexer.

Let cfg := default_config text.

Lemma next_upcoming (p : nat) (cb : list cursor_char) (c : char)
    (s : list char) :
  upcoming text p cb (c :: s) ->
  exists p' cb',
    _next cfg (at_cursor base p cb) = (Some c, at_cursor base p' cb')
    /\ upcoming text p' cb' s.
Proof.
  intros H. remember (c :: s) as s0 eqn:E0. destruct H as [p|p c0|p E].
  - apply skipn_cons_nth in E0 as [En Es].
    exists (S p), []. split.
    + unfold _next, _do_next. cbn. rewrite En. reflexivity.
    + rewrite <- Es. constructor.
  - injection E0 as -> <-. exists p, []. split; [reflexivity|constructor].
  - discriminate.
Qed.

Lemma next_upcoming_end (p : nat) (cb : list cursor_char) :
  upcoming text p cb [] ->
  _next cfg (at_cursor base p cb) = (None, at_cursor base p [])
  /\ skipn p text = [].
Proof.
  intros H. set (s0 := @nil char) in H.
  assert (E0 : s0 = []) by reflexivity. clearbody s0.
  destruct H as [p|p c0|p E].
  - split; [|exact E0].
    unfold _next, _do_next. cbn. rewrite (skipn_nil_nth _ _ E0). reflexivity.
  - discriminate.
  - split; [reflexivity|exact E].
Qed.

Lemma la_upcoming (p : nat) (cb : list cursor_char) (s : list char) :
  upcoming text p cb s ->
  exists p' cb',
    _la cfg 1 (at_cursor base p cb) = (hd_error s, at_cursor base p' cb')
    /\ upcoming text p' cb' s.
Proof.
  intros H. destruct H as [p|p c0|p E].
  - destruct (skipn p text) as [|x s'] eqn:Es.
    + exists p, [None]. split.
      * unfold _la. cbn. unfold _do_next. cbn.
        rewrite (skipn_nil_nth _ _ Es). reflexivity.
      * constructor. exact Es.
    + apply skipn_cons_nth in Es as [En Es'].
      exists (S p), [Some x]. split.
      * unfold _la. cbn. unfold _do_next. cbn. rewrite En. reflexivity.
      * rewrite <- Es'. constructor.
  - exists p, [Some c0]. split; [reflexivity|constructor].
  - exists p, [None]. split; [reflexivity|constructor; exact E].
Qed.

Lemma probe_plain (p : nat) (cb : list cursor_char) (s : list char)
    (c : char) (pending : list char) (start_pos : nat) :
  upcoming text p cb s ->
  (c = ord "{" ->
   hd_error s <> Some (ord "%") /\ hd_error s <> Some (ord "{")
   /\ hd_error s <> Some (ord "#")) ->
  exists p' cb',
    probe cfg (start_delimiters cfg) c pending start_pos (at_cursor base p cb)
    = inr (at_cursor base p' cb')
    /\ upcoming text p' cb' s.
Proof.
  intros Hu Hc. unfold start_delimiters, cfg. simpl.
  destruct (N.eqb c 123) eqn:Ec.
  - apply N.eqb_eq in Ec. destruct (Hc Ec) as (H1 & H2 & H3).
    assert (Hne : forall x, hd_error s <> Some x ->
                            cursor_eqb (hd_error s) (Some x) = false).
    { intros x Hx. destruct (hd_error s) as [y|]; [|reflexivity]. cbn.
      apply N.eqb_neq. congruence. }
    destruct (la_upcoming p cb s Hu) as (p1 & cb1 & E1 & Hu1).
    fold cfg. rewrite E1, (Hne 37%N H1). simpl.
    destruct (la_upcoming p1 cb1 s Hu1) as (p2 & cb2 & E2 & Hu2).
    rewrite E2, (Hne 123%N H2). simpl.
    destruct (la_upcoming p2 cb2 s Hu2) as (p3 & cb3 & E3 & Hu3).
    rewrite E3, (Hne 35%N H3). simpl.
    exists p3, cb3. split; [reflexivity|assumption].
  - exists p, cb. split; [reflexivity|assumption].
Qed.

Lemma has_directive_tail (c : char) (s : list char) :
  has_directive (c :: s) = false -> has_directive s = false.
Proof.
  unfold has_directive. cbn [occurs].
  rewrite !orb_false_iff. intuition.
Qed.

Lemma starts_with_pair (a b x : char) (s : list char) :
  starts_with [a; b] (a :: x :: s) = N.eqb b x.
Proof. cbn [starts_with]. rewrite N.eqb_refl, andb_true_r. reflexivity. Qed.

Lemma has_directive_head (c : char) (s : list char) :
  has_directive (c :: s) = false ->
  c = ord "{" ->
  hd_error s <> Some (ord "%") /\ hd_error s <> Some (ord "{")
  /\ hd_error s <> Some (ord "#").
Proof.
  unfold has_directive. cbn [occurs]. rewrite !orb_false_iff.
  intros [[[H1 _] [H2 _]] [H3 _]] ->.
  destruct s as [|x s']; cbn [hd_error]; [repeat split; discriminate|].
  change (str "{%") with [ord "{"; ord "%"] in H1.
  change (str "{{") with [ord "{"; ord "{"] in H2.
  change (str "{#") with [ord "{"; ord "#"] in H3.
  rewrite starts_with_pair in H1, H2, H3.
  apply N.eqb_neq in H1, H2, H3.
  repeat split; congruence.
Qed.

Lemma template_loop_plain (s : list char) :
  forall fuel p cb pending start_pos,
  upcoming text p cb s -> has_directive s = false -> length s < fuel ->
  exists p',
    skipn p' text = []
    /\ template_loop cfg fuel pending start_pos (at_cursor base p cb)
       = Ok (if nonempty (pending ++ s)
             then new_Token TEMPLATE_DATA (pending ++ s) start_pos None
             else new_Token EOF [] p' None,
             at_cursor base p' []).
Proof.
  induction s as [|c s IH]; intros fuel p cb pending start_pos Hu Hd Hf;
    (destruct fuel as [|f]; [cbn in Hf; lia|]); cbn [template_loop].
  - destruct (next_upcoming_end p cb Hu) as [En Es]. rewrite En.
    exists p. split; [exact Es|]. rewrite app_nil_r. reflexivity.
  - destruct (next_upcoming p cb c s Hu) as (p1 & cb1 & En & Hu1). rewrite En.
    destruct (probe_plain p1 cb1 s c pending start_pos Hu1
                (has_directive_head c s Hd))
      as (p2 & cb2 & Ep & Hu2).
    rewrite Ep.
    destruct (IH f p2 cb2 (pending ++ [c]) start_pos Hu2
                (has_directive_tail c s Hd)) as (p' & Es & El);
      [cbn in Hf; lia|].
    exists p'. split; [exact Es|]. rewrite El, <- app_assoc. reflexivity.
Qed.

End PlainText.

Local Arguments _next_token : simpl never.

Lemma la_one_fresh (cfg : LexerConfig) (f : nat) (lx lx' : Lexer)
    (t : Token) :
  la_buf lx = [] ->
  _next_token cfg lx = Ok (t, lx') ->
  ignored cfg (tok_type t) = false ->
  la cfg (S f) 1 lx = Ok (t, set_la_buf lx' (la_buf lx' ++ [t])).
Proof.
  intros Hb Hn Hi. unfold la. rewrite Hb. cbn [nth_error la_fill].
  rewrite Hn. cbn [bind]. rewrite Hi. reflexivity.
Qed.

Lemma next_token_buffered (cfg : LexerConfig) (f : nat) (lx : Lexer)
    (t : Token) (rest : list Token) :
  la_buf lx = t :: rest ->
  next_token cfg (S f) lx = Ok (t, set_la_buf lx rest).
Proof. intros Hb. cbn [next_token]. rewrite Hb. reflexivity. Qed.

Lemma document_loop_S (cfg : LexerConfig) (f : nat) (elems : list Element)
    (lx : Lexer) :
  document_loop cfg (S f) elems lx
  = bind (la cfg f 1 lx) (fun r =>
      let (la_tok, lx1) := r in
      match tok_type la_tok with
      | TEMPLATE_DATA =>
          do r' <- next_token cfg f lx1;
          let (tok, lx2) := r' in
          document_loop cfg f (elems ++ [TemplateText (tok_value tok)]) lx2
      | STATEMENT_START | LINE_STATEMENT_PREFIX =>
          do r' <- statement cfg f lx1;
          let (el, lx2) := r' in
          document_loop cfg f (elems ++ [el]) lx2
      | INLINE_START =>
          do r' <- inline cfg f lx1;
          let (el, lx2) := r' in
          document_loop cfg f (elems ++ [el]) lx2
      | EOF => Ok (mkDocument elems, lx1)
      | _ =>
          raise_unexpected la_tok
            [TEMPLATE_DATA; STATEMENT_START; INLINE_START;
             LINE_STATEMENT_PREFIX]
      end).
Proof. reflexivity. Qed.

(** C8, as stated, fails on the empty text, which contains no delimiter:
    its document has no element at all. *)
Lemma empty_text_has_no_element :
  has_directive (str "") = false
  /\ statement_parse 50 (str "") = Ok (mkDocument [])
  /\ mkDocument [] <> mkDocument [TemplateText (VStr (str ""))].
Proof. repeat split; try reflexivity. discriminate. Qed.

(** C8, amended: for every non-empty text in which none of the start
    delimiters [{%], [{{], [{#] occurs, the parse returns the document made
    of exactly one text element, whose content is the text as it stands. *)
Theorem plain_text_is_one_element (text : list char) (fuel : nat) :
  text <> [] -> has_directive text = false -> 3 <= fuel ->
  statement_parse fuel text = Ok (mkDocument [TemplateText (VStr text)]).
Proof.
  intros Hne Hd Hf.
  destruct fuel as [|[|[|f]]]; try lia. clear Hf.
  unfold statement_parse, document.
  set (cfg := default_config text).
  destruct (template_loop_plain text new_lexer text
              (cursor_fuel cfg new_lexer) 0 [] [] 0 (up_direct text 0) Hd)
    as (p1 & Es1 & E1).
  { unfold cursor_fuel, cfg. cbn. lia. }
  assert (Hdata : nonempty ([] ++ text) = true)
    by (destruct text; [contradiction|reflexivity]).
  rewrite Hdata in E1. cbn [app] in E1.
  set (lx1 := at_cursor new_lexer p1 []) in *.
  assert (Hu1 : upcoming text p1 [] []) by (rewrite <- Es1; constructor).
  destruct (template_loop_plain text new_lexer []
              (cursor_fuel cfg lx1) p1 [] [] p1 Hu1 eq_refl)
    as (p2 & Es2 & E2).
  { unfold cursor_fuel. cbn. lia. }
  cbn [app nonempty] in E2.
  assert (N1 : _next_token cfg new_lexer
               = Ok (new_Token TEMPLATE_DATA text 0 None, lx1)) by exact E1.
  assert (N2 : _next_token cfg lx1
               = Ok (new_Token EOF [] p2 None, at_cursor new_lexer p2 []))
    by exact E2.
  clear E1 E2.
  rewrite document_loop_S.
  rewrite (la_one_fresh cfg (S f) new_lexer lx1 _ eq_refl N1 eq_refl).
  cbn [bind tok_type new_Token].
  erewrite next_token_buffered by reflexivity.
  cbn [bind tok_value app].
  rewrite document_loop_S.
  change (set_la_buf (set_la_buf lx1 _) []) with lx1.
  rewrite (la_one_fresh cfg f lx1 _ _ eq_refl N2 eq_refl).
  reflexivity.
Qed.

Lemma plain_text_is_one_element_witness :
  statement_parse 3 (str "a{b")
  = Ok (mkDocument [TemplateText (VStr (str "a{b"))]).
Proof.
  apply (plain_text_is_one_element (str "a{b") 3).
  - discriminate.
  - reflexivity.
  - lia.
Defined.

(** * Further properties of the cursor, the lexer and the parser *)

(** ** The character cursor *)

(** X2: Looking one character ahead twice is looking once, and the character
    then consumed is the one that was seen. *)
Theorem peek_then_next (cfg : LexerConfig) (lx : Lexer) :
  _la cfg 1 (snd (_la cfg 1 lx)) = _la cfg 1 lx
  /\ fst (_next cfg (snd (_la cfg 1 lx))) = fst (_la cfg 1 lx).
Proof.
  split.
  - destruct lx as [bt bs pos cb lab st b]. unfold _la. cbn.
    destruct cb as [|x r]; cbn; [|reflexivity].
    unfold _do_next. cbn.
    destruct (nth_error (template_text cfg) pos); reflexivity.
  - apply (next_after_la cfg lx). destruct (_la cfg 1 lx); reflexivity.
Qed.

(** X3: The second lookahead of a delimiter probe never sees the text: with at
    most one character read ahead, [_la(2)] takes the buffered character out
    and puts it back, and reports it again.  A delimiter [d0 d1 d2] is
    therefore recognised exactly when the character after [d0] is [d1] and
    [d1 = d2], whatever the third character of the text. *)
Theorem three_character_probe (cfg : LexerConfig) (lx : Lexer) (d1 d2 : char) :
  length (ch_buf lx) <= 1 ->
  fst (match_rest cfg [d1; d2] 1 lx)
  = cursor_eqb (fst (_la cfg 1 lx)) (Some d1) && N.eqb d1 d2.
Proof.
  intros Hl. destruct lx as [bt bs pos cb lab st b]. cbn in Hl.
  destruct cb as [|x [|y r]]; [| |cbn in Hl; lia].
  - unfold match_rest, _la. cbn. unfold _do_next. cbn.
    destruct (nth_error (template_text cfg) pos) as [c|]; cbn.
    + destruct (N.eqb c d1) eqn:E; [|reflexivity]. cbn.
      apply N.eqb_eq in E. subst c.
      destruct (N.eqb d1 d2); reflexivity.
    + reflexivity.
  - unfold match_rest, _la. cbn.
    destruct (cursor_eqb x (Some d1)) eqn:E; [|reflexivity]. cbn.
    destruct x as [c|]; [|discriminate]. cbn in E. apply N.eqb_eq in E.
    subst c. cbn. destruct (N.eqb d1 d2); reflexivity.
Qed.

Lemma three_character_probe_witness :
  fst (match_rest (default_config (str "abc")) [ord "b"; ord "c"] 1
         (mkLexer None None 1 [] [] 0 None))
  = cursor_eqb
      (fst (_la (default_config (str "abc")) 1
              (mkLexer None None 1 [] [] 0 None)))
      (Some (ord "b"))
    && N.eqb (ord "b") (ord "c").
Proof.
  apply (three_character_probe (default_config (str "abc"))
           (mkLexer None None 1 [] [] 0 None) (ord "b") (ord "c")).
  cbn. lia.
Defined.

Lemma _next_token_returns_witness :
  _next_token (default_config (str "a{b")) new_lexer <> OutOfFuel.
Proof.
  apply (_next_token_returns (default_config (str "a{b")) new_lexer).
  cbn. lia.
Defined.

(** ** Comments *)

Section TokenText.

Variable cfg : LexerConfig.

Lemma buf_do_next (lx : Lexer) : buf (snd (_do_next cfg lx)) = buf lx.
Proof.
  unfold _do_next. destruct (ch_buf lx); [|reflexivity].
  destruct (nth_error _ _); reflexivity.
Qed.

(** While no token text is being collected, [_next] leaves [buf] alone. *)
Lemma buf_next_idle (lx : Lexer) :
  buf_truthy lx = false -> buf (snd (_next cfg lx)) = buf lx.
Proof.
  intros Hb. unfold _next. pose proof (buf_do_next lx) as H.
  destruct (_do_next cfg lx) as [[c|] lx1]; cbn [snd] in *; [|exact H].
  unfold buf_truthy in *. rewrite H, Hb. exact H.
Qed.

Lemma buf_la_read (n : nat) :
  forall la lx, buf (snd (_la_read cfg n la lx)) = buf lx.
Proof.
  induction n as [|n IH]; intros la lx; [reflexivity|].
  cbn [_la_read]. pose proof (buf_do_next lx) as H.
  destruct (_do_next cfg lx) as [c lx1]. rewrite IH. exact H.
Qed.

Lemma buf_la (k : nat) (lx : Lexer) : buf (snd (_la cfg k lx)) = buf lx.
Proof.
  unfold _la. destruct k; [reflexivity|].
  destruct (nth_error _ _); [reflexivity|]. apply buf_la_read.
Qed.

Lemma buf_match_rest (rest : list char) :
  forall i lx, buf (snd (match_rest cfg rest i lx)) = buf lx.
Proof.
  induction rest as [|c rest IH]; intros i lx; [reflexivity|].
  cbn [match_rest]. pose proof (buf_la i lx) as H.
  destruct (_la cfg i lx) as [la lx1].
  destruct (cursor_eqb la (Some c)); [rewrite IH|]; exact H.
Qed.

Lemma buf_clear_la_loop_idle (n : nat) :
  forall lx, buf_truthy lx = false -> buf (_clear_la_loop cfg n lx) = buf lx.
Proof.
  induction n as [|n IH]; intros lx Hb; [reflexivity|].
  cbn [_clear_la_loop]. destruct (ch_buf lx); [reflexivity|].
  pose proof (buf_next_idle lx Hb) as Hn.
  rewrite IH; [exact Hn|]. unfold buf_truthy in *. rewrite Hn. exact Hb.
Qed.

Lemma buf_truthy_eq (lx lx' : Lexer) :
  buf lx' = buf lx -> buf_truthy lx' = buf_truthy lx.
Proof. unfold buf_truthy. intros ->. reflexivity. Qed.

Lemma clear_buf_idle (lx : Lexer) :
  buf_truthy lx = false -> _clear_buf lx = ([], set_buf lx None).
Proof.
  unfold buf_truthy, _clear_buf. destruct (buf lx) as [[|c b]|];
    [reflexivity|discriminate|reflexivity].
Qed.

Lemma comment_end_check_idle (sl : bool) (start_pos : nat) (c : char)
    (lx lx' : Lexer) (rv : option Token) :
  buf_truthy lx = false ->
  comment_end_check cfg sl start_pos c lx = Ok (rv, lx') ->
  (rv = None /\ buf_truthy lx' = false)
  \/ (rv = Some (new_Token COMMENT_END [] start_pos None)
      /\ buf_truthy lx' = false).
Proof.
  intros Hb. unfold comment_end_check.
  destruct sl.
  - destruct (N.eqb c CR).
    + pose proof (buf_la 1 lx) as Hl.
      destruct (_la cfg 1 lx) as [la lx1]. cbn [snd] in Hl.
      assert (Hb1 : buf_truthy lx1 = false)
        by (rewrite (buf_truthy_eq lx lx1 Hl); exact Hb).
      set (lx2 := if cursor_eqb la (Some LF) then snd (_next cfg lx1) else lx1).
      assert (Hb2 : buf_truthy lx2 = false).
      { subst lx2. destruct (cursor_eqb la (Some LF)); [|exact Hb1].
        rewrite (buf_truthy_eq lx1 _ (buf_next_idle lx1 Hb1)). exact Hb1. }
      rewrite (clear_buf_idle lx2 Hb2).
      intros [= <- <-]. right. split; reflexivity.
    + destruct (N.eqb c LF).
      * rewrite (clear_buf_idle lx Hb).
        intros [= <- <-]. right. split; reflexivity.
      * intros [= <- <-]. left. split; [reflexivity|exact Hb].
  - destruct (comment_end cfg) as [[|e0 rest]|]; try discriminate.
    destruct (N.eqb c e0).
    + pose proof (buf_match_rest rest 1 lx) as Hm.
      destruct (match_rest cfg rest 1 lx) as [[|] lx1]; cbn [snd] in Hm.
      * assert (Hb1 : buf_truthy lx1 = false)
          by (rewrite (buf_truthy_eq lx lx1 Hm); exact Hb).
        assert (Hb2 : buf_truthy (_clear_la cfg lx1) = false).
        { unfold _clear_la.
          rewrite (buf_truthy_eq lx1 _ (buf_clear_la_loop_idle _ lx1 Hb1)).
          exact Hb1. }
        rewrite (clear_buf_idle _ Hb2).
        intros [= <- <-]. right. split; reflexivity.
      * intros [= <- <-]. left. split; [reflexivity|].
        rewrite (buf_truthy_eq lx lx1 Hm). exact Hb.
    + intros [= <- <-]. left. split; [reflexivity|exact Hb].
Qed.

Lemma _do_comment_loop_idle (fuel : nat) :
  forall sl start_pos lx lx' t,
  buf_truthy lx = false ->
  _do_comment_loop cfg fuel sl start_pos lx = Ok (t, lx') ->
  t = new_Token COMMENT_END [] start_pos None \/ t = eof_token lx'.
Proof.
  induction fuel as [|f IH]; intros sl start_pos lx lx' t Hb H; [discriminate|].
  cbn [_do_comment_loop] in H.
  pose proof (buf_next_idle lx Hb) as Hn.
  destruct (_next cfg lx) as [[c|] lx1]; cbn [snd] in Hn.
  - assert (Hb1 : buf_truthy lx1 = false)
      by (rewrite (buf_truthy_eq lx lx1 Hn); exact Hb).
    destruct (comment_end_check cfg sl start_pos c lx1) as [[rv lx2]| |] eqn:E;
      cbn [bind] in H; try discriminate.
    destruct (comment_end_check_idle sl start_pos c lx1 lx2 rv Hb1 E)
      as [[-> Hb2]|[-> Hb2]].
    + eapply IH; eassumption.
    + rewrite Hb2 in H. injection H as <- <-. left. reflexivity.
  - injection H as <- <-. right. reflexivity.
Qed.

End TokenText.

(** X4: A comment never yields a comment-data token and its text is lost: the
    buffer started for it is the empty list, which is false for [_next], so
    no character is ever added to it.  [_do_comment] returns the comment-end
    token with empty text, or the end-of-input token, and leaves the
    lookahead buffer alone. *)
Theorem comment_text_is_dropped (cfg : LexerConfig) (single_line : bool)
    (lx lx' : Lexer) (t : Token) :
  buf_truthy lx = false ->
  _do_comment cfg single_line lx = Ok (t, lx') ->
  (t = new_Token COMMENT_END [] (template_pos lx) None \/ t = eof_token lx')
  /\ la_buf lx' = la_buf lx.
Proof.
  intros Hb H. split.
  - unfold _do_comment in H.
    eapply _do_comment_loop_idle; [|exact H].
    unfold _start_buf. destruct (negb _); [reflexivity|exact Hb].
  - eapply la_buf_do_comment. exact H.
Qed.

Lemma comment_text_is_dropped_witness :
  let cfg := default_config (str "{# note #}x") in
  let lx := mkLexer None None 2 [] [] 2 None in
  let lx' := mkLexer None None 10 [] [] 2 None in
  (new_Token COMMENT_END [] 2 None
   = new_Token COMMENT_END [] (template_pos lx) None
   \/ new_Token COMMENT_END [] 2 None = eof_token lx')
  /\ la_buf lx' = la_buf lx.
Proof.
  intros cfg lx lx'.
  apply (comment_text_is_dropped cfg false lx lx'
           (new_Token COMMENT_END [] 2 None)).
  - reflexivity.
  - vm_compute. reflexivity.
Defined.

(** ** The parser at the end of the text *)

Section EndOfText.

Variable cfg : LexerConfig.
Variable lx : Lexer.
Hypothesis Hend : at_end cfg lx.

Lemma _next_token_at_end : _next_token cfg lx = Ok (eof_token lx, lx).
Proof.
  destruct Hend as (Hc & _ & Hp & Hs).
  assert (Hn : _next cfg lx = (None, lx)).
  { unfold _next, _do_next. rewrite Hc.
    assert (E : nth_error (template_text cfg) (template_pos lx) = None)
      by (apply nth_error_None; exact Hp).
    rewrite E. reflexivity. }
  unfold _next_token, _do_statement.
  destruct Hs as [-> | [-> | ->]]; cbn; rewrite Hn; reflexivity.
Qed.

Lemma next_token_at_end (f : nat) :
  next_token cfg f lx = OutOfFuel
  \/ next_token cfg f lx = Ok (eof_token lx, lx).
Proof.
  induction f as [|f IH]; [left; reflexivity|].
  cbn [next_token]. destruct Hend as (_ & -> & _).
  rewrite _next_token_at_end. cbn [bind].
  destruct (ignored cfg _); [exact IH|right; reflexivity].
Qed.

Lemma inline_loop_at_end (f : nat) :
  forall tokens, inline_loop cfg f tokens lx = OutOfFuel.
Proof.
  induction f as [|f IH]; intros tokens; [reflexivity|].
  cbn [inline_loop].
  destruct (next_token_at_end f) as [E|E]; rewrite E; [reflexivity|].
  cbn [bind]. apply IH.
Qed.

Lemma statement_loop_at_end (f : nat) :
  forall is_block tokens r_ws_control,
  statement_loop cfg f is_block tokens r_ws_control lx = OutOfFuel.
Proof.
  induction f as [|f IH]; intros is_block tokens r_ws_control; [reflexivity|].
  cbn [statement_loop].
  destruct (next_token_at_end f) as [E|E]; rewrite E; [reflexivity|].
  cbn [bind]. change (tok_type (eof_token lx)) with EOF.
  change (tok_value (eof_token lx)) with (VStr []).
  cbn [tt_eqb]. destruct is_block; cbn; apply IH.
Qed.

End EndOfText.

(** X5: Once the text is used up inside a statement or an inline expression,
    the loops of [statement] and of [inline] never end: every call of
    [next_token] gives the end-of-input token back (or keeps skipping it,
    when it is ignored), and neither loop tests for it. *)
Theorem parser_loops_at_end_of_text (cfg : LexerConfig) (lx : Lexer) :
  at_end cfg lx ->
  forall fuel,
  (forall tokens, inline_loop cfg fuel tokens lx = OutOfFuel)
  /\ (forall is_block tokens r_ws_control,
        statement_loop cfg fuel is_block tokens r_ws_control lx = OutOfFuel).
Proof.
  intros Hend fuel. split.
  - apply inline_loop_at_end. exact Hend.
  - apply statement_loop_at_end. exact Hend.
Qed.

Lemma parser_loops_at_end_of_text_witness :
  (forall tokens,
     inline_loop (default_config (str "{{ x")) 9 tokens
       (mkLexer None None 4 [] [] 5 None) = OutOfFuel)
  /\ (forall is_block tokens r_ws_control,
        statement_loop (default_config (str "{{ x")) 9 is_block tokens
          r_ws_control (mkLexer None None 4 [] [] 5 None) = OutOfFuel).
Proof.
  apply (parser_loops_at_end_of_text (default_config (str "{{ x"))
           (mkLexer None None 4 [] [] 5 None)).
  unfold at_end. cbn. repeat split; auto.
Defined.

(** ** What a parsed document is made of *)

Lemma tt_eqb_true (a b : TokenType) : tt_eqb a b = true -> a = b.
Proof. unfold tt_eqb. destruct (TokenType_eq_dec a b); [auto|discriminate]. Qed.




Section DocumentShape.

Variable cfg : LexerConfig.









End DocumentShape.



(** ** The tokens of a statement

    What [_do_statement] makes of the characters to come, for a cursor that
    has read at most one character ahead. *)

Lemma frame_refl (lx : Lexer) : frame lx lx.
Proof. repeat split. Qed.

Lemma frame_trans (a b c : Lexer) : frame a b -> frame b c -> frame a c.
Proof. unfold frame. intuition congruence. Qed.

Lemma upcoming_length (text : list char) (p : nat) (cb : list cursor_char)
    (s : list char) :
  upcoming text p cb s -> length s <= length cb + (length text - p).
Proof.
  intros H. destruct H; cbn; rewrite ?length_skipn; lia.
Qed.

Section Ahead.

Variable cfg : LexerConfig.

Lemma ahead_fuel (lx : Lexer) (s : list char) :
  ahead cfg lx s -> length s + 2 <= cursor_fuel cfg lx.
Proof.
  intros H. apply upcoming_length in H. unfold cursor_fuel. lia.
Qed.

Lemma next_ahead (lx : Lexer) (c : char) (s : list char) :
  ahead cfg lx (c :: s) ->
  exists lx1,
    _next cfg lx = (Some c, lx1) /\ ahead cfg lx1 s /\ frame lx lx1
    /\ buf lx1 = collect (buf lx) c.
Proof.
  destruct lx as [bt bs pos cb lab st b]. unfold ahead. cbn.
  intros H. remember (c :: s) as s0 eqn:E0.
  destruct H as [p|p c0|p E].
  - apply skipn_cons_nth in E0 as [En Es].
    unfold _next, _do_next. cbn. rewrite En. unfold buf_truthy. cbn.
    destruct b as [[|x r]|]; eexists; (split; [reflexivity|]); cbn;
      (split; [rewrite <- Es; constructor|]); (split; [repeat split|]);
      reflexivity.
  - injection E0 as -> <-.
    unfold _next, _do_next, buf_truthy. cbn.
    destruct b as [[|x r]|]; eexists; (split; [reflexivity|]); cbn;
      (split; [constructor|]); (split; [repeat split|]); reflexivity.
  - discriminate.
Qed.

Lemma la_ahead (lx : Lexer) (s : list char) :
  ahead cfg lx s ->
  exists lx1,
    _la cfg 1 lx = (hd_error s, lx1) /\ ahead cfg lx1 s /\ frame lx lx1
    /\ buf lx1 = buf lx.
Proof.
  destruct lx as [bt bs pos cb lab st b]. unfold ahead. cbn.
  intros H. destruct H as [p|p c0|p E].
  - destruct (skipn p (template_text cfg)) as [|x s'] eqn:Es.
    + eexists. split.
      * unfold _la. cbn. unfold _do_next. cbn.
        rewrite (skipn_nil_nth _ _ Es). reflexivity.
      * cbn. split; [constructor; exact Es|]. split; [repeat split|reflexivity].
    + apply skipn_cons_nth in Es as [En Es'].
      eexists. split.
      * unfold _la. cbn. unfold _do_next. cbn. rewrite En. reflexivity.
      * cbn. split; [rewrite <- Es'; constructor|].
        split; [repeat split|reflexivity].
  - eexists. split; [reflexivity|]. cbn.
    split; [constructor|]. split; [repeat split|reflexivity].
  - eexists. split; [reflexivity|]. cbn.
    split; [constructor; exact E|]. split; [repeat split|reflexivity].
Qed.

Lemma ahead_set_buf (lx : Lexer) (s : list char) (b : option (list char)) :
  ahead cfg lx s -> ahead cfg (set_buf lx b) s.
Proof. exact (fun H => H). Qed.

Lemma ahead_start_buf (lx : Lexer) (s : list char) (t : TokenType)
    (ch : option char) :
  ahead cfg lx s -> ahead cfg (_start_buf cfg t ch lx) s.
Proof. unfold _start_buf. destruct (negb _); exact (fun H => H). Qed.

Lemma frame_start_buf (lx : Lexer) (t : TokenType) (ch : option char) :
  frame lx (_start_buf cfg t ch lx).
Proof. unfold _start_buf. destruct (negb _); repeat split. Qed.

Lemma name_loop_ahead (w : list char) :
  forall fuel start_pos lx b rest,
  ahead cfg lx (w ++ rest) ->
  Forall (fun c => is_alphanum (Some c) = true) w ->
  is_alphanum (hd_error rest) = false ->
  buf lx = Some b -> b <> [] -> length w < fuel ->
  exists lx',
    name_loop cfg fuel start_pos lx
    = Ok (new_Token NAME_OR_KEYWORD (b ++ w) start_pos None, lx')
    /\ ahead cfg lx' rest /\ frame lx lx' /\ buf lx' = None.
Proof.
  induction w as [|c w IH]; intros fuel start_pos lx b rest Ha Hw Hr Hb Hne Hf;
    (destruct fuel as [|f]; [cbn in Hf; lia|]); cbn [name_loop].
  - destruct (la_ahead lx _ Ha) as (lx1 & El & Ha1 & Hf1 & Hb1).
    rewrite El. cbn [app hd_error] in *. rewrite Hr. cbn [negb].
    unfold _clear_buf. rewrite Hb1, Hb, app_nil_r.
    eexists. split; [reflexivity|]. split; [exact Ha1|].
    split; [|reflexivity]. apply (frame_trans lx lx1); [exact Hf1|].
    repeat split.
  - destruct (la_ahead lx _ Ha) as (lx1 & El & Ha1 & Hf1 & Hb1).
    rewrite El. cbn [app hd_error] in *.
    inversion Hw as [|? ? Hc Hw']; subst. rewrite Hc. cbn [negb].
    destruct (next_ahead lx1 c _ Ha1) as (lx2 & En & Ha2 & Hf2 & Hb2).
    rewrite En. cbn [snd].
    destruct (IH f start_pos lx2 (b ++ [c]) rest Ha2 Hw' Hr)
      as (lx' & E & Ha' & Hf' & Hb').
    + rewrite Hb2, Hb1, Hb. destruct b; [contradiction|reflexivity].
    + destruct b; discriminate.
    + cbn in Hf. lia.
    + exists lx'. rewrite E, <- app_assoc. split; [reflexivity|].
      split; [exact Ha'|]. split; [|exact Hb'].
      apply (frame_trans lx lx1); [exact Hf1|].
      apply (frame_trans lx1 lx2); assumption.
Qed.

End Ahead.

(** Brings the tests of the character classes down to arithmetic on code
    points. *)
Ltac class_arith H :=
  unfold is_alpha, is_alphanum, is_digit10, is_ws, between, eqc, ord in H;
  cbn [N_of_ascii N_of_digits existsb] in H;
  repeat rewrite ?orb_true_iff, ?andb_true_iff, ?orb_false_iff,
    ?andb_false_iff, ?N.leb_le, ?N.leb_gt, ?N.eqb_eq, ?N.eqb_neq in H.

Ltac decide_eqc :=
  repeat match goal with
    | |- context [eqc ?c ?a] =>
        let E := fresh "E" in
        destruct (eqc c a) eqn:E;
        [ exfalso; unfold eqc, ord in E; cbn [N_of_ascii N_of_digits] in E;
          apply N.eqb_eq in E; cbn in E; lia
        | cbn [orb] ]
    end.

Section NameToken.

Variable cfg : LexerConfig.

Lemma alpha_not_digit (c : char) :
  is_alpha (Some c) = true -> is_digit10 (Some c) = false.
Proof.
  intros H. destruct (is_digit10 (Some c)) eqn:E; [|reflexivity].
  class_arith H. class_arith E. cbn in *. lia.
Qed.

Lemma alpha_not_ws (c : char) :
  is_alpha (Some c) = true -> is_ws (Some c) = false.
Proof.
  intros H. destruct (is_ws (Some c)) eqn:E; [|reflexivity].
  class_arith H. unfold is_ws in E.
  destruct (_ || _ || _) eqn:E1.
  - class_arith E1. cbn in *. lia.
  - cbn [existsb] in E. class_arith E. cbn in *. lia.
Qed.

Lemma regular_lexicon_alpha (e : TokenType) (sl : bool) (start_pos : nat)
    (c : char) (lx : Lexer) :
  is_alpha (Some c) = true ->
  regular_lexicon cfg e sl start_pos c lx
  = name_loop cfg (cursor_fuel cfg (_start_buf cfg NAME_OR_KEYWORD (Some c) lx))
      start_pos (_start_buf cfg NAME_OR_KEYWORD (Some c) lx).
Proof.
  intros H. unfold regular_lexicon.
  rewrite (alpha_not_digit c H), (alpha_not_ws c H), H.
  class_arith H. cbn in H.
  decide_eqc.
  destruct (N.eqb c DQUOTE) eqn:Eq;
    [exfalso; apply N.eqb_eq in Eq; unfold DQUOTE in Eq; lia|].
  cbn [orb]. reflexivity.
Qed.

End NameToken.

(** X7: A name token is the longest run of identifier characters.  When the
    characters to come are a letter or underscore [c], then identifier
    characters [w], then something that is not an identifier character (or
    the end of the text), [_do_statement] returns the name token with text
    [c w], placed at the cursor position it started from, and leaves the
    cursor in front of the rest with no token text pending. *)
Theorem name_token (cfg : LexerConfig) (terminator : option (list char))
    (end_tok_type : TokenType) (single_line : bool) (lx : Lexer) (c : char)
    (w rest : list char) :
  ahead cfg lx (c :: w ++ rest) ->
  is_alpha (Some c) = true ->
  Forall (fun x => is_alphanum (Some x) = true) w ->
  is_alphanum (hd_error rest) = false ->
  begins_with terminator c = false ->
  ignored cfg NAME_OR_KEYWORD = false ->
  exists lx',
    _do_statement cfg terminator end_tok_type single_line lx
    = Ok (new_Token NAME_OR_KEYWORD (c :: w) (template_pos lx) None, lx')
    /\ ahead cfg lx' rest /\ frame lx lx' /\ buf lx' = None.
Proof.
  intros Ha Hc Hw Hr Hb Hi.
  destruct (next_ahead cfg lx c _ Ha) as (lx1 & En & Ha1 & Hf1 & _).
  rewrite (_do_statement_lexicon cfg terminator end_tok_type single_line
             lx lx1 c En Hb).
  rewrite (regular_lexicon_alpha cfg end_tok_type single_line _ c lx1 Hc).
  set (lx2 := _start_buf cfg NAME_OR_KEYWORD (Some c) lx1).
  assert (Ha2 : ahead cfg lx2 (w ++ rest)) by (apply ahead_start_buf; exact Ha1).
  assert (Hb2 : buf lx2 = Some [c])
    by (unfold lx2, _start_buf; rewrite Hi; reflexivity).
  destruct (name_loop_ahead cfg w (cursor_fuel cfg lx2) (template_pos lx) lx2
              [c] rest Ha2 Hw Hr Hb2) as (lx' & E & Ha' & Hf' & Hb').
  - discriminate.
  - pose proof (ahead_fuel cfg lx2 _ Ha2) as Hfu. rewrite length_app in Hfu. lia.
  - exists lx'. split; [exact E|]. split; [exact Ha'|]. split; [|exact Hb'].
    apply (frame_trans lx lx1); [exact Hf1|].
    apply (frame_trans lx1 lx2); [apply frame_start_buf|exact Hf'].
Qed.

Lemma name_token_witness :
  let cfg := default_config (str "{% if x %}") in
  let lx := mkLexer None None 4 [Some (ord "i")] [] 1 None in
  exists lx',
    _do_statement cfg (Some (str "%}")) STATEMENT_END false lx
    = Ok (new_Token NAME_OR_KEYWORD (ord "i" :: str "f") (template_pos lx) None,
          lx')
    /\ ahead cfg lx' (str " x %}") /\ frame lx lx' /\ buf lx' = None.
Proof.
  intros cfg lx.
  apply (name_token cfg (Some (str "%}")) STATEMENT_END false lx
           (ord "i") (str "f") (str " x %}")).
  - exact (up_buffered (str "{% if x %}") 4 (ord "i")).
  - reflexivity.
  - repeat constructor.
  - reflexivity.
  - reflexivity.
  - reflexivity.
Defined.

Section StringToken.

Variable cfg : LexerConfig.

Lemma _do_str_loop_ahead (s : list char) :
  forall fuel start_pos q value_buf lx b rest,
  ahead cfg lx (s ++ q :: rest) ->
  Forall (fun c => N.eqb c q = false /\ eqc c "\" = false) s ->
  buf lx = Some b -> b <> [] -> length s < fuel ->
  exists lx',
    _do_str_loop cfg fuel start_pos q value_buf lx
    = Ok (new_Token STR_LIT (b ++ s ++ [q]) start_pos
            (Some (VStr (value_buf ++ s))), lx')
    /\ ahead cfg lx' rest /\ frame lx lx' /\ buf lx' = None.
Proof.
  induction s as [|c s IH];
    intros fuel start_pos q value_buf lx b rest Ha Hs Hb Hne Hf;
    (destruct fuel as [|f]; [cbn in Hf; lia|]); cbn [_do_str_loop];
    cbn [app] in Ha;
    destruct (next_ahead cfg lx _ _ Ha) as (lx1 & En & Ha1 & Hf1 & Hb1);
    rewrite En;
    assert (Hb1' : buf lx1 = Some (b ++ [_]))
      by (rewrite Hb1, Hb; destruct b; [contradiction|reflexivity]).
  - rewrite N.eqb_refl. unfold _clear_buf. rewrite Hb1', app_nil_r.
    eexists. split; [reflexivity|]. split; [exact Ha1|].
    split; [|reflexivity]. apply (frame_trans lx lx1); [exact Hf1|].
    repeat split.
  - inversion Hs as [|? ? [Hq Hbs] Hs']; subst. rewrite Hq, Hbs.
    destruct (IH f start_pos q (value_buf ++ [c]) lx1 (b ++ [c]) rest Ha1 Hs'
                Hb1') as (lx' & E & Ha' & Hf' & Hb').
    + destruct b; discriminate.
    + cbn in Hf. lia.
    + exists lx'. rewrite E, <- !app_assoc. split; [reflexivity|].
      split; [exact Ha'|]. split; [|exact Hb'].
      apply (frame_trans lx lx1); assumption.
Qed.

Lemma regular_lexicon_quote (e : TokenType) (sl : bool) (start_pos : nat)
    (q : char) (lx : Lexer) :
  q = DQUOTE \/ q = ord "'" ->
  regular_lexicon cfg e sl start_pos q lx = _do_str cfg start_pos q lx.
Proof. intros [-> | ->]; reflexivity. Qed.

End StringToken.

(** X8: A string literal without backslash decodes to what stands between its
    quotes.  When the characters to come are a quote [q], characters [s]
    that contain neither [q] nor a backslash, and [q] again, [_do_statement]
    returns the string token whose text is the literal with its quotes and
    whose value is [s], and leaves the cursor behind the closing quote. *)
Theorem plain_string_literal (cfg : LexerConfig)
    (terminator : option (list char)) (end_tok_type : TokenType)
    (single_line : bool) (lx : Lexer) (q : char) (s rest : list char) :
  ahead cfg lx (q :: s ++ q :: rest) ->
  q = DQUOTE \/ q = ord "'" ->
  Forall (fun c => N.eqb c q = false /\ eqc c "\" = false) s ->
  begins_with terminator q = false ->
  ignored cfg STR_LIT = false ->
  exists lx',
    _do_statement cfg terminator end_tok_type single_line lx
    = Ok (new_Token STR_LIT (q :: s ++ [q]) (template_pos lx)
            (Some (VStr s)), lx')
    /\ ahead cfg lx' rest /\ frame lx lx' /\ buf lx' = None.
Proof.
  intros Ha Hq Hs Hb Hi.
  destruct (next_ahead cfg lx q _ Ha) as (lx1 & En & Ha1 & Hf1 & _).
  rewrite (_do_statement_lexicon cfg terminator end_tok_type single_line
             lx lx1 q En Hb).
  rewrite (regular_lexicon_quote cfg end_tok_type single_line _ q lx1 Hq).
  unfold _do_str.
  set (lx2 := _start_buf cfg STR_LIT (Some q) lx1).
  assert (Ha2 : ahead cfg lx2 (s ++ q :: rest))
    by (apply ahead_start_buf; exact Ha1).
  assert (Hb2 : buf lx2 = Some [q])
    by (unfold lx2, _start_buf; rewrite Hi; reflexivity).
  destruct (_do_str_loop_ahead cfg s (cursor_fuel cfg lx2) (template_pos lx) q
              [] lx2 [q] rest Ha2 Hs Hb2) as (lx' & E & Ha' & Hf' & Hb').
  - discriminate.
  - pose proof (ahead_fuel cfg lx2 _ Ha2) as Hfu. rewrite length_app in Hfu. lia.
  - exists lx'. split; [exact E|]. split; [exact Ha'|]. split; [|exact Hb'].
    apply (frame_trans lx lx1); [exact Hf1|].
    apply (frame_trans lx1 lx2); [apply frame_start_buf|exact Hf'].
Qed.

Lemma plain_string_literal_witness :
  let cfg := default_config (str "{{ 'a.css' }}") in
  let lx := mkLexer None None 4 [Some (ord "'")] [] 5 None in
  exists lx',
    _do_statement cfg (Some (str "}}")) INLINE_END false lx
    = Ok (new_Token STR_LIT (ord "'" :: str "a.css" ++ [ord "'"])
            (template_pos lx) (Some (VStr (str "a.css"))), lx')
    /\ ahead cfg lx' (str " }}") /\ frame lx lx' /\ buf lx' = None.
Proof.
  intros cfg lx.
  apply (plain_string_literal cfg (Some (str "}}")) INLINE_END false lx
           (ord "'") (str "a.css") (str " }}")).
  - exact (up_buffered (str "{{ 'a.css' }}") 4 (ord "'")).
  - right. reflexivity.
  - repeat constructor.
  - reflexivity.
  - reflexivity.
Defined.

Section WhitespaceToken.

Variable cfg : LexerConfig.

Lemma is_ws_codes (c : char) :
  is_ws (Some c) = true ->
  (c = 32 \/ 9 <= c <= 13 \/ 8192 <= c <= 8202 \/ c = 133 \/ c = 160
   \/ c = 5670 \/ c = 8232 \/ c = 8233 \/ c = 8239 \/ c = 8287
   \/ c = 12288)%N.
Proof.
  unfold is_ws. destruct (_ || _ || _) eqn:E1; intros E.
  - class_arith E1. lia.
  - cbn [existsb] in E. class_arith E. lia.
Qed.

Lemma regular_lexicon_ws (e : TokenType) (sl : bool) (start_pos : nat)
    (c : char) (lx : Lexer) :
  is_ws (Some c) = true ->
  regular_lexicon cfg e sl start_pos c lx
  = ws_loop cfg (cursor_fuel cfg (_start_buf cfg WS (Some c) lx)) e sl
      start_pos (_start_buf cfg WS (Some c) lx).
Proof.
  intros H. unfold regular_lexicon. rewrite H.
  apply is_ws_codes in H.
  assert (Hd : is_digit10 (Some c) = false).
  { destruct (is_digit10 (Some c)) eqn:E; [|reflexivity].
    class_arith E. cbn in E. lia. }
  rewrite Hd. decide_eqc.
  destruct (N.eqb c DQUOTE) eqn:Eq;
    [exfalso; apply N.eqb_eq in Eq; unfold DQUOTE in Eq; lia|].
  cbn [orb]. reflexivity.
Qed.

Lemma collect_idle (b : option (list char)) (c : char) :
  match b with Some (_ :: _) => true | _ => false end = false ->
  collect b c = b.
Proof. destruct b as [[|x r]|]; [reflexivity|discriminate|reflexivity]. Qed.

(** The whitespace run while its text is collected. *)
Lemma ws_loop_ahead (w : list char) :
  forall fuel e sl start_pos lx b rest,
  ahead cfg lx (w ++ rest) ->
  Forall (fun c => is_ws (Some c) = true) w ->
  is_ws (hd_error rest) = false ->
  buf lx = Some b -> b <> [] -> length w < fuel ->
  exists lx',
    ws_loop cfg fuel e sl start_pos lx
    = Ok (new_Token (if sl && ends_with_newline (b ++ w) then e else WS)
            (b ++ w) start_pos None, lx')
    /\ ahead cfg lx' rest /\ frame lx lx' /\ buf lx' = None.
Proof.
  induction w as [|c w IH];
    intros fuel e sl start_pos lx b rest Ha Hw Hr Hb Hne Hf;
    (destruct fuel as [|f]; [cbn in Hf; lia|]); cbn [ws_loop];
    destruct (la_ahead cfg lx _ Ha) as (lx1 & El & Ha1 & Hf1 & Hb1);
    rewrite El; cbn [app hd_error] in *.
  - rewrite Hr. cbn [negb]. unfold _clear_buf. rewrite Hb1, Hb, app_nil_r.
    exists (set_buf lx1 None).
    split; [destruct (sl && ends_with_newline b); reflexivity|].
    split; [exact Ha1|]. split; [|reflexivity].
    apply (frame_trans lx lx1); [exact Hf1|]. repeat split.
  - inversion Hw as [|? ? Hc Hw']; subst. rewrite Hc. cbn [negb].
    destruct (next_ahead cfg lx1 c _ Ha1) as (lx2 & En & Ha2 & Hf2 & Hb2).
    rewrite En. cbn [snd].
    destruct (IH f e sl start_pos lx2 (b ++ [c]) rest Ha2 Hw' Hr)
      as (lx' & E & Ha' & Hf' & Hb').
    + rewrite Hb2, Hb1, Hb. destruct b; [contradiction|reflexivity].
    + destruct b; discriminate.
    + cbn in Hf. lia.
    + exists lx'. rewrite E, <- app_assoc. split; [reflexivity|].
      split; [exact Ha'|]. split; [|exact Hb'].
      apply (frame_trans lx lx1); [exact Hf1|].
      apply (frame_trans lx1 lx2); assumption.
Qed.

(** The whitespace run while no text is collected. *)
Lemma ws_loop_idle (w : list char) :
  forall fuel e sl start_pos lx rest,
  ahead cfg lx (w ++ rest) ->
  Forall (fun c => is_ws (Some c) = true) w ->
  is_ws (hd_error rest) = false ->
  buf_truthy lx = false -> length w < fuel ->
  exists lx',
    ws_loop cfg fuel e sl start_pos lx
    = Ok (new_Token WS [] start_pos None, lx')
    /\ ahead cfg lx' rest /\ frame lx lx' /\ buf lx' = None.
Proof.
  induction w as [|c w IH];
    intros fuel e sl start_pos lx rest Ha Hw Hr Hb Hf;
    (destruct fuel as [|f]; [cbn in Hf; lia|]); cbn [ws_loop];
    destruct (la_ahead cfg lx _ Ha) as (lx1 & El & Ha1 & Hf1 & Hb1);
    rewrite El; cbn [app hd_error] in *;
    assert (Hi1 : buf_truthy lx1 = false)
      by (unfold buf_truthy in *; rewrite Hb1; exact Hb).
  - rewrite Hr. cbn [negb]. rewrite (clear_buf_idle lx1 Hi1).
    rewrite andb_false_r.
    exists (set_buf lx1 None). split; [reflexivity|].
    split; [exact Ha1|]. split; [|reflexivity].
    apply (frame_trans lx lx1); [exact Hf1|]. repeat split.
  - inversion Hw as [|? ? Hc Hw']; subst. rewrite Hc. cbn [negb].
    destruct (next_ahead cfg lx1 c _ Ha1) as (lx2 & En & Ha2 & Hf2 & Hb2).
    rewrite En. cbn [snd].
    destruct (IH f e sl start_pos lx2 rest Ha2 Hw' Hr)
      as (lx' & E & Ha' & Hf' & Hb').
    + unfold buf_truthy in *. rewrite Hb2, (collect_idle _ c Hi1). exact Hi1.
    + cbn in Hf. lia.
    + exists lx'. rewrite E. split; [reflexivity|].
      split; [exact Ha'|]. split; [|exact Hb'].
      apply (frame_trans lx lx1); [exact Hf1|].
      apply (frame_trans lx1 lx2); assumption.
Qed.

End WhitespaceToken.

(** X9: A whitespace token is the longest run of whitespace characters.  When
    the characters to come are whitespace [c w] followed by something else,
    and whitespace tokens are not ignored, [_do_statement] returns a token
    with text [c w]: the statement-end token when the lexer is in a line
    statement and the run ends in a line break, a whitespace token
    otherwise. *)
Theorem whitespace_token (cfg : LexerConfig) (terminator : option (list char))
    (end_tok_type : TokenType) (single_line : bool) (lx : Lexer) (c : char)
    (w rest : list char) :
  ahead cfg lx (c :: w ++ rest) ->
  is_ws (Some c) = true ->
  Forall (fun x => is_ws (Some x) = true) w ->
  is_ws (hd_error rest) = false ->
  begins_with terminator c = false ->
  ignored cfg WS = false ->
  exists lx',
    _do_statement cfg terminator end_tok_type single_line lx
    = Ok (new_Token
            (if single_line && ends_with_newline (c :: w)
             then end_tok_type else WS)
            (c :: w) (template_pos lx) None, lx')
    /\ ahead cfg lx' rest /\ frame lx lx' /\ buf lx' = None.
Proof.
  intros Ha Hc Hw Hr Hb Hi.
  destruct (next_ahead cfg lx c _ Ha) as (lx1 & En & Ha1 & Hf1 & _).
  rewrite (_do_statement_lexicon cfg terminator end_tok_type single_line
             lx lx1 c En Hb).
  rewrite (regular_lexicon_ws cfg end_tok_type single_line _ c lx1 Hc).
  set (lx2 := _start_buf cfg WS (Some c) lx1).
  assert (Ha2 : ahead cfg lx2 (w ++ rest)) by (apply ahead_start_buf; exact Ha1).
  assert (Hb2 : buf lx2 = Some [c])
    by (unfold lx2, _start_buf; rewrite Hi; reflexivity).
  destruct (ws_loop_ahead cfg w (cursor_fuel cfg lx2) end_tok_type single_line
              (template_pos lx) lx2 [c] rest Ha2 Hw Hr Hb2)
    as (lx' & E & Ha' & Hf' & Hb').
  - discriminate.
  - pose proof (ahead_fuel cfg lx2 _ Ha2) as Hfu. rewrite length_app in Hfu. lia.
  - exists lx'. split; [exact E|]. split; [exact Ha'|]. split; [|exact Hb'].
    apply (frame_trans lx lx1); [exact Hf1|].
    apply (frame_trans lx1 lx2); [apply frame_start_buf|exact Hf'].
Qed.

Lemma whitespace_token_witness :
  let cfg := mkConfig (str "# for x" ++ [LF] ++ str "y") None None None None
               None None (Some (str "#")) None [] in
  let lx := mkLexer None None 7 [] [] 3 None in
  exists lx',
    _do_statement cfg None STATEMENT_END true lx
    = Ok (new_Token
            (if true && ends_with_newline (LF :: [])
             then STATEMENT_END else WS)
            (LF :: []) (template_pos lx) None, lx')
    /\ ahead cfg lx' (str "y") /\ frame lx lx' /\ buf lx' = None.
Proof.
  intros cfg lx.
  apply (whitespace_token cfg None STATEMENT_END true lx LF [] (str "y")).
  - exact (up_direct (str "# for x" ++ [LF] ++ str "y") 7).
  - reflexivity.
  - constructor.
  - reflexivity.
  - reflexivity.
  - reflexivity.
Defined.

Section LineStatement.

Variable cfg : LexerConfig.
Hypothesis Hws : ignored cfg WS = true.

Lemma ws_loop_idle_token (fuel : nat) :
  forall e sl start_pos lx lx' t,
  buf_truthy lx = false ->
  ws_loop cfg fuel e sl start_pos lx = Ok (t, lx') ->
  t = new_Token WS [] start_pos None.
Proof.
  induction fuel as [|f IH]; intros e sl start_pos lx lx' t Hb H;
    [discriminate|].
  cbn [ws_loop] in H.
  pose proof (buf_la cfg 1 lx) as Hl.
  destruct (_la cfg 1 lx) as [la lx1]. cbn [snd] in Hl.
  assert (Hb1 : buf_truthy lx1 = false)
    by (rewrite (buf_truthy_eq lx lx1 Hl); exact Hb).
  destruct (negb (is_ws la)).
  - rewrite (clear_buf_idle lx1 Hb1), andb_false_r in H.
    injection H as <- <-. reflexivity.
  - eapply IH; [|exact H].
    rewrite (buf_truthy_eq lx1 _ (buf_next_idle cfg lx1 Hb1)). exact Hb1.
Qed.

Lemma regular_lexicon_no_line_end (sl : bool) (start_pos : nat) (c : char)
    (lx lx' : Lexer) (t : Token) :
  buf_truthy lx = false ->
  regular_lexicon cfg STATEMENT_END sl start_pos c lx = Ok (t, lx') ->
  tok_type t <> STATEMENT_END.
Proof.
  intros Hb H. unfold regular_lexicon in H.
  repeat (break_match_hyp H; try discriminate H);
    try (injection H as <- <-; discriminate);
    try (apply _do_num_kind in H; destruct H as [E|E]; rewrite E; discriminate);
    try (apply _do_str_loop_kind in H; destruct H as [E|E]; rewrite E;
         discriminate);
    try (apply name_loop_kind in H; rewrite H; discriminate).
  apply ws_loop_idle_token in H; [subst t; discriminate|].
  unfold _start_buf. rewrite Hws. exact Hb.
Qed.

End LineStatement.

(** ** What lexing a statement token leaves alone *)

Section StateFrame.

Variable cfg : LexerConfig.

Lemma rest_do_next (lx : Lexer) : rest_of (snd (_do_next cfg lx)) = rest_of lx.
Proof.
  unfold _do_next. destruct (ch_buf lx); [|reflexivity].
  destruct (nth_error _ _); reflexivity.
Qed.

Lemma rest_next (lx : Lexer) : rest_of (snd (_next cfg lx)) = rest_of lx.
Proof.
  unfold _next. pose proof (rest_do_next lx) as H.
  destruct (_do_next cfg lx) as [[c|] lx1]; cbn in *; [|assumption].
  destruct (buf_truthy lx1); assumption.
Qed.

Lemma rest_la_read (n : nat) :
  forall la lx, rest_of (snd (_la_read cfg n la lx)) = rest_of lx.
Proof.
  induction n as [|n IH]; intros la lx; [reflexivity|].
  cbn [_la_read]. pose proof (rest_do_next lx) as H.
  destruct (_do_next cfg lx) as [c lx1]. rewrite IH. exact H.
Qed.

Lemma rest_la (k : nat) (lx : Lexer) :
  rest_of (snd (_la cfg k lx)) = rest_of lx.
Proof.
  unfold _la. destruct k; [reflexivity|].
  destruct (nth_error _ _); [reflexivity|]. apply rest_la_read.
Qed.

Lemma rest_clear_la_loop (n : nat) :
  forall lx, rest_of (_clear_la_loop cfg n lx) = rest_of lx.
Proof.
  induction n as [|n IH]; intros lx; [reflexivity|].
  cbn [_clear_la_loop]. destruct (ch_buf lx); [reflexivity|].
  rewrite IH. apply rest_next.
Qed.

Lemma rest_clear_la (lx : Lexer) : rest_of (_clear_la cfg lx) = rest_of lx.
Proof. apply rest_clear_la_loop. Qed.

Lemma rest_match_rest (rest : list char) :
  forall i lx, rest_of (snd (match_rest cfg rest i lx)) = rest_of lx.
Proof.
  induction rest as [|c rest IH]; intros i lx; [reflexivity|].
  cbn [match_rest]. pose proof (rest_la i lx) as H.
  destruct (_la cfg i lx) as [la lx1].
  destruct (cursor_eqb la (Some c)); [rewrite IH|]; exact H.
Qed.

Lemma rest_start_buf (t : TokenType) (ch : option char) (lx : Lexer) :
  rest_of (_start_buf cfg t ch lx) = rest_of lx.
Proof. unfold _start_buf. destruct (negb _); reflexivity. Qed.

Lemma rest_clear_buf (lx : Lexer) : rest_of (snd (_clear_buf lx)) = rest_of lx.
Proof. reflexivity. Qed.

Lemma rest_terminator_check (terminator : option (list char)) (c : char)
    (lx : Lexer) :
  rest_of (snd (terminator_check cfg terminator c lx)) = rest_of lx.
Proof.
  unfold terminator_check. destruct terminator as [[|t0 rest]|]; try reflexivity.
  destruct (N.eqb c t0); [apply rest_match_rest|reflexivity].
Qed.

(** Turns the equations left by case analysis on a call into equations
    between the untouched attributes. *)
Ltac rest_eqs :=
  repeat match goal with
    | E : _next cfg ?lx = (_, ?lx') |- _ =>
        apply (f_equal snd) in E; apply (f_equal rest_of) in E;
        rewrite rest_next in E; cbn [snd] in E
    | E : _la cfg ?k ?lx = (_, ?lx') |- _ =>
        apply (f_equal snd) in E; apply (f_equal rest_of) in E;
        rewrite rest_la in E; cbn [snd] in E
    | E : match_rest cfg ?r ?i ?lx = (_, ?lx') |- _ =>
        apply (f_equal snd) in E; apply (f_equal rest_of) in E;
        rewrite rest_match_rest in E; cbn [snd] in E
    | E : terminator_check cfg ?t ?c ?lx = (_, ?lx') |- _ =>
        apply (f_equal snd) in E; apply (f_equal rest_of) in E;
        rewrite rest_terminator_check in E; cbn [snd] in E
    | E : _clear_buf ?lx = (_, ?lx') |- _ =>
        apply (f_equal snd) in E; apply (f_equal rest_of) in E;
        rewrite rest_clear_buf in E; cbn [snd] in E
    end;
  repeat match goal with
    | |- context [if ?b then _ else _] => destruct b
    end;
  repeat first
    [ rewrite rest_next in * | rewrite rest_la in *
    | rewrite rest_clear_la in * | rewrite rest_start_buf in *
    | rewrite rest_match_rest in * ].

Lemma rest_num_digits (fuel : nat) :
  forall radix lx lx',
  num_digits cfg fuel radix lx = Ok lx' -> rest_of lx' = rest_of lx.
Proof.
  induction fuel as [|f IH]; intros radix lx lx' H; [discriminate|].
  cbn [num_digits] in H. unfold bind in H.
  repeat (break_match_hyp H; try discriminate H).
  - apply IH in H. rest_eqs. congruence.
  - injection H as <-. rest_eqs. congruence.
Qed.

Lemma rest_do_num_body (start_pos : nat) (ch : char) (lx lx' : Lexer)
    (t : Token) :
  _do_num_body cfg start_pos ch lx = Ok (t, lx') -> rest_of lx' = rest_of lx.
Proof.
  unfold _do_num_body, bind. intros H. crunch;
    repeat match goal with
      | E : num_digits cfg _ _ _ = Ok _ |- _ => apply rest_num_digits in E
      end;
    rest_eqs; cbn in *; congruence.
Qed.

Lemma rest_do_num (start_pos : nat) (ch : char) (lx lx' : Lexer) (t : Token) :
  _do_num cfg start_pos ch lx = Ok (t, lx') -> rest_of lx' = rest_of lx.
Proof.
  unfold _do_num. intros H. crunch;
    repeat match goal with
      | E : _do_num_body cfg _ _ _ = Ok _ |- _ => apply rest_do_num_body in E
      end;
    rest_eqs; cbn in *; congruence.
Qed.

Lemma rest_do_str_loop (fuel : nat) :
  forall start_pos q value_buf lx lx' t,
  _do_str_loop cfg fuel start_pos q value_buf lx = Ok (t, lx') ->
  rest_of lx' = rest_of lx.
Proof.
  induction fuel as [|f IH]; intros start_pos q value_buf lx lx' t H;
    [discriminate|].
  cbn [_do_str_loop] in H. crunch;
    repeat match goal with
      | E : _do_str_loop cfg f _ _ _ _ = Ok _ |- _ => apply IH in E
      end;
    rest_eqs; cbn in *; congruence.
Qed.

Lemma rest_ws_loop (fuel : nat) :
  forall e sl start_pos lx lx' t,
  ws_loop cfg fuel e sl start_pos lx = Ok (t, lx') -> rest_of lx' = rest_of lx.
Proof.
  induction fuel as [|f IH]; intros e sl start_pos lx lx' t H; [discriminate|].
  cbn [ws_loop] in H. crunch;
    repeat match goal with
      | E : ws_loop cfg f _ _ _ _ = Ok _ |- _ => apply IH in E
      end;
    rest_eqs; cbn in *; congruence.
Qed.

Lemma rest_name_loop (fuel : nat) :
  forall start_pos lx lx' t,
  name_loop cfg fuel start_pos lx = Ok (t, lx') -> rest_of lx' = rest_of lx.
Proof.
  induction fuel as [|f IH]; intros start_pos lx lx' t H; [discriminate|].
  cbn [name_loop] in H. crunch;
    repeat match goal with
      | E : name_loop cfg f _ _ = Ok _ |- _ => apply IH in E
      end;
    rest_eqs; cbn in *; congruence.
Qed.

Lemma rest_regular_lexicon (e : TokenType) (sl : bool) (start_pos : nat)
    (c : char) (lx lx' : Lexer) (t : Token) :
  regular_lexicon cfg e sl start_pos c lx = Ok (t, lx') ->
  rest_of lx' = rest_of lx.
Proof.
  unfold regular_lexicon, _do_str. intros H. crunch;
    repeat match goal with
      | E : _do_num cfg _ _ _ = Ok _ |- _ => apply rest_do_num in E
      | E : _do_str_loop cfg _ _ _ _ _ = Ok _ |- _ =>
          apply rest_do_str_loop in E
      | E : ws_loop cfg _ _ _ _ _ = Ok _ |- _ => apply rest_ws_loop in E
      | E : name_loop cfg _ _ _ = Ok _ |- _ => apply rest_name_loop in E
      end;
    rest_eqs; cbn in *; congruence.
Qed.

Lemma rest_do_statement (terminator : option (list char)) (e : TokenType)
    (sl : bool) (lx lx' : Lexer) (t : Token) :
  _do_statement cfg terminator e sl lx = Ok (t, lx') -> rest_of lx' = rest_of lx.
Proof.
  unfold _do_statement. intros H. crunch;
    repeat match goal with
      | E : regular_lexicon cfg _ _ _ _ _ = Ok _ |- _ =>
          apply rest_regular_lexicon in E
      end;
    rest_eqs; cbn in *; congruence.
Qed.

End StateFrame.

(** X10: With whitespace tokens ignored a line statement is never terminated.
    The text of a whitespace run is collected only when whitespace tokens
    are not ignored, so the test for a final line break sees the empty
    text: in state 3 [_next_token] never returns the statement-end token and
    the lexer stays in state 3. *)
Theorem line_statement_never_ends (cfg : LexerConfig) (lx lx' : Lexer)
    (t : Token) :
  ignored cfg WS = true -> state lx = 3 -> buf_truthy lx = false ->
  _next_token cfg lx = Ok (t, lx') ->
  tok_type t <> STATEMENT_END /\ state lx' = 3.
Proof.
  intros Hws Hs Hb H. unfold _next_token in H. rewrite Hs in H. cbn in H.
  destruct (_do_statement cfg None STATEMENT_END true lx) as [[rv lx1]| |] eqn:E;
    cbn [bind] in H; try discriminate.
  assert (Hk : tok_type rv <> STATEMENT_END).
  { unfold _do_statement in E.
    pose proof (buf_next_idle cfg lx Hb) as Hn.
    destruct (_next cfg lx) as [[c|] l]; cbn [snd] in Hn.
    - cbn in E.
      eapply (regular_lexicon_no_line_end cfg Hws); [|exact E].
      rewrite (buf_truthy_eq lx l Hn). exact Hb.
    - injection E as <- <-. discriminate. }
  apply rest_do_statement in E.
  destruct (tt_eqb (tok_type rv) STATEMENT_END) eqn:Ee;
    [apply tt_eqb_true in Ee; contradiction|].
  injection H as <- <-. split; [exact Hk|].
  unfold rest_of in E. congruence.
Qed.

Lemma line_statement_never_ends_witness :
  let cfg := mkConfig (str "# for x" ++ [LF] ++ str "y") None None None None
               None None (Some (str "#")) None [WS] in
  tok_type (new_Token WS [] 7 None) <> STATEMENT_END
  /\ state (mkLexer None None 9 [Some (ord "y")] [] 3 None) = 3.
Proof.
  intros cfg.
  apply (line_statement_never_ends cfg (mkLexer None None 7 [] [] 3 None)
           (mkLexer None None 9 [Some (ord "y")] [] 3 None)
           (new_Token WS [] 7 None)).
  - reflexivity.
  - reflexivity.
  - reflexivity.
  - vm_compute. reflexivity.
Defined.

(** ** Literal text in front of a directive *)

Section Deferral.

Variable text : list char.
Variable base : Lexer.

Let cfg := default_config text.

Lemma la_upcoming_buffered (p : nat) (cb : list cursor_char) (x : char)
    (s : list char) :
  upcoming text p cb (x :: s) ->
  exists p',
    _la cfg 1 (at_cursor base p cb) = (Some x, at_cursor base p' [Some x])
    /\ skipn p' text = s.
Proof.
  intros H. remember (x :: s) as s0 eqn:E0. destruct H as [p|p c0|p E].
  - apply skipn_cons_nth in E0 as [En Es]. exists (S p). split; [|exact Es].
    unfold _la. cbn. unfold _do_next. cbn. rewrite En. reflexivity.
  - injection E0 as -> <-. exists p. split; reflexivity.
  - discriminate.
Qed.

(** At the [{] of a start delimiter the probe matches: the delimiter token
    is returned at once when no literal text is pending, and is deferred
    behind the literal text otherwise. *)
Lemma probe_delimiter (p : nat) (cb : list cursor_char) (d1 : char)
    (rest pending : list char) (start_pos : nat) (k : TokenType) (st : nat) :
  upcoming text p cb (d1 :: rest) ->
  directive_start d1 = Some (k, st) ->
  exists mp p',
    skipn p' text = rest
    /\ probe cfg (start_delimiters cfg) (ord "{") pending start_pos
         (at_cursor base p cb)
       = inl (if nonempty pending
              then (new_Token TEMPLATE_DATA pending start_pos None,
                    mkLexer (Some (new_Token k [ord "{"; d1] mp None))
                      (Some st) p' [] (la_buf base) 6 None)
              else (new_Token k [ord "{"; d1] mp None,
                    mkLexer (buf_tok base) (buf_state base) p' []
                      (la_buf base) st None)).
Proof.
  intros Hu Hk.
  destruct (la_upcoming_buffered p cb d1 rest Hu) as (p' & El & Es).
  unfold directive_start, eqc in Hk.
  unfold start_delimiters, cfg. simpl. fold cfg. rewrite El.
  destruct (N.eqb d1 (ord "%")) eqn:E1.
  - apply N.eqb_eq in E1. subst d1. injection Hk as <- <-.
    exists p, p'. split; [exact Es|].
    destruct pending; reflexivity.
  - destruct (N.eqb d1 (ord "{")) eqn:E2.
    + apply N.eqb_eq in E2. subst d1. injection Hk as <- <-.
      exists p', p'. split; [exact Es|].
      destruct pending; reflexivity.
    + destruct (N.eqb d1 (ord "#")) eqn:E3; [|discriminate].
      apply N.eqb_eq in E3. subst d1. injection Hk as <- <-.
      exists p', p'. split; [exact Es|].
      destruct pending; reflexivity.
Qed.

Lemma hd_error_app_cons (s : list char) (x : char) (r : list char) :
  hd_error (s ++ x :: r) = hd_error (s ++ [x]).
Proof. destruct s; reflexivity. Qed.

Lemma template_loop_until_directive (s : list char) :
  forall fuel p cb pending start_pos d1 rest k st,
  upcoming text p cb (s ++ ord "{" :: d1 :: rest) ->
  has_directive (s ++ [ord "{"]) = false ->
  directive_start d1 = Some (k, st) ->
  length s + 1 < fuel ->
  exists mp p',
    skipn p' text = rest
    /\ template_loop cfg fuel pending start_pos (at_cursor base p cb)
       = Ok (if nonempty (pending ++ s)
             then (new_Token TEMPLATE_DATA (pending ++ s) start_pos None,
                   mkLexer (Some (new_Token k [ord "{"; d1] mp None))
                     (Some st) p' [] (la_buf base) 6 None)
             else (new_Token k [ord "{"; d1] mp None,
                   mkLexer (buf_tok base) (buf_state base) p' []
                     (la_buf base) st None)).
Proof.
  induction s as [|c s IH];
    intros fuel p cb pending start_pos d1 rest k st Hu Hd Hk Hf;
    (destruct fuel as [|f]; [cbn in Hf; lia|]); cbn [template_loop];
    cbn [app] in Hu;
    destruct (next_upcoming text base p cb _ _ Hu) as (p1 & cb1 & En & Hu1);
    fold cfg in En; rewrite En.
  - destruct (probe_delimiter p1 cb1 d1 rest pending start_pos k st Hu1 Hk)
      as (mp & p' & Es & Ep).
    rewrite Ep, app_nil_r. exists mp, p'. split; [exact Es|reflexivity].
  - assert (Hh : c = ord "{" ->
                 hd_error (s ++ ord "{" :: d1 :: rest) <> Some (ord "%")
                 /\ hd_error (s ++ ord "{" :: d1 :: rest) <> Some (ord "{")
                 /\ hd_error (s ++ ord "{" :: d1 :: rest) <> Some (ord "#")).
    { rewrite hd_error_app_cons. apply has_directive_head. exact Hd. }
    destruct (probe_plain text base p1 cb1 _ c pending start_pos Hu1 Hh)
      as (p2 & cb2 & Ep & Hu2).
    fold cfg in Ep. rewrite Ep.
    destruct (IH f p2 cb2 (pending ++ [c]) start_pos d1 rest k st Hu2
                (has_directive_tail c _ Hd) Hk) as (mp & p' & Es & El);
      [cbn in Hf; lia|].
    exists mp, p'. split; [exact Es|]. rewrite El, <- app_assoc. reflexivity.
Qed.

End Deferral.

(** X11: Literal text in front of a directive is flushed first, and the start
    delimiter follows on the next call.  For a text [s {d ...] where [{d] is
    one of [{%], [{{], [{#] and no start delimiter begins inside [s {], the
    first call of [_next_token] returns the template-data token [s] and
    leaves the lexer in state 6; the second call returns the delimiter token
    held back and enters the state of the directive, the cursor standing
    behind the delimiter.  With [s] empty the delimiter token comes at
    once. *)
Theorem literal_before_directive (s rest : list char) (d1 : char)
    (k : TokenType) (st : nat) :
  directive_start d1 = Some (k, st) ->
  has_directive (s ++ [ord "{"]) = false ->
  let cfg := default_config (s ++ ord "{" :: d1 :: rest) in
  (s <> [] ->
   exists mp lx1 lx2,
     _next_token cfg new_lexer = Ok (new_Token TEMPLATE_DATA s 0 None, lx1)
     /\ state lx1 = 6
     /\ _next_token cfg lx1 = Ok (new_Token k [ord "{"; d1] mp None, lx2)
     /\ state lx2 = st /\ ahead cfg lx2 rest
     /\ la_buf lx2 = [] /\ buf lx2 = None /\ buf_tok lx2 = None)
  /\ (s = [] ->
      exists mp lx2,
        _next_token cfg new_lexer = Ok (new_Token k [ord "{"; d1] mp None, lx2)
        /\ state lx2 = st /\ ahead cfg lx2 rest
        /\ la_buf lx2 = [] /\ buf lx2 = None /\ buf_tok lx2 = None).
Proof.
  intros Hk Hd cfg.
  set (text := s ++ ord "{" :: d1 :: rest) in *.
  destruct (template_loop_until_directive text new_lexer s
              (cursor_fuel cfg new_lexer) 0 [] [] 0 d1 rest k st
              (up_direct text 0) Hd Hk) as (mp & p' & Es & El).
  { unfold cursor_fuel, cfg, text. cbn. rewrite length_app. cbn. lia. }
  assert (Ha : forall st', ahead cfg (mkLexer None None p' [] [] st' None) rest).
  { intros st'. unfold ahead. cbn. rewrite <- Es. constructor. }
  cbn [app] in El. split.
  - intros Hne.
    assert (Hs : nonempty s = true) by (destruct s; [contradiction|reflexivity]).
    rewrite Hs in El.
    exists mp. eexists. eexists. split; [exact El|].
    split; [reflexivity|]. split; [reflexivity|].
    split; [reflexivity|]. split; [apply Ha|].
    repeat split.
  - intros ->. cbn [nonempty] in El.
    exists mp. eexists. split; [exact El|].
    split; [reflexivity|]. split; [apply Ha|]. repeat split.
Qed.

Lemma literal_before_directive_witness :
  let cfg := default_config (str "Hello " ++ ord "{" :: ord "{" :: str " x }}") in
  (str "Hello " <> [] ->
   exists mp lx1 lx2,
     _next_token cfg new_lexer
     = Ok (new_Token TEMPLATE_DATA (str "Hello ") 0 None, lx1)
     /\ state lx1 = 6
     /\ _next_token cfg lx1
        = Ok (new_Token INLINE_START [ord "{"; ord "{"] mp None, lx2)
     /\ state lx2 = 5 /\ ahead cfg lx2 (str " x }}")
     /\ la_buf lx2 = [] /\ buf lx2 = None /\ buf_tok lx2 = None)
  /\ (str "Hello " = [] ->
      exists mp lx2,
        _next_token cfg new_lexer
        = Ok (new_Token INLINE_START [ord "{"; ord "{"] mp None, lx2)
        /\ state lx2 = 5 /\ ahead cfg lx2 (str " x }}")
        /\ la_buf lx2 = [] /\ buf lx2 = None /\ buf_tok lx2 = None).
Proof.
  apply (literal_before_directive (str "Hello ") (str " x }}") (ord "{")
           INLINE_START 5).
  - reflexivity.
  - reflexivity.
Defined.

Section NumberToken.

Variable cfg : LexerConfig.

Lemma digit_value_of (radix : Z) (c : char) :
  is_digit (Some c) radix = Ok true ->
  digit_value c = Some (digit_of c) /\ (digit_of c <? radix)%Z = true.
Proof.
  unfold is_digit, digit_value, digit_of.
  destruct (Z.eqb radix 10) eqn:E10; [apply Z.eqb_eq in E10; subst|].
  - intros [= H]. rewrite H. unfold between, ord in H. cbn in H.
    apply andb_true_iff in H as [H1 H2]. unfold ord. cbn.
    rewrite H2. apply N.leb_le in H1, H2. split; [reflexivity|].
    apply Z.ltb_lt. lia.
  - destruct (Z.eqb radix 16) eqn:E16; [apply Z.eqb_eq in E16; subst|].
    + intros [= H]. unfold between, ord in *. cbn in *.
      destruct (N.leb 48 c && N.leb c 57) eqn:Ed.
      * apply andb_true_iff in Ed as [H1 H2]. rewrite H2.
        apply N.leb_le in H1, H2. split; [reflexivity|]. apply Z.ltb_lt. lia.
      * cbn [orb] in H.
        destruct (N.leb 97 c && N.leb c 102) eqn:El.
        -- apply andb_true_iff in El as [H1 H2].
           apply N.leb_le in H1, H2.
           assert (Hz : N.leb c 122 = true) by (apply N.leb_le; lia).
           assert (H9 : N.leb c 57 = false) by (apply N.leb_gt; lia).
           assert (HF : N.leb c 70 = false) by (apply N.leb_gt; lia).
           assert (Ha : N.leb 97 c = true) by (apply N.leb_le; lia).
           rewrite Ha, Hz, H9, HF. split; [reflexivity|]. apply Z.ltb_lt. lia.
        -- cbn [orb] in H. apply andb_true_iff in H as [H1 H2].
           apply N.leb_le in H1, H2.
           assert (Ha : N.leb 97 c = false) by (apply N.leb_gt; lia).
           assert (HA : N.leb 65 c = true) by (apply N.leb_le; lia).
           assert (HZ : N.leb c 90 = true) by (apply N.leb_le; lia).
           assert (H9 : N.leb c 57 = false) by (apply N.leb_gt; lia).
           assert (HF : N.leb c 70 = true) by (apply N.leb_le; lia).
           rewrite Ha, HA, HZ, H9, HF. split; [reflexivity|].
           apply Z.ltb_lt. lia.
    + destruct (Z.eqb radix 8) eqn:E8; [apply Z.eqb_eq in E8; subst|discriminate].
      intros [= H]. unfold between, ord in *. cbn in *.
      apply andb_true_iff in H as [H1 H2]. apply N.leb_le in H1, H2.
      assert (H9 : N.leb c 57 = true) by (apply N.leb_le; lia).
      assert (H0 : N.leb 48 c = true) by (apply N.leb_le; lia).
      rewrite H0, H9. split; [reflexivity|]. apply Z.ltb_lt. lia.
Qed.

Lemma digits_value_numeral (radix : Z) (s : list char) :
  forall acc,
  Forall (fun c => is_digit (Some c) radix = Ok true) s ->
  digits_value radix acc s
  = Some (fold_left (fun a c => (a * radix + digit_of c)%Z) s acc).
Proof.
  induction s as [|c s IH]; intros acc Hs; [reflexivity|].
  inversion Hs as [|? ? Hc Hs']; subst.
  destruct (digit_value_of radix c Hc) as [Hv Hlt].
  cbn [digits_value fold_left]. rewrite Hv, Hlt. apply IH. exact Hs'.
Qed.

Lemma num_digits_ahead (radix : Z) (w : list char) :
  forall fuel lx b rest,
  ahead cfg lx (w ++ rest) ->
  Forall (fun c => is_digit (Some c) radix = Ok true) w ->
  is_digit (hd_error rest) radix = Ok false ->
  buf lx = Some b -> b <> [] -> length w < fuel ->
  exists lx',
    num_digits cfg fuel radix lx = Ok lx'
    /\ ahead cfg lx' rest /\ frame lx lx' /\ buf lx' = Some (b ++ w).
Proof.
  induction w as [|c w IH]; intros fuel lx b rest Ha Hw Hr Hb Hne Hf;
    (destruct fuel as [|f]; [cbn in Hf; lia|]); cbn [num_digits];
    destruct (la_ahead cfg lx _ Ha) as (lx1 & El & Ha1 & Hf1 & Hb1);
    rewrite El; cbn [app hd_error] in *.
  - rewrite Hr. cbn [bind]. exists lx1. split; [reflexivity|].
    split; [exact Ha1|]. split; [exact Hf1|].
    rewrite Hb1, Hb, app_nil_r. reflexivity.
  - inversion Hw as [|? ? Hc Hw']; subst. rewrite Hc. cbn [bind].
    destruct (next_ahead cfg lx1 c _ Ha1) as (lx2 & En & Ha2 & Hf2 & Hb2).
    rewrite En. cbn [snd].
    destruct (IH f lx2 (b ++ [c]) rest Ha2 Hw' Hr) as (lx' & E & Ha' & Hf' & Hb').
    + rewrite Hb2, Hb1, Hb. destruct b; [contradiction|reflexivity].
    + destruct b; discriminate.
    + cbn in Hf. lia.
    + exists lx'. split; [exact E|]. split; [exact Ha'|].
      split; [|rewrite Hb', <- app_assoc; reflexivity].
      apply (frame_trans lx lx1); [exact Hf1|].
      apply (frame_trans lx1 lx2); assumption.
Qed.

Lemma digit10_is_digit (ch : cursor_char) :
  is_digit ch 10 = Ok (is_digit10 ch).
Proof. destruct ch; reflexivity. Qed.

Lemma regular_lexicon_digit (e : TokenType) (sl : bool) (start_pos : nat)
    (c : char) (lx : Lexer) :
  is_digit10 (Some c) = true ->
  regular_lexicon cfg e sl start_pos c lx = _do_num_body cfg start_pos c
    (_start_buf cfg NUM_LIT (Some c) lx).
Proof.
  intros H. unfold regular_lexicon. rewrite H.
  assert (Hr : (48 <= c <= 57)%N).
  { class_arith H. cbn in H. lia. }
  decide_eqc.
  destruct (N.eqb c DQUOTE) eqn:Eq;
    [exfalso; apply N.eqb_eq in Eq; unfold DQUOTE in Eq; lia|].
  cbn [orb]. unfold _do_num. decide_eqc. reflexivity.
Qed.

Lemma py_int_decimal (c : char) (w : list char) :
  Forall (fun x => is_digit10 (Some x) = true) (c :: w) ->
  py_int (c :: w) 10 = Ok (numeral 10 (c :: w)).
Proof.
  intros H.
  assert (Hd : Forall (fun x => is_digit (Some x) 10 = Ok true) (c :: w)).
  { eapply Forall_impl; [|exact H]. intros x Hx.
    rewrite digit10_is_digit, Hx. reflexivity. }
  inversion H as [|? ? Hc _]; subst.
  assert (Hr : (48 <= c <= 57)%N) by (class_arith Hc; cbn in Hc; lia).
  unfold py_int, strip_sign. decide_eqc.
  assert (Es : strip_radix_prefix 10 (c :: w) = c :: w).
  { unfold strip_radix_prefix. destruct w as [|x w']; [reflexivity|].
    cbn. rewrite andb_false_r. reflexivity. }
  rewrite Es, (digits_value_numeral 10 (c :: w) 0%Z Hd).
  unfold numeral. f_equal. lia.
Qed.

Lemma not_radix_letter (la : cursor_char) :
  is_digit10 la = true \/ is_alphanum la = false ->
  is_ch la "x" || is_ch la "X" = false
  /\ is_ch la "b" || is_ch la "B" = false
  /\ is_ch la "o" || is_ch la "O" = false
  /\ is_ch la "e" || is_ch la "E" = false.
Proof.
  destruct la as [c|]; [|repeat split].
  intros H.
  assert (Hn : ~ ((65 <= c <= 90)%N \/ (97 <= c <= 122)%N)).
  { destruct H as [H|H]; class_arith H; cbn in H; lia. }
  unfold is_ch. repeat split; decide_eqc; reflexivity.
Qed.

Lemma radix_of_prefix_cases (p : char) (radix : Z) :
  radix_of_prefix p = Some radix ->
  (radix = 16%Z /\ (p = ord "x" \/ p = ord "X"))
  \/ (radix = 8%Z /\ (p = ord "o" \/ p = ord "O")).
Proof.
  unfold radix_of_prefix, eqc.
  destruct (N.eqb p (ord "x")) eqn:E1;
    [apply N.eqb_eq in E1; intros [= <-]; auto|].
  destruct (N.eqb p (ord "X")) eqn:E2;
    [apply N.eqb_eq in E2; intros [= <-]; auto|].
  destruct (N.eqb p (ord "o")) eqn:E3;
    [apply N.eqb_eq in E3; intros [= <-]; auto|].
  destruct (N.eqb p (ord "O")) eqn:E4;
    [apply N.eqb_eq in E4; intros [= <-]; auto|].
  discriminate.
Qed.

Lemma radix_prefix_tests (p : char) (radix : Z) (a b : Lexer) :
  radix_of_prefix p = Some radix ->
  (if is_ch (Some p) "x" || is_ch (Some p) "X" then (16%Z, a)
   else if is_ch (Some p) "b" || is_ch (Some p) "B" then (2%Z, a)
   else if is_ch (Some p) "o" || is_ch (Some p) "O" then (8%Z, a)
   else (10%Z, b)) = (radix, a)
  /\ negb (Z.eqb radix 10) = true
  /\ (forall w, strip_radix_prefix radix (ord "0" :: p :: w) = w).
Proof.
  intros H.
  destruct (radix_of_prefix_cases p radix H) as [[-> [-> | ->]] | [-> [-> | ->]]];
    repeat split.
Qed.

End NumberToken.

(** X12: A run of decimal digits is one integer literal.  When the characters
    to come are decimal digits followed by something that is neither an
    identifier character nor a dot, [_do_statement] returns the number token
    whose text is the digits and whose value is the integer they denote, and
    leaves the cursor in front of the rest.  ([int()] of CPython refuses
    decimal strings of more than 4300 digits unless configured otherwise;
    the statement stays within that length.) *)
Theorem decimal_integer_literal (cfg : LexerConfig)
    (terminator : option (list char)) (end_tok_type : TokenType)
    (single_line : bool) (lx : Lexer) (c : char) (w rest : list char) :
  ahead cfg lx (c :: w ++ rest) ->
  Forall (fun x => is_digit10 (Some x) = true) (c :: w) ->
  is_alphanum (hd_error rest) = false ->
  is_ch (hd_error rest) "." = false ->
  length (c :: w) <= 4300 ->
  begins_with terminator c = false ->
  ignored cfg NUM_LIT = false ->
  exists lx',
    _do_statement cfg terminator end_tok_type single_line lx
    = Ok (new_Token NUM_LIT (c :: w) (template_pos lx)
            (Some (VInt (numeral 10 (c :: w)))), lx')
    /\ ahead cfg lx' rest /\ frame lx lx' /\ buf lx' = None.
Proof.
  intros Ha Hd Hr Hdot _ Hb Hi.
  pose proof Hd as Hd0. inversion Hd0 as [|? ? Hc Hw]; subst.
  destruct (next_ahead cfg lx c _ Ha) as (lx1 & En & Ha1 & Hf1 & _).
  rewrite (_do_statement_lexicon cfg terminator end_tok_type single_line
             lx lx1 c En Hb).
  rewrite (regular_lexicon_digit cfg end_tok_type single_line _ c lx1 Hc).
  set (lx2 := _start_buf cfg NUM_LIT (Some c) lx1).
  assert (Ha2 : ahead cfg lx2 (w ++ rest)) by (apply ahead_start_buf; exact Ha1).
  assert (Hb2 : buf lx2 = Some [c])
    by (unfold lx2, _start_buf; rewrite Hi; reflexivity).
  assert (Hf2 : frame lx lx2).
  { apply (frame_trans lx lx1); [exact Hf1|apply frame_start_buf]. }
  clearbody lx2.
  assert (Hrd : is_digit10 (hd_error rest) = false).
  { destruct rest as [|x r]; [reflexivity|]. cbn [hd_error] in *.
    destruct (is_digit10 (Some x)) eqn:E; [|reflexivity].
    class_arith Hr. class_arith E. cbn in *. lia. }
  assert (Hla : is_digit10 (hd_error (w ++ rest)) = true
                \/ is_alphanum (hd_error (w ++ rest)) = false).
  { destruct w as [|x w']; [right; exact Hr|left].
    inversion Hw; subst. assumption. }
  unfold _do_num_body.
  assert (Hr9 : (48 <= c <= 57)%N) by (class_arith Hc; cbn in Hc; lia).
  destruct (eqc c ".") eqn:Edot;
    [exfalso; unfold eqc, ord in Edot; cbn in Edot; apply N.eqb_eq in Edot; lia|].
  assert (Hpre : exists lx3,
    (if eqc c "0" then
       let (la, lxa) := _la cfg 1 lx2 in
       if is_ch la "x" || is_ch la "X" then (16%Z, snd (_next cfg lxa))
       else if is_ch la "b" || is_ch la "B" then (2%Z, snd (_next cfg lxa))
       else if is_ch la "o" || is_ch la "O" then (8%Z, snd (_next cfg lxa))
       else (10%Z, lxa)
     else (10%Z, lx2)) = (10%Z, lx3)
    /\ ahead cfg lx3 (w ++ rest) /\ frame lx2 lx3 /\ buf lx3 = Some [c]).
  { destruct (eqc c "0").
    - destruct (la_ahead cfg lx2 _ Ha2) as (lxa & El & Haa & Hfa & Hba).
      rewrite El.
      destruct (not_radix_letter _ Hla) as (Hx & Hbb & Ho & _).
      rewrite Hx, Hbb, Ho. exists lxa. split; [reflexivity|].
      split; [exact Haa|]. split; [exact Hfa|]. rewrite Hba. exact Hb2.
    - exists lx2. split; [reflexivity|]. split; [exact Ha2|].
      split; [apply frame_refl|exact Hb2]. }
  destruct Hpre as (lx3 & -> & Ha3 & Hf3 & Hb3).
  destruct (num_digits_ahead cfg 10 w (cursor_fuel cfg lx3) lx3 [c] rest Ha3)
    as (lx4 & E4 & Ha4 & Hf4 & Hb4).
  - eapply Forall_impl; [|exact Hw]. intros x Hx.
    rewrite digit10_is_digit, Hx. reflexivity.
  - rewrite digit10_is_digit, Hrd. reflexivity.
  - exact Hb3.
  - discriminate.
  - pose proof (ahead_fuel cfg lx3 _ Ha3) as Hfu. rewrite length_app in Hfu. lia.
  - rewrite E4. cbn [bind Z.eqb Pos.eqb negb].
    destruct (la_ahead cfg lx4 _ Ha4) as (lx5 & E5 & Ha5 & Hf5 & Hb5).
    rewrite E5, Hdot. cbn [bind].
    destruct (la_ahead cfg lx5 _ Ha5) as (lx6 & E6 & Ha6 & Hf6 & Hb6).
    rewrite E6.
    destruct (not_radix_letter (hd_error rest) (or_intror Hr)) as (_ & _ & _ & He).
    rewrite He. cbn [bind].
    unfold _clear_buf. rewrite Hb6, Hb5, Hb4. cbn [app].
    rewrite (py_int_decimal c w Hd). cbn [bind].
    eexists. split; [reflexivity|]. split; [exact Ha6|].
    split; [|reflexivity].
    apply (frame_trans lx lx2); [exact Hf2|].
    apply (frame_trans lx2 lx3); [exact Hf3|].
    apply (frame_trans lx3 lx4); [exact Hf4|].
    apply (frame_trans lx4 lx5); [exact Hf5|].
    apply (frame_trans lx5 lx6); [exact Hf6|]. repeat split.
Qed.

Lemma decimal_integer_literal_witness :
  let cfg := default_config (str "{{ 42 }}") in
  let lx := mkLexer None None 3 [] [] 5 None in
  exists lx',
    _do_statement cfg (Some (str "}}")) INLINE_END false lx
    = Ok (new_Token NUM_LIT (ord "4" :: str "2") (template_pos lx)
            (Some (VInt (numeral 10 (ord "4" :: str "2")))), lx')
    /\ ahead cfg lx' (str " }}") /\ frame lx lx' /\ buf lx' = None.
Proof.
  intros cfg lx.
  apply (decimal_integer_literal cfg (Some (str "}}")) INLINE_END false lx
           (ord "4") (str "2") (str " }}")).
  - exact (up_direct (str "{{ 42 }}") 3).
  - repeat constructor.
  - reflexivity.
  - reflexivity.
  - cbn. lia.
  - reflexivity.
  - reflexivity.
Defined.

(** X13: Hexadecimal and octal literals.  When the characters to come are [0],
    then [x] or [X] (radix 16) or [o] or [O] (radix 8), then digits [w] of
    that radix, then something that is no digit of it: with [w] not empty,
    [_do_statement] returns the number token whose text is the whole literal
    and whose value is the integer the digits denote; with no digit after
    the prefix, [int()] raises [ValueError]. *)
Theorem radix_integer_literal (cfg : LexerConfig)
    (terminator : option (list char)) (end_tok_type : TokenType)
    (single_line : bool) (lx : Lexer) (p : char) (radix : Z)
    (w rest : list char) :
  ahead cfg lx (ord "0" :: p :: w ++ rest) ->
  radix_of_prefix p = Some radix ->
  Forall (fun x => is_digit (Some x) radix = Ok true) w ->
  is_digit (hd_error rest) radix = Ok false ->
  begins_with terminator (ord "0") = false ->
  ignored cfg NUM_LIT = false ->
  (w <> [] ->
   exists lx',
     _do_statement cfg terminator end_tok_type single_line lx
     = Ok (new_Token NUM_LIT (ord "0" :: p :: w) (template_pos lx)
             (Some (VInt (numeral radix w))), lx')
     /\ ahead cfg lx' rest /\ frame lx lx' /\ buf lx' = None)
  /\ (w = [] ->
      _do_statement cfg terminator end_tok_type single_line lx
      = Raise (ValueError "invalid literal for int()")).
Proof.
  intros Ha Hp Hw Hr Hb Hi.
  destruct (next_ahead cfg lx _ _ Ha) as (lx1 & En & Ha1 & Hf1 & _).
  rewrite (_do_statement_lexicon cfg terminator end_tok_type single_line
             lx lx1 _ En Hb).
  rewrite (regular_lexicon_digit cfg end_tok_type single_line _ (ord "0")
             lx1 eq_refl).
  set (lx2 := _start_buf cfg NUM_LIT (Some (ord "0")) lx1).
  assert (Ha2 : ahead cfg lx2 (p :: w ++ rest))
    by (apply ahead_start_buf; exact Ha1).
  assert (Hb2 : buf lx2 = Some [ord "0"])
    by (unfold lx2, _start_buf; rewrite Hi; reflexivity).
  assert (Hf2 : frame lx lx2).
  { apply (frame_trans lx lx1); [exact Hf1|apply frame_start_buf]. }
  clearbody lx2.
  unfold _do_num_body.
  change (eqc (ord "0") ".") with false. change (eqc (ord "0") "0") with true.
  cbv iota.
  destruct (la_ahead cfg lx2 _ Ha2) as (lxa & El & Haa & Hfa & Hba).
  rewrite El. cbn [hd_error].
  destruct (next_ahead cfg lxa p _ Haa) as (lx3 & E3 & Ha3 & Hf3 & Hb3).
  destruct (radix_prefix_tests p radix (snd (_next cfg lxa)) lxa Hp)
    as (Et & Hn & Hs).
  rewrite Et, E3. cbn [snd].
  assert (Hb3' : buf lx3 = Some [ord "0"; p])
    by (rewrite Hb3, Hba, Hb2; reflexivity).
  destruct (num_digits_ahead cfg radix w (cursor_fuel cfg lx3) lx3
              [ord "0"; p] rest Ha3 Hw Hr Hb3') as (lx4 & E4 & Ha4 & Hf4 & Hb4).
  - discriminate.
  - pose proof (ahead_fuel cfg lx3 _ Ha3) as Hfu. rewrite length_app in Hfu. lia.
  - rewrite E4. cbn [bind]. rewrite Hn.
    unfold _clear_buf. rewrite Hb4. cbn [app].
    unfold py_int, strip_sign.
    change (eqc (ord "0") "-") with false.
    change (eqc (ord "0") "+") with false. cbv iota.
    rewrite Hs. split.
    + intros Hne. pose proof (digits_value_numeral radix w 0%Z Hw) as Hv.
      fold (numeral radix w) in Hv.
      destruct w as [|x w']; [contradiction|]. rewrite Hv. cbn [bind].
      replace (1 * numeral radix (x :: w'))%Z with (numeral radix (x :: w'))
        by lia.
      eexists. split; [reflexivity|]. split; [exact Ha4|].
      split; [|reflexivity].
      apply (frame_trans lx lx2); [exact Hf2|].
      apply (frame_trans lx2 lxa); [exact Hfa|].
      apply (frame_trans lxa lx3); [exact Hf3|].
      apply (frame_trans lx3 lx4); [exact Hf4|]. repeat split.
    + intros ->. reflexivity.
Qed.

Lemma radix_integer_literal_witness :
  let cfg := default_config (str "{{ 0x1F }}") in
  let lx := mkLexer None None 3 [] [] 5 None in
  (str "1F" <> [] ->
   exists lx',
     _do_statement cfg (Some (str "}}")) INLINE_END false lx
     = Ok (new_Token NUM_LIT (ord "0" :: ord "x" :: str "1F") (template_pos lx)
             (Some (VInt (numeral 16 (str "1F")))), lx')
     /\ ahead cfg lx' (str " }}") /\ frame lx lx' /\ buf lx' = None)
  /\ (str "1F" = [] ->
      _do_statement cfg (Some (str "}}")) INLINE_END false lx
      = Raise (ValueError "invalid literal for int()")).
Proof.
  intros cfg lx.
  apply (radix_integer_literal cfg (Some (str "}}")) INLINE_END false lx
           (ord "x") 16 (str "1F") (str " }}")).
  - exact (up_direct (str "{{ 0x1F }}") 3).
  - reflexivity.
  - repeat constructor.
  - reflexivity.
  - reflexivity.
  - reflexivity.
Defined.

Section EndDelimiter.

Variable cfg : LexerConfig.

Lemma la_clear_ahead (lx : Lexer) (c : char) (s : list char) :
  ahead cfg lx (c :: s) ->
  exists lx2 lx3,
    _la cfg 1 lx = (Some c, lx2) /\ _clear_la cfg lx2 = lx3
    /\ ahead cfg lx3 s /\ frame lx lx3 /\ buf lx3 = collect (buf lx) c.
Proof.
  destruct lx as [bt bs pos cb lab st b]. unfold ahead. cbn.
  intros H. remember (c :: s) as s0 eqn:E0.
  destruct H as [p|p c0|p E].
  - apply skipn_cons_nth in E0 as [En Es].
    eexists. eexists. split.
    + unfold _la. cbn. unfold _do_next. cbn. rewrite En. reflexivity.
    + unfold _clear_la, _next, _do_next, buf_truthy. cbn.
      destruct b as [[|x r]|]; (split; [reflexivity|]); cbn;
        (split; [rewrite <- Es; constructor|]); (split; [repeat split|]);
        reflexivity.
  - injection E0 as -> <-.
    eexists. eexists. split; [reflexivity|].
    unfold _clear_la, _next, _do_next, buf_truthy. cbn.
    destruct b as [[|x r]|]; (split; [reflexivity|]); cbn;
      (split; [constructor|]); (split; [repeat split|]); reflexivity.
  - discriminate.
Qed.

Lemma collect_falsy (b : option (list char)) (c : char) :
  match b with Some (_ :: _) => true | _ => false end = false ->
  collect b c = b.
Proof. destruct b as [[|x r]|]; [reflexivity|discriminate|reflexivity]. Qed.

Lemma _do_statement_terminator (e : TokenType) (sl : bool) (lx : Lexer)
    (t0 t1 : char) (rest : list char) :
  ahead cfg lx (t0 :: t1 :: rest) -> buf_truthy lx = false ->
  exists lx',
    _do_statement cfg (Some [t0; t1]) e sl lx
    = Ok (new_Token e [] (template_pos lx) None, lx')
    /\ ahead cfg lx' rest /\ frame lx lx' /\ buf lx' = None.
Proof.
  intros Ha Hb.
  destruct (next_ahead cfg lx t0 _ Ha) as (lx1 & En & Ha1 & Hf1 & Hb1).
  destruct (la_clear_ahead lx1 t1 rest Ha1)
    as (lx2 & lx3 & El & Ec & Ha3 & Hf3 & Hb3).
  unfold _do_statement, terminator_check. rewrite En, N.eqb_refl.
  cbn [match_rest]. rewrite El. cbn [cursor_eqb]. rewrite N.eqb_refl, Ec.
  unfold buf_truthy in Hb.
  rewrite (collect_falsy _ t0 Hb) in Hb1. rewrite Hb1 in Hb3.
  rewrite (collect_falsy _ t1 Hb) in Hb3.
  unfold _clear_buf. rewrite Hb3.
  assert (Et : match buf lx with Some b => b | None => [] end = []).
  { destruct (buf lx) as [[|x r]|]; [reflexivity|discriminate|reflexivity]. }
  rewrite Et. eexists. split; [reflexivity|]. split; [exact Ha3|].
  split; [|reflexivity].
  apply (frame_trans lx lx1); [exact Hf1|].
  apply (frame_trans lx1 lx3); [exact Hf3|]. repeat split.
Qed.

End EndDelimiter.

(** X14: The end delimiter of a directive.  In a block statement (state 1) or an
    inline expression (state 5), with no token text pending and the
    two-character end delimiter of that state next in the text,
    [_next_token] returns the end token of the state, consumes the
    delimiter and goes back to template text (state 0).  The token's text
    is empty, not the delimiter: no token text was being collected while the
    delimiter was read. *)
Theorem directive_end_token (cfg : LexerConfig) (lx : Lexer) (t0 t1 : char)
    (rest : list char) (e : TokenType) :
  ahead cfg lx (t0 :: t1 :: rest) ->
  buf_truthy lx = false ->
  (state lx = 1 /\ block_end cfg = Some [t0; t1] /\ e = STATEMENT_END)
  \/ (state lx = 5 /\ inline_end cfg = Some [t0; t1] /\ e = INLINE_END) ->
  exists lx',
    _next_token cfg lx = Ok (new_Token e [] (template_pos lx) None, lx')
    /\ state lx' = 0 /\ ahead cfg lx' rest
    /\ la_buf lx' = la_buf lx /\ buf lx' = None.
Proof.
  intros Ha Hb Hs.
  assert (Hg : forall sl,
    exists lx',
      _do_statement cfg (Some [t0; t1]) e sl lx
      = Ok (new_Token e [] (template_pos lx) None, lx')
      /\ ahead cfg lx' rest /\ frame lx lx' /\ buf lx' = None).
  { intros sl. apply _do_statement_terminator; assumption. }
  unfold _next_token.
  destruct Hs as [(Hst & Ht & ->) | (Hst & Ht & ->)]; rewrite Hst, Ht;
    cbn [Nat.eqb orb];
    destruct (Hg false) as (lx1 & E1 & Ha1 & (Hl & _) & Hb1);
    rewrite E1; cbn [bind tok_type new_Token];
    (exists (set_state lx1 0)); (split; [reflexivity|]);
    (split; [reflexivity|]); (split; [exact Ha1|]);
    (split; [exact Hl|exact Hb1]).
Qed.

Lemma directive_end_token_witness :
  let cfg := default_config (str "{{ x }}y") in
  let lx := mkLexer None None 6 [Some (ord "}")] [] 5 None in
  exists lx',
    _next_token cfg lx = Ok (new_Token INLINE_END [] (template_pos lx) None, lx')
    /\ state lx' = 0 /\ ahead cfg lx' (str "y")
    /\ la_buf lx' = la_buf lx /\ buf lx' = None.
Proof.
  intros cfg lx.
  apply (directive_end_token cfg lx (ord "}") (ord "}") (str "y") INLINE_END).
  - exact (up_buffered (str "{{ x }}y") 6 (ord "}")).
  - reflexivity.
  - right. repeat split.
Defined.

Section UnterminatedString.

Variable cfg : LexerConfig.

Lemma next_ahead_end (lx : Lexer) :
  ahead cfg lx [] ->
  exists lx1,
    _next cfg lx = (None, lx1) /\ ahead cfg lx1 [] /\ frame lx lx1
    /\ buf lx1 = buf lx.
Proof.
  destruct lx as [bt bs pos cb lab st b]. unfold ahead. cbn.
  intros H. set (s0 := @nil char) in H.
  assert (E0 : s0 = []) by reflexivity. clearbody s0.
  destruct H as [p|p c0|p E].
  - eexists. split.
    + unfold _next, _do_next. cbn. rewrite (skipn_nil_nth _ _ E0). reflexivity.
    + split; [cbn; rewrite <- E0; constructor|]. split; [repeat split|reflexivity].
  - discriminate.
  - eexists. split; [reflexivity|]. cbn.
    split; [rewrite <- E; constructor|]. split; [repeat split|reflexivity].
Qed.

Lemma _do_str_loop_unterminated (s : list char) :
  forall fuel start_pos q value_buf lx,
  ahead cfg lx s ->
  Forall (fun c => N.eqb c q = false /\ eqc c "\" = false) s ->
  length s < fuel ->
  exists lx',
    _do_str_loop cfg fuel start_pos q value_buf lx = Ok (eof_token lx', lx')
    /\ ahead cfg lx' [] /\ frame lx lx'.
Proof.
  induction s as [|c s IH]; intros fuel start_pos q value_buf lx Ha Hs Hf;
    (destruct fuel as [|f]; [cbn in Hf; lia|]); cbn [_do_str_loop].
  - destruct (next_ahead_end lx Ha) as (lx1 & En & Ha1 & Hf1 & _).
    rewrite En. exists lx1. split; [reflexivity|]. split; assumption.
  - destruct (next_ahead cfg lx _ _ Ha) as (lx1 & En & Ha1 & Hf1 & _).
    rewrite En. inversion Hs as [|? ? [Hq Hbs] Hs']; subst. rewrite Hq, Hbs.
    destruct (IH f start_pos q (value_buf ++ [c]) lx1 Ha1 Hs')
      as (lx' & E & Ha' & Hf').
    + cbn in Hf. lia.
    + exists lx'. split; [exact E|]. split; [exact Ha'|].
      apply (frame_trans lx lx1); assumption.
Qed.

End UnterminatedString.

(** X15: An unterminated string literal is not reported.  When the characters
    to come are a quote [q] and then, up to the end of the text, characters
    that are neither [q] nor a backslash, [_do_statement] raises nothing: it
    returns the end-of-text token, with the cursor at the end of the
    text. *)
Theorem unterminated_string_literal (cfg : LexerConfig)
    (terminator : option (list char)) (end_tok_type : TokenType)
    (single_line : bool) (lx : Lexer) (q : char) (s : list char) :
  ahead cfg lx (q :: s) ->
  q = DQUOTE \/ q = ord "'" ->
  Forall (fun c => N.eqb c q = false /\ eqc c "\" = false) s ->
  begins_with terminator q = false ->
  exists lx',
    _do_statement cfg terminator end_tok_type single_line lx
    = Ok (eof_token lx', lx')
    /\ ahead cfg lx' [] /\ frame lx lx'.
Proof.
  intros Ha Hq Hs Hb.
  destruct (next_ahead cfg lx q _ Ha) as (lx1 & En & Ha1 & Hf1 & _).
  rewrite (_do_statement_lexicon cfg terminator end_tok_type single_line
             lx lx1 q En Hb).
  rewrite (regular_lexicon_quote cfg end_tok_type single_line _ q lx1 Hq).
  unfold _do_str.
  set (lx2 := _start_buf cfg STR_LIT (Some q) lx1).
  assert (Ha2 : ahead cfg lx2 s) by (apply ahead_start_buf; exact Ha1).
  destruct (_do_str_loop_unterminated cfg s (cursor_fuel cfg lx2)
              (template_pos lx) q [] lx2 Ha2 Hs) as (lx' & E & Ha' & Hf').
  - pose proof (ahead_fuel cfg lx2 _ Ha2) as Hfu. lia.
  - exists lx'. split; [exact E|]. split; [exact Ha'|].
    apply (frame_trans lx lx1); [exact Hf1|].
    apply (frame_trans lx1 lx2); [apply frame_start_buf|exact Hf'].
Qed.

Lemma unterminated_string_literal_witness :
  let cfg := default_config (str "{{ 'abc }}") in
  let lx := mkLexer None None 3 [] [] 5 None in
  exists lx',
    _do_statement cfg (Some (str "}}")) INLINE_END false lx
    = Ok (eof_token lx', lx')
    /\ ahead cfg lx' [] /\ frame lx lx'.
Proof.
  intros cfg lx.
  apply (unterminated_string_literal cfg (Some (str "}}")) INLINE_END false lx
           (ord "'") (str "abc }}")).
  - exact (up_direct (str "{{ 'abc }}") 3).
  - right. reflexivity.
  - repeat constructor.
  - reflexivity.
Defined.

Section InlineCollects.

Variable cfg : LexerConfig.

Lemma tt_eqb_neq (a b : TokenType) : a <> b -> tt_eqb a b = false.
Proof. unfold tt_eqb. destruct (TokenType_eq_dec a b); [contradiction|auto]. Qed.

Lemma tt_eqb_eq (a b : TokenType) : a = b -> tt_eqb a b = true.
Proof. unfold tt_eqb. destruct (TokenType_eq_dec a b); [auto|contradiction]. Qed.

Lemma next_tokens_cons (fuel n : nat) (lx lx' : Lexer) (t : Token)
    (ts : list Token) :
  next_tokens cfg fuel (S n) lx = Ok (t :: ts, lx') ->
  exists lx1,
    next_token cfg fuel lx = Ok (t, lx1)
    /\ next_tokens cfg fuel n lx1 = Ok (ts, lx').
Proof.
  cbn [next_tokens]. unfold bind.
  destruct (next_token cfg fuel lx) as [[t1 lx1]| |]; try discriminate.
  destruct (next_tokens cfg fuel n lx1) as [[ts1 lx2]| |] eqn:E;
    try discriminate.
  intros H. injection H as <- <- <-. exists lx1. split; [reflexivity|exact E].
Qed.

Lemma next_token_more (fuel fuel' : nat) (lx lx1 : Lexer) (t : Token) :
  next_token cfg fuel lx = Ok (t, lx1) -> fuel <= fuel' ->
  next_token cfg fuel' lx = Ok (t, lx1).
Proof.
  intros H Hle. rewrite <- H. apply next_token_mono; [|exact Hle].
  rewrite H. discriminate.
Qed.

Lemma inline_loop_collects (body : list Token) :
  forall fuel f acc lx lx' t_end,
  next_tokens cfg fuel (S (length body)) lx = Ok (body ++ [t_end], lx') ->
  Forall (fun t => tok_type t <> INLINE_END) body ->
  tok_type t_end = INLINE_END ->
  fuel + length body < f ->
  inline_loop cfg f acc lx = Ok (acc ++ body, lx').
Proof.
  induction body as [|b body IH]; intros fuel f acc lx lx' t_end Hn Hb He Hf;
    (destruct f as [|f]; [lia|]); cbn [inline_loop];
    cbn [app length] in Hn; apply next_tokens_cons in Hn as (lx1 & E1 & Hn).
  - rewrite (next_token_more fuel f lx lx1 t_end E1) by lia. cbn [bind].
    rewrite (tt_eqb_eq _ _ He). cbn in Hn. injection Hn as <-.
    rewrite app_nil_r. reflexivity.
  - rewrite (next_token_more fuel f lx lx1 b E1) by (cbn in Hf; lia).
    cbn [bind]. inversion Hb as [|? ? Hb1 Hb']; subst.
    rewrite (tt_eqb_neq _ _ Hb1).
    rewrite (IH fuel f (acc ++ [b]) lx1 lx' t_end Hn Hb' He)
      by (cbn in Hf; lia).
    rewrite <- app_assoc. reflexivity.
Qed.

End InlineCollects.

(** X16: [inline] collects the tokens up to the first end token.  When the
    next calls of [next_token] return an [INLINE_START] token, then tokens
    [body] none of which is an [INLINE_END] token, then an [INLINE_END]
    token, [inline] returns the inline element holding exactly [body], in
    order, and leaves the lexer where those calls leave it. *)
Theorem inline_collects (cfg : LexerConfig) (fuel fuel' : nat)
    (lx lx' : Lexer) (t_start t_end : Token) (body : list Token) :
  next_tokens cfg fuel (S (S (length body))) lx
  = Ok (t_start :: body ++ [t_end], lx') ->
  tok_type t_start = INLINE_START ->
  Forall (fun t => tok_type t <> INLINE_END) body ->
  tok_type t_end = INLINE_END ->
  fuel + length body < fuel' ->
  inline cfg fuel' lx = Ok (TemplateInline body, lx').
Proof.
  intros Hn Hs Hb He Hf.
  apply next_tokens_cons in Hn as (lx1 & E1 & Hn).
  unfold inline.
  rewrite (next_token_more cfg fuel fuel' lx lx1 t_start E1) by lia.
  cbn [bind]. unfold check_tok. rewrite Hs. cbn [tt_in existsb].
  rewrite (tt_eqb_eq _ _ eq_refl). cbn [orb bind].
  rewrite (inline_loop_collects cfg body fuel fuel' [] lx1 lx' t_end Hn Hb He Hf).
  reflexivity.
Qed.

Lemma inline_collects_witness :
  let cfg := default_config (str "{{ a.b }}") in
  let body := [new_Token NAME_OR_KEYWORD (str "a") 4 None;
               new_Token DOT (str ".") 5 None;
               new_Token NAME_OR_KEYWORD (str "b") 6 None] in
  inline cfg 20 new_lexer
  = Ok (TemplateInline body, mkLexer None None 9 [] [] 0 None).
Proof.
  intros cfg body.
  apply (inline_collects cfg 10 20 new_lexer (mkLexer None None 9 [] [] 0 None)
           (new_Token INLINE_START (str "{{") 2 None)
           (new_Token INLINE_END [] 8 None) body).
  - vm_compute. reflexivity.
  - reflexivity.
  - repeat constructor; discriminate.
  - reflexivity.
  - cbn. lia.
Defined.

Section StatementCollects.

Variable cfg : LexerConfig.

Lemma set_la_buf_nil (lx : Lexer) (t : Token) :
  la_buf lx = [] -> set_la_buf (set_la_buf lx (la_buf lx ++ [t])) [] = lx.
Proof. destruct lx. cbn. intros ->. reflexivity. Qed.

Lemma la_fill_next_token (fuel : nat) :
  forall lx t lxA,
  la_buf lx = [] ->
  next_token cfg fuel lx = Ok (t, lxA) ->
  la_buf lxA = []
  /\ la_fill cfg fuel 1 lx = Ok (t, set_la_buf lxA (la_buf lxA ++ [t])).
Proof.
  induction fuel as [|f IH]; intros lx t lxA Hb H; [discriminate|].
  cbn [next_token la_fill] in *. rewrite Hb in H. unfold bind in *.
  destruct (_next_token cfg lx) as [[t1 lx1]| |] eqn:En; try discriminate.
  pose proof (la_buf_next_token_raw cfg lx lx1 t1 En) as Hl. rewrite Hb in Hl.
  destruct (ignored cfg (tok_type t1)).
  - apply IH; assumption.
  - injection H as <- <-. split; [exact Hl|reflexivity].
Qed.

Lemma peek_next_token (fuel : nat) (lx lxA : Lexer) (t : Token) :
  next_token cfg fuel lx = Ok (t, lxA) ->
  exists lx2,
    la cfg fuel 1 lx = Ok (t, lx2)
    /\ forall f, next_token cfg (S f) lx2 = Ok (t, lxA).
Proof.
  intros H. unfold la. cbn [nth_error].
  destruct (la_buf lx) as [|t0 r] eqn:Eb.
  - destruct (la_fill_next_token fuel lx t lxA Eb H) as [Hl E].
    cbn [Nat.sub length]. rewrite E. eexists. split; [reflexivity|].
    intros f. cbn [next_token la_buf set_la_buf]. rewrite Hl. cbn [app].
    rewrite <- (set_la_buf_nil lxA t Hl) at 2. rewrite Hl. reflexivity.
  - destruct fuel as [|f0]; [discriminate|]. cbn [next_token] in H.
    rewrite Eb in H. injection H as <- <-.
    exists lx. split; [reflexivity|]. intros f. cbn [next_token].
    rewrite Eb. reflexivity.
Qed.

Lemma next_tokens_after_la (fuel n : nat) (lx lx2 lxA : Lexer) (t : Token) :
  next_token cfg fuel lx = Ok (t, lxA) ->
  (forall f, next_token cfg (S f) lx2 = Ok (t, lxA)) ->
  next_tokens cfg fuel (S n) lx2 = next_tokens cfg fuel (S n) lx.
Proof.
  intros H H2. destruct fuel as [|f]; [discriminate|].
  cbn [next_tokens]. rewrite H, H2. reflexivity.
Qed.

Lemma la_more (fuel fuel' : nat) (lx lx1 : Lexer) (t : Token) :
  la cfg fuel 1 lx = Ok (t, lx1) -> fuel <= fuel' ->
  la cfg fuel' 1 lx = Ok (t, lx1).
Proof.
  intros H Hle. rewrite <- H. apply la_mono; [|exact Hle].
  rewrite H. discriminate.
Qed.

Lemma trailing_marker_cons (b c : Token) (mid : list Token) :
  trailing_marker (b :: c :: mid)
  = (b :: fst (trailing_marker (c :: mid)), snd (trailing_marker (c :: mid))).
Proof.
  change (trailing_marker (b :: c :: mid))
    with (let (ts, r) := trailing_marker (c :: mid) in (b :: ts, r)).
  destruct (trailing_marker (c :: mid)). reflexivity.
Qed.

Lemma statement_loop_collects (mid : list Token) :
  forall fuel f acc r lx lx' t_end,
  next_tokens cfg fuel (S (length mid)) lx = Ok (mid ++ [t_end], lx') ->
  Forall (fun t => tok_type t <> STATEMENT_END) mid ->
  tok_type t_end = STATEMENT_END ->
  fuel + length mid < f ->
  statement_loop cfg f true acc r lx
  = Ok (acc ++ fst (trailing_marker mid),
        match snd (trailing_marker mid) with Some v => Some v | None => r end,
        lx').
Proof.
  induction mid as [|b mid IH]; intros fuel f acc r lx lx' t_end Hn Hb He Hf;
    (destruct f as [|f]; [lia|]); cbn [statement_loop];
    cbn [app length] in Hn; pose proof Hn as Hn0;
    apply next_tokens_cons in Hn as (lx1 & E1 & Hn).
  - rewrite (next_token_more cfg fuel f lx lx1 t_end E1) by lia. cbn [bind].
    rewrite (tt_eqb_eq _ _ He). cbn in Hn. injection Hn as <-.
    cbn. rewrite app_nil_r. reflexivity.
  - rewrite (next_token_more cfg fuel f lx lx1 b E1) by (cbn in Hf; lia).
    cbn [bind]. inversion Hb as [|? ? Hb1 Hb']; subst.
    rewrite (tt_eqb_neq _ _ Hb1). cbn [andb].
    destruct (is_ws_control (tok_value b)) eqn:Ew.
    + (* a marker candidate: the next token is looked at *)
      assert (Hpeek : exists t' lx2,
        hd_error (mid ++ [t_end]) = Some t'
        /\ la cfg f 1 lx1 = Ok (t', lx2)
        /\ next_tokens cfg fuel (S (length mid)) lx2
           = Ok (mid ++ [t_end], lx')).
      { destruct (mid ++ [t_end]) as [|t' ts] eqn:Em;
          [destruct mid; discriminate|].
        pose proof Hn as Hn1.
        apply next_tokens_cons in Hn1 as (lxA & EA & _).
        destruct (peek_next_token fuel lx1 lxA t' EA) as (lx2 & El & H2).
        exists t', lx2. split; [reflexivity|].
        split; [apply (la_more fuel f lx1 lx2 t' El); cbn in Hf; lia|].
        rewrite (next_tokens_after_la fuel (length mid) lx1 lx2 lxA t' EA H2).
        exact Hn. }
      destruct Hpeek as (t' & lx2 & Eh & El & Hn2).
      rewrite El. cbn [bind].
      destruct mid as [|c mid'].
      * cbn [app hd_error] in Eh. injection Eh as <-.
        rewrite (tt_eqb_eq _ _ He).
        rewrite (IH fuel f acc (Some (tok_value b)) lx2 lx' t_end Hn2 Hb' He)
          by (cbn in Hf; cbn; lia).
        cbn. rewrite Ew. reflexivity.
      * cbn [app hd_error] in Eh. injection Eh as <-.
        inversion Hb' as [|? ? Hc _]; subst.
        rewrite (tt_eqb_neq _ _ Hc).
        rewrite (IH fuel f (acc ++ [b]) r lx2 lx' t_end Hn2 Hb' He)
          by (cbn in Hf; cbn; lia).
        rewrite trailing_marker_cons. cbn [fst snd].
        rewrite <- app_assoc. reflexivity.
    + rewrite (IH fuel f (acc ++ [b]) r lx1 lx' t_end Hn Hb' He)
        by (cbn in Hf; lia).
      destruct mid as [|c mid'].
      * cbn. rewrite Ew. cbn. rewrite <- app_assoc. reflexivity.
      * rewrite trailing_marker_cons. cbn [fst snd].
        rewrite <- app_assoc. reflexivity.
Qed.

End StatementCollects.

(** X17: [statement] on a block statement.  When the next calls of [next_token]
    return a [STATEMENT_START] token, then at most one whitespace-control
    marker [lm], then a name token (the command), then tokens [mid] none of
    which is a [STATEMENT_END] token, then a [STATEMENT_END] token,
    [statement] returns the statement element with that command: its left
    marker is the marker in [lm], a marker standing last in [mid] is its
    right marker, and its argument tokens are the other tokens of [mid], in
    order.  The lexer is left where those calls leave it. *)
Theorem block_statement_collects (cfg : LexerConfig) (fuel fuel' : nat)
    (lx lx' : Lexer) (t_start ctok t_end : Token) (lm mid : list Token) :
  next_tokens cfg fuel (S (length lm + S (S (length mid)))) lx
  = Ok (t_start :: lm ++ ctok :: mid ++ [t_end], lx') ->
  tok_type t_start = STATEMENT_START ->
  (lm = [] /\ is_ws_control (tok_value ctok) = false)
  \/ (exists m, lm = [m] /\ is_ws_control (tok_value m) = true) ->
  tok_type ctok = NAME_OR_KEYWORD ->
  Forall (fun t => tok_type t <> STATEMENT_END) mid ->
  tok_type t_end = STATEMENT_END ->
  fuel + length mid < fuel' ->
  statement cfg fuel' lx
  = Ok (TemplateStatement (leading_marker lm) (tok_value ctok)
          (fst (trailing_marker mid)) (snd (trailing_marker mid)), lx').
Proof.
  intros Hn Hs Hlm Hc Hb He Hf.
  apply next_tokens_cons in Hn as (lx1 & E1 & Hn).
  assert (Hfu : exists f0, fuel' = S f0) by (exists (fuel' - 1); lia).
  destruct Hfu as (f0 & Ef0).
  unfold statement.
  rewrite (next_token_more cfg fuel fuel' lx lx1 t_start E1) by lia.
  cbn [bind]. unfold check_tok at 1. rewrite Hs. cbn [tt_in existsb].
  rewrite (tt_eqb_eq STATEMENT_START STATEMENT_START eq_refl). cbn [orb bind].
  assert (Hloop : forall lxB,
    next_tokens cfg fuel (S (length mid)) lxB = Ok (mid ++ [t_end], lx') ->
    statement_loop cfg fuel' true [] None lxB
    = Ok (fst (trailing_marker mid), snd (trailing_marker mid), lx')).
  { intros lxB HnB.
    rewrite (statement_loop_collects cfg mid fuel fuel' [] None lxB lx' t_end
               HnB Hb He Hf).
    cbn [app]. destruct (snd (trailing_marker mid)); reflexivity. }
  assert (Hcheck : check_tok ctok [NAME_OR_KEYWORD] = Ok ctok).
  { unfold check_tok. rewrite Hc. reflexivity. }
  destruct Hlm as [[-> Hw] | (m & -> & Hw)]; cbn [length app Nat.add] in Hn.
  - apply next_tokens_cons in Hn as (lxA & EA & HnA).
    destruct (peek_next_token cfg fuel lx1 lxA ctok EA) as (lx2 & El & H2).
    rewrite (la_more cfg fuel fuel' lx1 lx2 ctok El) by lia.
    cbn [bind]. rewrite Hw. cbn [bind]. rewrite Ef0, H2, <- Ef0. cbn [bind].
    rewrite Hcheck. cbn [bind]. rewrite (Hloop lxA HnA). reflexivity.
  - apply next_tokens_cons in Hn as (lxA & EA & HnA).
    destruct (peek_next_token cfg fuel lx1 lxA m EA) as (lx2 & El & H2).
    rewrite (la_more cfg fuel fuel' lx1 lx2 m El) by lia.
    cbn [bind]. rewrite Hw. rewrite Ef0 at 1. rewrite H2. cbn [bind].
    apply next_tokens_cons in HnA as (lxB & EB & HnB).
    rewrite (next_token_more cfg fuel fuel' lxA lxB ctok EB) by lia.
    cbn [bind]. rewrite Hcheck. cbn [bind]. rewrite (Hloop lxB HnB).
    reflexivity.
Qed.

Lemma block_statement_collects_witness :
  let cfg := default_config (str "{%- set y = 1 -%}") in
  let minus := fun off => new_Token MATH_OP_OR_STAR_ARGS (str "-") off None in
  let ctok := new_Token NAME_OR_KEYWORD (str "set") 5 None in
  let mid := [new_Token NAME_OR_KEYWORD (str "y") 9 None;
              new_Token EQ (str "=") 11 None;
              new_Token NUM_LIT (str "1") 13 (Some (VInt 1));
              minus 15] in
  statement cfg 20 new_lexer
  = Ok (TemplateStatement (leading_marker [minus 2]) (tok_value ctok)
          (fst (trailing_marker mid)) (snd (trailing_marker mid)),
        mkLexer None None 17 [] [] 0 None).
Proof.
  intros cfg minus ctok mid.
  apply (block_statement_collects cfg 10 20 new_lexer
           (mkLexer None None 17 [] [] 0 None)
           (new_Token STATEMENT_START (str "{%") 1 None) ctok
           (new_Token STATEMENT_END [] 16 None) [minus 2] mid).
  - vm_compute. reflexivity.
  - reflexivity.
  - right. exists (minus 2). split; reflexivity.
  - reflexivity.
  - repeat constructor; discriminate.
  - reflexivity.
  - cbn. lia.
Defined.

Section LexerErrors.

Variable cfg : LexerConfig.

Lemma regular_lexicon_sign (e : TokenType) (sl : bool) (start_pos : nat)
    (c : char) (lx : Lexer) :
  c = ord "+" \/ c = ord "-" ->
  regular_lexicon cfg e sl start_pos c lx
  = (let (la, lx1) := _la cfg 1 lx in
     if is_digit10 la then Raise (NameError "_do_num")
     else Ok (new_Token MATH_OP_OR_STAR_ARGS [c] start_pos None, lx1)).
Proof. intros [-> | ->]; reflexivity. Qed.

Lemma _do_str_loop_escape (s : list char) :
  forall fuel start_pos q value_buf lx e rest,
  ahead cfg lx (s ++ ord "\" :: e :: rest) ->
  Forall (fun c => N.eqb c q = false /\ eqc c "\" = false) s ->
  N.eqb (ord "\") q = false ->
  eqc e "n" = false -> eqc e "r" = false ->
  length s < fuel ->
  _do_str_loop cfg fuel start_pos q value_buf lx
  = Raise (TypeError "unsupported operand type(s) for |: 'str' and 'str'").
Proof.
  induction s as [|c s IH];
    intros fuel start_pos q value_buf lx e rest Ha Hs Hq Hn Hr Hf;
    (destruct fuel as [|f]; [cbn in Hf; lia|]); cbn [_do_str_loop];
    cbn [app] in Ha;
    destruct (next_ahead cfg lx _ _ Ha) as (lx1 & En & Ha1 & _);
    rewrite En.
  - rewrite Hq. change (eqc (ord "\") "\") with true. cbv iota.
    destruct (next_ahead cfg lx1 _ _ Ha1) as (lx2 & En2 & _).
    rewrite En2, Hn, Hr. reflexivity.
  - inversion Hs as [|? ? [Hcq Hbs] Hs']; subst. rewrite Hcq, Hbs.
    apply (IH f start_pos q (value_buf ++ [c]) lx1 e rest Ha1 Hs' Hq Hn Hr).
    cbn in Hf. lia.
Qed.

End LexerErrors.

(** X18: No signed number is ever lexed.  Whenever a [+] or [-] that does not
    start the terminator is followed by a decimal digit, [_do_statement]
    raises [NameError]: the branch calls [_do_num] without [self.]. *)
Theorem sign_before_digit_raises (cfg : LexerConfig)
    (terminator : option (list char)) (end_tok_type : TokenType)
    (single_line : bool) (lx : Lexer) (c d : char) (rest : list char) :
  ahead cfg lx (c :: d :: rest) ->
  c = ord "+" \/ c = ord "-" ->
  is_digit10 (Some d) = true ->
  begins_with terminator c = false ->
  _do_statement cfg terminator end_tok_type single_line lx
  = Raise (NameError "_do_num").
Proof.
  intros Ha Hc Hd Hb.
  destruct (next_ahead cfg lx c _ Ha) as (lx1 & En & Ha1 & _).
  rewrite (_do_statement_lexicon cfg terminator end_tok_type single_line
             lx lx1 c En Hb).
  rewrite (regular_lexicon_sign cfg end_tok_type single_line _ c lx1 Hc).
  destruct (la_ahead cfg lx1 _ Ha1) as (lx2 & El & _).
  rewrite El. cbn [hd_error]. rewrite Hd. reflexivity.
Qed.

Lemma sign_before_digit_raises_witness :
  _do_statement (default_config (str "{{ x -1 }}")) (Some (str "}}"))
    INLINE_END false (mkLexer None None 5 [] [] 5 None)
  = Raise (NameError "_do_num").
Proof.
  apply (sign_before_digit_raises (default_config (str "{{ x -1 }}"))
           (Some (str "}}")) INLINE_END false (mkLexer None None 5 [] [] 5 None)
           (ord "-") (ord "1") (str " }}")).
  - exact (up_direct (str "{{ x -1 }}") 5).
  - right. reflexivity.
  - reflexivity.
  - reflexivity.
Defined.

(** X19: No binary literal is ever lexed.  Whenever a [0] that does not start
    the terminator is followed by [b] or [B] and one more character,
    [_do_statement] raises [ValueError]: [is_digit] is called with radix 2,
    which it does not know. *)
Theorem binary_prefix_raises (cfg : LexerConfig)
    (terminator : option (list char)) (end_tok_type : TokenType)
    (single_line : bool) (lx : Lexer) (p x : char) (rest : list char) :
  ahead cfg lx (ord "0" :: p :: x :: rest) ->
  p = ord "b" \/ p = ord "B" ->
  begins_with terminator (ord "0") = false ->
  _do_statement cfg terminator end_tok_type single_line lx
  = Raise (ValueError "Bad radix:").
Proof.
  intros Ha Hp Hb.
  destruct (next_ahead cfg lx _ _ Ha) as (lx1 & En & Ha1 & _).
  rewrite (_do_statement_lexicon cfg terminator end_tok_type single_line
             lx lx1 _ En Hb).
  rewrite (regular_lexicon_digit cfg end_tok_type single_line _ (ord "0")
             lx1 eq_refl).
  set (lx2 := _start_buf cfg NUM_LIT (Some (ord "0")) lx1).
  assert (Ha2 : ahead cfg lx2 (p :: x :: rest))
    by (apply ahead_start_buf; exact Ha1).
  clearbody lx2.
  unfold _do_num_body.
  change (eqc (ord "0") ".") with false. change (eqc (ord "0") "0") with true.
  cbv iota.
  destruct (la_ahead cfg lx2 _ Ha2) as (lxa & El & Haa & _).
  rewrite El. cbn [hd_error].
  destruct (next_ahead cfg lxa p _ Haa) as (lx3 & E3 & Ha3 & _).
  assert (Et : (if is_ch (Some p) "x" || is_ch (Some p) "X"
                then (16%Z, snd (_next cfg lxa))
                else if is_ch (Some p) "b" || is_ch (Some p) "B"
                then (2%Z, snd (_next cfg lxa))
                else if is_ch (Some p) "o" || is_ch (Some p) "O"
                then (8%Z, snd (_next cfg lxa))
                else (10%Z, lxa)) = (2%Z, lx3)).
  { rewrite E3. destruct Hp as [-> | ->]; reflexivity. }
  rewrite Et.
  pose proof (ahead_fuel cfg lx3 _ Ha3) as Hfu.
  destruct (cursor_fuel cfg lx3) as [|f]; [cbn in Hfu; lia|].
  cbn [num_digits].
  destruct (la_ahead cfg lx3 _ Ha3) as (lx4 & E4 & _).
  rewrite E4. reflexivity.
Qed.

Lemma binary_prefix_raises_witness :
  _do_statement (default_config (str "{{ 0b101 }}")) (Some (str "}}"))
    INLINE_END false (mkLexer None None 3 [] [] 5 None)
  = Raise (ValueError "Bad radix:").
Proof.
  apply (binary_prefix_raises (default_config (str "{{ 0b101 }}"))
           (Some (str "}}")) INLINE_END false (mkLexer None None 3 [] [] 5 None)
           (ord "b") (ord "1") (str "01 }}")).
  - exact (up_direct (str "{{ 0b101 }}") 3).
  - left. reflexivity.
  - reflexivity.
Defined.

(** X20: Only the escapes [\n] and [\r] decode.  In a string literal, a
    backslash followed by any character other than [n] and [r] makes
    [_do_statement] raise [TypeError]: the escape chain evaluates
    ['\n' | '\r'] right after its tests for [n] and [r]. *)
Theorem other_escape_raises (cfg : LexerConfig)
    (terminator : option (list char)) (end_tok_type : TokenType)
    (single_line : bool) (lx : Lexer) (q e : char) (s rest : list char) :
  ahead cfg lx (q :: s ++ ord "\" :: e :: rest) ->
  q = DQUOTE \/ q = ord "'" ->
  Forall (fun c => N.eqb c q = false /\ eqc c "\" = false) s ->
  eqc e "n" = false -> eqc e "r" = false ->
  begins_with terminator q = false ->
  _do_statement cfg terminator end_tok_type single_line lx
  = Raise (TypeError "unsupported operand type(s) for |: 'str' and 'str'").
Proof.
  intros Ha Hq Hs Hn Hr Hb.
  destruct (next_ahead cfg lx q _ Ha) as (lx1 & En & Ha1 & _).
  rewrite (_do_statement_lexicon cfg terminator end_tok_type single_line
             lx lx1 q En Hb).
  rewrite (regular_lexicon_quote cfg end_tok_type single_line _ q lx1 Hq).
  unfold _do_str.
  set (lx2 := _start_buf cfg STR_LIT (Some q) lx1).
  assert (Ha2 : ahead cfg lx2 (s ++ ord "\" :: e :: rest))
    by (apply ahead_start_buf; exact Ha1).
  apply (_do_str_loop_escape cfg s (cursor_fuel cfg lx2) (template_pos lx) q []
           lx2 e rest Ha2 Hs); [|exact Hn|exact Hr|].
  - destruct Hq as [-> | ->]; reflexivity.
  - pose proof (ahead_fuel cfg lx2 _ Ha2) as Hfu. rewrite length_app in Hfu. lia.
Qed.

Lemma other_escape_raises_witness :
  _do_statement (default_config (str "{{ 'a\tb' }}")) (Some (str "}}"))
    INLINE_END false (mkLexer None None 3 [] [] 5 None)
  = Raise (TypeError "unsupported operand type(s) for |: 'str' and 'str'").
Proof.
  apply (other_escape_raises (default_config (str "{{ 'a\tb' }}"))
           (Some (str "}}")) INLINE_END false (mkLexer None None 3 [] [] 5 None)
           (ord "'") (ord "t") (str "a") (str "b' }}")).
  - exact (up_direct (str "{{ 'a\tb' }}") 3).
  - right. reflexivity.
  - repeat constructor.
  - reflexivity.
  - reflexivity.
  - reflexivity.
Defined.
